(** * Equipment lending tracker: loan and trust lifecycle

    A shallow embedding of the store-facing logic of the lending tracker:
    [calculateTrustScore] (src/lib/db.ts), the borrow flow's [handleConfirm]
    and the student database's [handleManualSubmit], [handleFileImport] and
    [handleBlacklistSubmit] (pages/captain/CaptainLayout.tsx), the loan
    actions of components/StudentProfileModal.tsx, the inventory form's
    [handleSubmit] and the at-risk pass [checkAtRiskStudents].

    Conventions.
    - A Dexie table keyed by [id] is a [gmap string R].  [toArray] enumerates
      the map; Dexie yields primary-key order, [map_to_list] yields the map's
      own order.  Nothing below depends on that order.
    - An ISO timestamp string is the [Z] of milliseconds it denotes, since the
      code only ever compares timestamps through [new Date(..)].
    - A stored trust score is a rational ([Q]), and the handlers compute with
      it in exact arithmetic, [Math.round] being round half up.  The engine
      computes in IEEE 754 binary64; the score formula of
      [calculateTrustScore] is given that way too, as
      [calculateTrustScore_binary64], at the end of the definitions.
    - Every store call may be rejected by the store: a connection carries an
      optional budget of calls that succeed before the first rejection. *)

From Stdlib Require Import ZArith QArith Qround Lia.
From Stdlib Require SpecFloat.
From stdpp Require Import gmap strings list fin_maps sorting pretty.

Close Scope Q_scope.
Open Scope Z_scope.

(** ** Data model (src/lib/db.ts) *)

Inductive EquipmentStatus :=
  available | borrowed | reserved | repair | lost | damaged.

Inductive LoanStatus := active | returned | overdue.

Record Student := {
  st_id : string;
  st_student_id : string;
  st_full_name : string;
  st_year_group : string;
  st_class_name : option string;
  st_house : option string;
  st_email : option string;
  st_avatar_url : option string;
  trust_score : Q;
  is_blacklisted : bool;
  blacklist_end_date : option Z;
  blacklist_reason : option string;
  st_created_at : Z;
  st_updated_at : Z
}.

Record EquipmentItem := {
  eq_id : string;
  eq_item_id : string;
  eq_name : string;
  eq_category : string;
  eq_image_url : option string;
  eq_location : option string;
  status : EquipmentStatus;
  eq_condition_notes : option string;
  eq_created_at : Z;
  eq_updated_at : Z
}.

Record Loan := {
  ln_id : string;
  student_id : string;
  equipment_id : string;
  borrowed_by_user_id : option string;
  borrowed_at : Z;
  due_at : Z;
  returned_at : option Z;
  is_overdue : bool;
  ln_status : LoanStatus;
  ln_created_at : Z
}.

Record BlacklistEntry := {
  bl_id : string;
  bl_student_id : string;
  blacklisted_by_user_id : option string;
  start_date : Z;
  end_date : Z;
  reason : string;
  is_active : bool;
  bl_created_at : Z
}.

Global Instance EquipmentStatus_eq_dec : EqDecision EquipmentStatus.
Proof. solve_decision. Defined.

Global Instance LoanStatus_eq_dec : EqDecision LoanStatus.
Proof. solve_decision. Defined.

(** ** The record store *)

Record Store := {
  students : gmap string Student;
  equipment : gmap string EquipmentItem;
  loans : gmap string Loan;
  blacklistEntries : gmap string BlacklistEntry
}.

Definition emptyStore : Store :=
  {| students := ∅; equipment := ∅; loans := ∅; blacklistEntries := ∅ |}.

(** A table of the database: how to read and replace it inside the store and
    which field is its primary key. *)
Record Table (R : Type) := {
  rows : Store → gmap string R;
  with_rows : gmap string R → Store → Store;
  key : R → string
}.
Arguments rows {R}.
Arguments with_rows {R}.
Arguments key {R}.

Definition db_students : Table Student :=
  {| rows := students;
     with_rows m s := {| students := m; equipment := equipment s;
                         loans := loans s; blacklistEntries := blacklistEntries s |};
     key := st_id |}.

Definition db_equipment : Table EquipmentItem :=
  {| rows := equipment;
     with_rows m s := {| students := students s; equipment := m;
                         loans := loans s; blacklistEntries := blacklistEntries s |};
     key := eq_id |}.

Definition db_loans : Table Loan :=
  {| rows := loans;
     with_rows m s := {| students := students s; equipment := equipment s;
                         loans := m; blacklistEntries := blacklistEntries s |};
     key := ln_id |}.

Definition db_blacklistEntries : Table BlacklistEntry :=
  {| rows := blacklistEntries;
     with_rows m s := {| students := students s; equipment := equipment s;
                         loans := loans s; blacklistEntries := m |};
     key := bl_id |}.

(** ** Store calls as a state-and-error monad *)

Inductive error :=
  | StoreFailure      (* the store rejected a call *)
  | ConstraintError   (* [add] on a key that is taken *)
  | RangeError        (* [toISOString] of an invalid date *)
  | Rejected.         (* the handler refused its input *)

Record Conn := {
  store : Store;
  budget : option nat   (* calls accepted before the store rejects one *)
}.

Definition connect (s : Store) : Conn := {| store := s; budget := None |}.

Definition M (A : Type) : Type := Conn → Conn * (error + A).

Definition ret {A} (a : A) : M A := λ c, (c, inr a).

Definition bind {A B} (m : M A) (k : A → M B) : M B :=
  λ c, match m c with
       | (c', inr a) => k a c'
       | (c', inl e) => (c', inl e)
       end.

Definition throw {A} (e : error) : M A := λ c, (c, inl e).

Notation "'let!' x ':=' m 'in' k" := (bind m (λ x, k))
  (at level 10, x name, m at level 100, k at level 200).
Notation "'do!' m 'in' k" := (bind m (λ _, k))
  (at level 10, m at level 100, k at level 200).

(** One round trip to the store. *)
Definition call : M unit :=
  λ c, match budget c with
       | None => (c, inr tt)
       | Some (S n) => ({| store := store c; budget := Some n |}, inr tt)
       | Some O => (c, inl StoreFailure)
       end.

Definition read {A} (f : Store → A) : M A :=
  do! call in λ c, (c, inr (f (store c))).

Definition write (f : Store → Store) : M unit :=
  do! call in λ c, ({| store := f (store c); budget := budget c |}, inr tt).

(** [db.transaction('rw', ..., body)]: the body's writes are kept only if the
    body completes. *)
Definition transaction {A} (body : M A) : M A :=
  λ c, match body c with
       | (c', inr a) => (c', inr a)
       | (c', inl e) => ({| store := store c; budget := budget c' |}, inl e)
       end.

(** [for (const x of xs) { await body(x) }] *)
Fixpoint forEach {A} (xs : list A) (body : A → M unit) : M unit :=
  match xs with
  | [] => ret tt
  | x :: xs' => do! body x in forEach xs' body
  end.

Definition values {R} (m : gmap string R) : list R := (map_to_list m).*2.

Definition countWhere {R} (p : R → bool) (m : gmap string R) : nat :=
  length (List.filter p (values m)).

Section TableCalls.
Context {R : Type} (t : Table R).

(** [table.add(item)]: rejected when the key is taken. *)
Definition add (item : R) : M unit :=
  do! call in λ c,
    match rows t (store c) !! key t item with
    | Some _ => (c, inl ConstraintError)
    | None =>
        ({| store := with_rows t (<[key t item := item]> (rows t (store c))) (store c);
            budget := budget c |}, inr tt)
    end.

(** [table.bulkAdd(items)]: one call; the items whose key is free are
    stored, and the call is rejected if some key was taken. *)
Fixpoint bulkInsert (items : list R) (m : gmap string R) : gmap string R * bool :=
  match items with
  | [] => (m, true)
  | item :: rest =>
      match m !! key t item with
      | Some _ => (fst (bulkInsert rest m), false)
      | None => bulkInsert rest (<[key t item := item]> m)
      end
  end.

Definition bulkAdd (items : list R) : M unit :=
  do! call in λ c,
    let '(m, ok) := bulkInsert items (rows t (store c)) in
    ({| store := with_rows t m (store c); budget := budget c |},
     if ok then inr tt else inl ConstraintError).

(** [table.update(key, changes)]: no effect and no error on a missing key. *)
Definition update (k : string) (changes : R → R) : M unit :=
  write (λ s, with_rows t (alter changes k (rows t s)) s).

Definition get (k : string) : M (option R) :=
  read (λ s, rows t s !! k).

Definition delete (k : string) : M unit :=
  write (λ s, with_rows t (base.delete k (rows t s)) s).

Definition toArray : M (list R) :=
  read (λ s, values (rows t s)).

(** [table.where(..).equals(..).and(..).toArray()] with the whole
    selection as one predicate. *)
Definition whereToArray (p : R → bool) : M (list R) :=
  read (λ s, List.filter p (values (rows t s))).

Definition whereCount (p : R → bool) : M nat :=
  read (λ s, length (List.filter p (values (rows t s)))).

(** [table.where(..).and(..).modify(changes)] *)
Definition whereModify (p : R → bool) (changes : R → R) : M unit :=
  write (λ s, with_rows t ((λ r, if p r then changes r else r) <$> rows t s) s).
End TableCalls.

(** [runs m s s' a]: on store [s], with every call accepted, [m] completes
    with result [a] and leaves store [s']. *)
Definition runs {A} (m : M A) (s s' : Store) (a : A) : Prop :=
  m (connect s) = (connect s', inr a).

(** [respects Q m]: whatever the store accepts or rejects, [m] takes a store
    to one related to it by [Q]. *)
Definition respects (Q : Store → Store → Prop) {A} (m : M A) : Prop :=
  ∀ c c' r, m c = (c', r) → Q (store c) (store c').

(** Running a handler on a store. *)
Definition run {A} (m : M A) (s : Store) : Store * (error + A) :=
  let '(c, r) := m (connect s) in (store c, r).

Definition runFailingAt {A} (n : nat) (m : M A) (s : Store) : Store * (error + A) :=
  let '(c, r) := m {| store := s; budget := Some n |} in (store c, r).

Definition exec {A} (m : M A) (s : Store) : Store := fst (run m s).

(** ** Numbers *)

Definition Math_round (x : Q) : Z := Qfloor (x + (1 # 2))%Q.

Definition Math_max (x y : Q) : Q := if Qle_bool x y then y else x.

Definition ofNat (n : nat) : Q := inject_Z (Z.of_nat n).

Definition eqs (a b : string) : bool := bool_decide (a = b).

(** ** Trust score (src/lib/db.ts)

    [trustScoreOf] evaluates the score formula in exact arithmetic; the
    handlers below store that value.  [trustScoreOf_binary64], further down,
    evaluates the same lines as the engine does; the two differ by one tenth
    where binary64 falls just short of a tie. *)

Definition isReturned (l : Loan) : bool :=
  match returned_at l with Some _ => true | None => false end.

Definition onTime (l : Loan) : bool :=
  match returned_at l with
  | Some r => r <=? due_at l
  | None => false
  end.

Definition trustScoreOf (ls : list Loan) : Q :=
  if (length ls =? 0)%nat then (50 # 1)%Q
  else
    let onTimeReturns := length (List.filter onTime ls) in
    let score := ((ofNat onTimeReturns / ofNat (length ls)) * (100 # 1))%Q in
    (inject_Z (Math_round (score * (10 # 1))) / (10 # 1))%Q.

(** The selection [where('student_id').equals(studentId).and(returned)]. *)
Definition selected (studentId : string) (l : Loan) : bool :=
  eqs (student_id l) studentId && isReturned l.

Definition calculateTrustScore (studentId : string) : M Q :=
  let! ls := whereToArray db_loans (selected studentId) in
  ret (trustScoreOf ls).

(** ** Borrow flow: [handleConfirm] (pages/captain/CaptainLayout.tsx)

    [generateUUID] draws random identifiers; [uuid i] is the identifier
    drawn by the [i]-th call of a handler run. *)

Definition markBorrowed (now : Z) (e : EquipmentItem) : EquipmentItem :=
  {| eq_id := eq_id e; eq_item_id := eq_item_id e; eq_name := eq_name e;
     eq_category := eq_category e; eq_image_url := eq_image_url e;
     eq_location := eq_location e; status := borrowed;
     eq_condition_notes := eq_condition_notes e;
     eq_created_at := eq_created_at e; eq_updated_at := now |}.

Definition markAvailable (now : Z) (e : EquipmentItem) : EquipmentItem :=
  {| eq_id := eq_id e; eq_item_id := eq_item_id e; eq_name := eq_name e;
     eq_category := eq_category e; eq_image_url := eq_image_url e;
     eq_location := eq_location e; status := available;
     eq_condition_notes := eq_condition_notes e;
     eq_created_at := eq_created_at e; eq_updated_at := now |}.

Definition newLoan (id studentId equipmentId : string) (user : option string)
    (now dueTime : Z) : Loan :=
  {| ln_id := id; student_id := studentId; equipment_id := equipmentId;
     borrowed_by_user_id := user; borrowed_at := now; due_at := dueTime;
     returned_at := None; is_overdue := false; ln_status := active;
     ln_created_at := now |}.

Fixpoint borrowEach (uuid : nat → string) (i : nat) (studentId : string)
    (user : option string) (now dueTime : Z) (ids : list string) : M unit :=
  match ids with
  | [] => ret tt
  | equipmentId :: rest =>
      do! add db_loans (newLoan (uuid i) studentId equipmentId user now dueTime) in
      do! update db_equipment equipmentId (markBorrowed now) in
      borrowEach uuid (S i) studentId user now dueTime rest
  end.

(** *** Local time

    The time arithmetic of ECMAScript's [Date], on time values (milliseconds
    since the epoch, [Z]).  [LocalTZA t isUTC] is the host's offset of local
    time from UTC at the instant [t], read as a UTC time value when [isUTC]
    and as a local one otherwise; it is fixed by the host's time zone and
    changes where daylight saving begins or ends.  Time values are taken to
    lie within the range of valid dates, where [TimeClip] is the identity. *)

Definition msPerSecond : Z := 1000.
Definition msPerMinute : Z := 60000.
Definition msPerHour : Z := 3600000.
Definition msPerDay : Z := 86400000.

Definition Day (t : Z) : Z := t / msPerDay.
Definition HourFromTime (t : Z) : Z := (t / msPerHour) mod 24.
Definition MinFromTime (t : Z) : Z := (t / msPerMinute) mod 60.
Definition SecFromTime (t : Z) : Z := (t / msPerSecond) mod 60.
Definition msFromTime (t : Z) : Z := t mod msPerSecond.

Definition MakeTime (hour min sec ms : Z) : Z :=
  hour * msPerHour + min * msPerMinute + sec * msPerSecond + ms.

Definition MakeDate (day time : Z) : Z := day * msPerDay + time.

Section HostTimeZone.
Variable LocalTZA : Z → bool → Z.

Definition LocalTime (t : Z) : Z := t + LocalTZA t true.

Definition UTC (t : Z) : Z := t - LocalTZA t false.

(** [date.getMinutes()] *)
Definition getMinutes (t : Z) : Z := MinFromTime (LocalTime t).

(** [date.setMinutes(min)]: the minutes field of the local time is replaced
    and the result is read back as a local time. *)
Definition setMinutes (t min : Z) : Z :=
  let lt := LocalTime t in
  UTC (MakeDate (Day lt)
         (MakeTime (HourFromTime lt) min (SecFromTime lt) (msFromTime lt))).

(** The clock is read twice: [started] is the reading behind [dueTime],
    [now] the later one behind [now]. *)
Definition handleConfirm (uuid : nat → string) (user : option string)
    (started now : Z) (selectedStudent : option Student)
    (selectedEquipment : list string) (selectedDuration : Z) : M unit :=
  match selectedStudent, selectedEquipment with
  | None, _ | _, [] => ret tt
  | Some student, _ =>
      let dueTime := setMinutes started (getMinutes started + selectedDuration) in
      borrowEach uuid 0 (st_id student) user now dueTime selectedEquipment
  end.
End HostTimeZone.

(** A host whose local time is UTC. *)
Definition utcZone (t : Z) (isUTC : bool) : Z := 0.

(** ** Loan actions (components/StudentProfileModal.tsx) *)

Definition markReturned (now : Z) (l : Loan) : Loan :=
  {| ln_id := ln_id l; student_id := student_id l; equipment_id := equipment_id l;
     borrowed_by_user_id := borrowed_by_user_id l; borrowed_at := borrowed_at l;
     due_at := due_at l; returned_at := Some now; is_overdue := false;
     ln_status := returned; ln_created_at := ln_created_at l |}.

Definition setTrustScore (score : Q) (now : Z) (s : Student) : Student :=
  {| st_id := st_id s; st_student_id := st_student_id s;
     st_full_name := st_full_name s; st_year_group := st_year_group s;
     st_class_name := st_class_name s; st_house := st_house s;
     st_email := st_email s; st_avatar_url := st_avatar_url s;
     trust_score := score; is_blacklisted := is_blacklisted s;
     blacklist_end_date := blacklist_end_date s;
     blacklist_reason := blacklist_reason s;
     st_created_at := st_created_at s; st_updated_at := now |}.

Definition handleMarkReturned (now : Z) (studentId : string)
    (selectedLoan : option string) : M unit :=
  match selectedLoan with
  | None => ret tt
  | Some loanId =>
      do! update db_loans loanId (markReturned now) in
      let! loan := get db_loans loanId in
      do! match loan with
          | Some l => update db_equipment (equipment_id l) (markAvailable now)
          | None => ret tt
          end in
      let! newTrustScore := calculateTrustScore studentId in
      update db_students studentId (setTrustScore newTrustScore now)
  end.

Definition handleDeleteLoan (now : Z) (studentId : string)
    (selectedLoan : option string) : M unit :=
  match selectedLoan with
  | None => ret tt
  | Some loanId =>
      let! loan := get db_loans loanId in
      do! match loan with
          | Some l =>
              if negb (isReturned l)
              then update db_equipment (equipment_id l) (markAvailable now)
              else ret tt
          | None => ret tt
          end in
      do! delete db_loans loanId in
      let! newTrustScore := calculateTrustScore studentId in
      update db_students studentId (setTrustScore newTrustScore now)
  end.

(** ** Student database (pages/captain/CaptainLayout.tsx) *)

(** [s.slice(-n)] *)
Definition sliceLast (n : nat) (s : string) : string :=
  String.substring (String.length s - n) n s.

(** [`STU${Date.now().toString().slice(-6)}`] *)
Definition studentCode (now : Z) : string :=
  String.append "STU" (sliceLast 6 (pretty now)).

(** [a || b] on strings: the empty string is falsy. *)
Definition orElse (a b : string) : string :=
  if eqs a "" then b else a.

Definition nonEmpty (a : option string) : option string :=
  match a with
  | Some s => if eqs s "" then None else Some s
  | None => None
  end.

Record ManualForm := {
  mf_full_name : string;
  mf_class_name : string
}.

Definition handleManualSubmit (uuid : nat → string) (now : Z)
    (manualForm : ManualForm) : M unit :=
  let newStudent :=
    {| st_id := uuid O; st_student_id := studentCode now;
       st_full_name := mf_full_name manualForm;
       st_year_group := "Year 7";
       st_class_name := Some (mf_class_name manualForm);
       st_house := None; st_email := None; st_avatar_url := None;
       trust_score := (100 # 1)%Q; is_blacklisted := false;
       blacklist_end_date := None; blacklist_reason := None;
       st_created_at := now; st_updated_at := now |} in
  add db_students newStudent.

(** A row of an import file after parsing; parsing itself is outside the
    model.  Rows with an empty name or class have been dropped by then. *)
Record ImportRow := {
  row_full_name : string;
  row_class_name : string;
  row_house : option string
}.

Definition importedStudent (uuid : nat → string) (now : Z)
    (index : nat) (row : ImportRow) : Student :=
  {| st_id := uuid index;
     st_student_id := String.append (studentCode now) (pretty index);
     st_full_name := row_full_name row;
     st_year_group := orElse (row_class_name row) "Year 7";
     st_class_name := Some (row_class_name row);
     st_house := nonEmpty (row_house row);
     st_email := None; st_avatar_url := None;
     trust_score := (100 # 1)%Q; is_blacklisted := false;
     blacklist_end_date := None; blacklist_reason := None;
     st_created_at := now; st_updated_at := now |}.

Definition handleFileImport (uuid : nat → string) (now : Z)
    (data : list ImportRow) : M unit :=
  match data with
  | [] => throw Rejected
  | _ => bulkAdd db_students (imap (importedStudent uuid now) data)
  end.

Record BlacklistForm := {
  form_is_blacklisted : bool;
  form_end_date : option Z;     (* [None]: the field does not parse as a date *)
  form_reason : string
}.

(** The partial record [updateData] of [handleBlacklistSubmit]. *)
Definition applyBlacklistUpdate (isBlacklisted : bool) (endDate : option Z)
    (why : option string) (score : option Q) (now : Z) (s : Student) : Student :=
  {| st_id := st_id s; st_student_id := st_student_id s;
     st_full_name := st_full_name s; st_year_group := st_year_group s;
     st_class_name := st_class_name s; st_house := st_house s;
     st_email := st_email s; st_avatar_url := st_avatar_url s;
     trust_score := match score with Some q => q | None => trust_score s end;
     is_blacklisted := isBlacklisted;
     blacklist_end_date := endDate;
     blacklist_reason := why;
     st_created_at := st_created_at s; st_updated_at := now |}.

Definition deactivate (e : BlacklistEntry) : BlacklistEntry :=
  {| bl_id := bl_id e; bl_student_id := bl_student_id e;
     blacklisted_by_user_id := blacklisted_by_user_id e;
     start_date := start_date e; end_date := end_date e; reason := reason e;
     is_active := false; bl_created_at := bl_created_at e |}.

(** [new Date(text).toISOString()] *)
Definition toISOString (d : option Z) : M Z :=
  match d with
  | Some t => ret t
  | None => throw RangeError
  end.

Definition handleBlacklistSubmit (uuid : nat → string) (now : Z)
    (selectedStudent : option Student) (blacklistForm : BlacklistForm) : M unit :=
  match selectedStudent with
  | None => ret tt
  | Some sel =>
      let isBlacklisted := form_is_blacklisted blacklistForm in
      let! endDate :=
        (if isBlacklisted
         then let! t := toISOString (form_end_date blacklistForm) in ret (Some t)
         else ret None) in
      let why := if isBlacklisted then Some (form_reason blacklistForm) else None in
      let score :=
        if isBlacklisted && negb (is_blacklisted sel)
        then Some (Math_max (0 # 1) (trust_score sel * (1 # 2)))%Q
        else None in
      transaction (
        do! update db_students (st_id sel)
              (applyBlacklistUpdate isBlacklisted endDate why score now) in
        if isBlacklisted then
          let! t := toISOString (form_end_date blacklistForm) in
          add db_blacklistEntries
            {| bl_id := uuid O; bl_student_id := st_id sel;
               blacklisted_by_user_id := None; start_date := now;
               end_date := t; reason := form_reason blacklistForm;
               is_active := true; bl_created_at := now |}
        else if is_blacklisted sel then
          whereModify db_blacklistEntries
            (λ e, eqs (bl_student_id e) (st_id sel) && is_active e) deactivate
        else ret tt)
  end.

(** ** Inventory form: [handleSubmit] (the inventory page) *)

Record EquipmentForm := {
  form_item_id : string;
  form_name : string;
  form_category : string;
  form_status : EquipmentStatus;
  form_condition_notes : string
}.

(** [{...formData, image_url, updated_at}] applied to a stored item. *)
Definition applyEquipmentForm (f : EquipmentForm) (imageUrl : option string)
    (now : Z) (e : EquipmentItem) : EquipmentItem :=
  {| eq_id := eq_id e; eq_item_id := form_item_id f; eq_name := form_name f;
     eq_category := form_category f; eq_image_url := imageUrl;
     eq_location := eq_location e; status := form_status f;
     eq_condition_notes := Some (form_condition_notes f);
     eq_created_at := eq_created_at e; eq_updated_at := now |}.

(** [uploaded] is the URL returned by the image upload when a file was
    selected; the upload itself is outside the model. *)
Definition handleSubmit (uuid : nat → string) (now : Z)
    (editingItem : option EquipmentItem) (uploaded : option string)
    (formData : EquipmentForm) : M unit :=
  let imageUrl :=
    match uploaded with
    | Some url => Some url
    | None => match editingItem with
              | Some item => nonEmpty (eq_image_url item)
              | None => None
              end
    end in
  match editingItem with
  | Some item => update db_equipment (eq_id item) (applyEquipmentForm formData imageUrl now)
  | None =>
      match nonEmpty imageUrl with
      | None => throw Rejected
      | Some url =>
          add db_equipment
            {| eq_id := uuid O; eq_item_id := form_item_id formData;
               eq_name := form_name formData; eq_category := form_category formData;
               eq_image_url := Some url; eq_location := None;
               status := form_status formData;
               eq_condition_notes := nonEmpty (Some (form_condition_notes formData));
               eq_created_at := now; eq_updated_at := now |}
      end
  end.

(** ** At-risk pass: [checkAtRiskStudents] (the admin layout) *)

Record AtRiskStudent := {
  ar_student : Student;
  late_returns_count : nat;
  late_returns_since_suspension : nat;
  total_suspensions : nat;
  warning_threshold : nat;
  total_late_returns : nat
}.

Definition clearBlacklist (now : Z) (s : Student) : Student :=
  {| st_id := st_id s; st_student_id := st_student_id s;
     st_full_name := st_full_name s; st_year_group := st_year_group s;
     st_class_name := st_class_name s; st_house := st_house s;
     st_email := st_email s; st_avatar_url := st_avatar_url s;
     trust_score := trust_score s; is_blacklisted := false;
     blacklist_end_date := None; blacklist_reason := None;
     st_created_at := st_created_at s; st_updated_at := now |}.

Definition isExpired (now : Z) (s : Student) : bool :=
  match is_blacklisted s, blacklist_end_date s with
  | true, Some endDate => endDate <? now
  | _, _ => false
  end.

(** A student row after the lazy expiry of the pass. *)
Definition afterExpiry (now : Z) (s : Student) : Student :=
  if isExpired now s then clearBlacklist now s else s.

Definition expireOne (now : Z) (student : Student) : M unit :=
  if isExpired now student
  then update db_students (st_id student) (clearBlacklist now)
  else ret tt.

Definition returnedLate (l : Loan) : bool :=
  match returned_at l with
  | Some r => due_at l <? r
  | None => false
  end.

(** The comparator [(a, b) => time(b.end_date) - time(a.end_date)] places [a]
    before [b] when [b] ends no later than [a]. *)
Definition endsNoLater (a b : BlacklistEntry) : Prop := end_date b ≤ end_date a.

Global Instance endsNoLater_dec a b : Decision (endsNoLater a b).
Proof. unfold endsNoLater. apply _. Defined.

Definition inactiveSuspensions (allSuspensions : list BlacklistEntry) : list BlacklistEntry :=
  merge_sort endsNoLater (List.filter (λ e, negb (is_active e)) allSuspensions).

Definition lastSuspensionDate (allSuspensions : list BlacklistEntry) : Z :=
  match inactiveSuspensions allSuspensions with
  | lastSuspension :: _ => end_date lastSuspension
  | [] => 0
  end.

Definition lateSince (lastDate : Z) (l : Loan) : bool :=
  match returned_at l with
  | Some r => (due_at l <? r) && (lastDate <? r)
  | None => false
  end.

Definition lateReturnsSince (loansOfStudent : list Loan)
    (allSuspensions : list BlacklistEntry) : nat :=
  let returnedLoans := List.filter isReturned loansOfStudent in
  length (List.filter (lateSince (lastSuspensionDate allSuspensions)) returnedLoans).

Definition warningThreshold (suspensionCount : nat) : nat :=
  if (0 <? suspensionCount)%nat then 1%nat else 3%nat.

(** [lateReturns >= threshold] *)
Definition crossesThreshold (lateReturns threshold : nat) : bool :=
  (threshold <=? lateReturns)%nat.

(** The selections [where('student_id').equals(student.id)]. *)
Definition loanOf (studentId : string) (l : Loan) : bool :=
  eqs (student_id l) studentId.

Definition entryOf (studentId : string) (e : BlacklistEntry) : bool :=
  eqs (bl_student_id e) studentId.

(** What the pass computes for one student from the rows it has read. *)
Definition figures (student : Student) (loansOfStudent : list Loan)
    (allSuspensions : list BlacklistEntry) (suspensionCount : nat) : AtRiskStudent :=
  let returnedLoans := List.filter isReturned loansOfStudent in
  let totalLateReturns := length (List.filter returnedLate returnedLoans) in
  let lateReturns := lateReturnsSince loansOfStudent allSuspensions in
  {| ar_student := student;
     late_returns_count := lateReturns;
     late_returns_since_suspension := lateReturns;
     total_suspensions := suspensionCount;
     warning_threshold := warningThreshold suspensionCount;
     total_late_returns := totalLateReturns |}.

Definition assess (student : Student) : M AtRiskStudent :=
  let! loansOfStudent := whereToArray db_loans (loanOf (st_id student)) in
  let! allSuspensions := whereToArray db_blacklistEntries (entryOf (st_id student)) in
  let! suspensionCount := whereCount db_blacklistEntries (entryOf (st_id student)) in
  ret (figures student loansOfStudent allSuspensions suspensionCount).

(** The at-risk test of the pass: [lateReturnsSince >= warningThreshold]. *)
Definition atRisk (a : AtRiskStudent) : bool :=
  crossesThreshold (late_returns_since_suspension a) (warning_threshold a).

(** [dismissed id n] tells whether local storage holds an entry under
    [`dismissed_${id}_${n}`]; a student that passes the test is listed
    unless that entry exists. *)
Definition evaluateStudent (dismissed : string → nat → bool) (student : Student)
    : M (list AtRiskStudent) :=
  let! a := assess student in
  if atRisk a then
    if negb (dismissed (st_id student) (late_returns_since_suspension a))
    then ret [a]
    else ret []
  else ret [].

Fixpoint evaluateEach (dismissed : string → nat → bool) (studentList : list Student)
    : M (list AtRiskStudent) :=
  match studentList with
  | [] => ret []
  | student :: rest =>
      let! flagged := evaluateStudent dismissed student in
      let! others := evaluateEach dismissed rest in
      ret (flagged ++ others)
  end.

Definition checkAtRiskStudents (dismissed : string → nat → bool) (now : Z)
    : M (list AtRiskStudent) :=
  let! studentList := toArray db_students in
  do! forEach studentList (expireOne now) in
  evaluateEach dismissed studentList.

(** ** Reference definition of the trust score

    Written from the specification's words, over the loans table as a finite
    map rather than over its enumeration: the loans of the student with a
    non-null [returned_at]; 50.0 when there are none; otherwise
    [100 * (on-time / returned)] rounded to one decimal place. *)

Definition returnedOf (studentId : string) (s : Store) : gmap string Loan :=
  filter (λ kv, student_id kv.2 = studentId ∧ is_Some (returned_at kv.2)) (loans s).

Definition wasOnTime (l : Loan) : Prop :=
  match returned_at l with
  | Some r => r ≤ due_at l
  | None => False
  end.

Global Instance wasOnTime_dec l : Decision (wasOnTime l).
Proof. unfold wasOnTime. destruct (returned_at l); apply _. Defined.

Definition onTimeOf (studentId : string) (s : Store) : gmap string Loan :=
  filter (λ kv, wasOnTime kv.2) (returnedOf studentId s).

Definition roundOneDecimal (x : Q) : Q :=
  (inject_Z (Qfloor (x * (10 # 1) + (1 # 2))) / (10 # 1))%Q.

Definition computeTrustScore_ref (studentId : string) (s : Store) : Q :=
  if decide (size (returnedOf studentId s) = 0%nat) then (50 # 1)%Q
  else roundOneDecimal
         ((100 # 1) * (ofNat (size (onTimeOf studentId s))
                       / ofNat (size (returnedOf studentId s))))%Q.

(** ** Equipment and loan consistency *)

Definition isOpenFor (equipmentId : string) (l : Loan) : bool :=
  eqs (equipment_id l) equipmentId && negb (isReturned l).

(** Number of loans that reference the item and have [returned_at == null]. *)
Definition openLoans (equipmentId : string) (s : Store) : nat :=
  countWhere (isOpenFor equipmentId) (loans s).

(** The specification's invariant: an item is [borrowed] exactly when one
    open loan references it. *)
Definition consistent (s : Store) : Prop :=
  ∀ equipmentId e,
    equipment s !! equipmentId = Some e →
    status e = borrowed ↔ openLoans equipmentId s = 1%nat.

(** The inductive form: a borrowed item has one open loan, and nothing else
    (an item in another status, or an identifier without an item) has any. *)
Definition lent (equipmentId : string) (s : Store) : nat :=
  match equipment s !! equipmentId with
  | Some e => if decide (status e = borrowed) then 1%nat else 0%nat
  | None => 0%nat
  end.

Definition wellLent (s : Store) : Prop :=
  ∀ equipmentId, openLoans equipmentId s = lent equipmentId s.

(** An item on file that is not out on loan; the borrow screen only lets
    available items be ticked. *)
Definition isLendable (s : Store) (equipmentId : string) : Prop :=
  ∃ e, equipment s !! equipmentId = Some e ∧ status e ≠ borrowed.

(** One operation of the system, run with every store call accepted, under
    these guards: loans are created over a list that names no item twice and
    only items on file that are not borrowed; "mark returned" is used on a
    loan that is still open; the inventory form neither sets nor clears
    [borrowed]. *)
Inductive step : Store → Store → Prop :=
  | step_borrow zone uuid user started now student ids duration s :
      NoDup ids →
      Forall (isLendable s) ids →
      step s (exec (handleConfirm zone uuid user started now (Some student) ids
                      duration) s)
  | step_return now studentId loanId s :
      (∀ l, loans s !! loanId = Some l → returned_at l = None) →
      step s (exec (handleMarkReturned now studentId (Some loanId)) s)
  | step_delete_loan now studentId loanId s :
      step s (exec (handleDeleteLoan now studentId (Some loanId)) s)
  | step_new_item uuid now uploaded form s :
      form_status form ≠ borrowed →
      step s (exec (handleSubmit uuid now None uploaded form) s)
  | step_edit_item uuid now item uploaded form s :
      (∀ e, equipment s !! eq_id item = Some e →
            status e = borrowed ↔ form_status form = borrowed) →
      step s (exec (handleSubmit uuid now (Some item) uploaded form) s)
  | step_new_student uuid now form s :
      step s (exec (handleManualSubmit uuid now form) s)
  | step_import uuid now data s :
      step s (exec (handleFileImport uuid now data) s)
  | step_blacklist uuid now selectedStudent form s :
      step s (exec (handleBlacklistSubmit uuid now selectedStudent form) s)
  | step_at_risk dismissed now s :
      step s (exec (checkAtRiskStudents dismissed now) s).

(** What the handlers of the student pages leave alone. *)
Definition lendingKept (s s' : Store) : Prop :=
  loans s' = loans s ∧ equipment s' = equipment s.

Definition unchanged (s s' : Store) : Prop := s' = s.

Definition studentsOnly (s s' : Store) : Prop :=
  loans s' = loans s ∧ equipment s' = equipment s
  ∧ blacklistEntries s' = blacklistEntries s.

(** The student rows after the expiry loop has visited one more student. *)
Definition expireRow (now : Z) (mc : gmap string Student) (st : Student)
    : gmap string Student :=
  if isExpired now st then alter (clearBlacklist now) (st_id st) mc else mc.

(** Each row of [mc] is the row of [m] or, if that one is expired, the row
    of [m] cleared. *)
Definition touched (now : Z) (m mc : gmap string Student) : Prop :=
  ∀ k, mc !! k = m !! k
       ∨ ∃ st, m !! k = Some st ∧ isExpired now st = true
               ∧ mc !! k = Some (clearBlacklist now st).

(** What the pass lists for one student on a given store. *)
Definition verdict (dismissed : string → nat → bool) (s : Store) (student : Student)
    : list AtRiskStudent :=
  let a := figures student
             (List.filter (loanOf (st_id student)) (values (loans s)))
             (List.filter (entryOf (st_id student)) (values (blacklistEntries s)))
             (countWhere (entryOf (st_id student)) (blacklistEntries s)) in
  if atRisk a && negb (dismissed (st_id student) (late_returns_since_suspension a))
  then [a] else [].

(** Rows are stored under their own [id] (the tables' inbound primary key). *)
Definition keyed {R} (t : Table R) (s : Store) : Prop :=
  map_Forall (λ k r, key t r = k) (rows t s).

(** ** Suspension entries *)

Definition isActiveFor (studentId : string) (e : BlacklistEntry) : bool :=
  eqs (bl_student_id e) studentId && is_active e.

Definition activeEntries (studentId : string) (s : Store) : nat :=
  countWhere (isActiveFor studentId) (blacklistEntries s).

(** ** Reference definition of the at-risk test

    Written from the specification's words, over the tables as finite maps. *)

Definition suspensionsOf (studentId : string) (s : Store) : gmap string BlacklistEntry :=
  filter (λ kv, bl_student_id kv.2 = studentId) (blacklistEntries s).

Definition closedSuspensionsOf (studentId : string) (s : Store)
    : gmap string BlacklistEntry :=
  filter (λ kv, is_active kv.2 = false) (suspensionsOf studentId s).

(** [cutoff] is the end date of the most recent closed suspension of the
    student, or the epoch when there is none. *)
Definition isCutoff (studentId : string) (s : Store) (cutoff : Z) : Prop :=
  (closedSuspensionsOf studentId s = ∅ ∧ cutoff = 0)
  ∨ (∃ k e, closedSuspensionsOf studentId s !! k = Some e
            ∧ end_date e = cutoff
            ∧ ∀ k' e', closedSuspensionsOf studentId s !! k' = Some e' →
                       end_date e' ≤ cutoff).

Definition lateAfter (cutoff : Z) (l : Loan) : Prop :=
  match returned_at l with
  | Some r => due_at l < r ∧ cutoff < r
  | None => False
  end.

Global Instance lateAfter_dec cutoff l : Decision (lateAfter cutoff l).
Proof. unfold lateAfter. destruct (returned_at l); apply _. Defined.

Definition lateReturnsSince_ref (studentId : string) (s : Store) (cutoff : Z) : nat :=
  size (filter (λ kv, student_id kv.2 = studentId ∧ lateAfter cutoff kv.2) (loans s)).

Definition warningThreshold_ref (studentId : string) (s : Store) : nat :=
  if decide (suspensionsOf studentId s = ∅) then 3%nat else 1%nat.

(** ** Example stores *)

Definition mkLoan (id studentId equipmentId : string) (due : Z) (back : option Z) : Loan :=
  {| ln_id := id; student_id := studentId; equipment_id := equipmentId;
     borrowed_by_user_id := None; borrowed_at := 0; due_at := due;
     returned_at := back; is_overdue := false;
     ln_status := match back with Some _ => returned | None => active end;
     ln_created_at := 0 |}.

Definition threeReturns : Store :=
  {| students := ∅; equipment := ∅;
     loans := <["l1" := mkLoan "l1" "s1" "e1" 10 (Some 5)]>
              (<["l2" := mkLoan "l2" "s1" "e2" 10 (Some 10)]>
              (<["l3" := mkLoan "l3" "s1" "e3" 10 (Some 11)]> ∅));
     blacklistEntries := ∅ |}.


Definition ballForm (st : EquipmentStatus) : EquipmentForm :=
  {| form_item_id := "BB-01"; form_name := "Basketball";
     form_category := "Basketball"; form_status := st;
     form_condition_notes := "" |}.

Definition pupil (id : string) (score : Q) : Student :=
  {| st_id := id; st_student_id := "STU000001"; st_full_name := "Alex";
     st_year_group := "Year 7"; st_class_name := Some "7B"; st_house := None;
     st_email := None; st_avatar_url := None; trust_score := score;
     is_blacklisted := false; blacklist_end_date := None;
     blacklist_reason := None; st_created_at := 0; st_updated_at := 0 |}.

(** An inventory with one available ball, then the ball lent to a pupil. *)
Definition oneBall : Store :=
  exec (handleSubmit (λ _, "e1") 0 None (Some "ball.png") (ballForm available))
       emptyStore.

Definition ballLent : Store :=
  exec (handleConfirm utcZone (λ _, "l1") None 1000 1000
          (Some (pupil "s1" (100 # 1))) ["e1"] 60)
       oneBall.

Definition twoBalls : Store :=
  exec (handleSubmit (λ _, "e2") 0 None (Some "ball.png") (ballForm available))
       oneBall.

(** [loadStudents] fills a page's student list from the store, when the
    page opens and after each save of that page; [listedRow id s] is the row
    the list holds for [id] when it was loaded from [s].  Nothing reloads the
    list when another screen writes the store, so a row of the list can be
    older than the stored row. *)
Definition listedRow (id : string) (s : Store) : option Student :=
  students s !! id.

(** [openBlacklistModal(student)]: the dialog keeps the list row it was
    opened on. *)
Definition openBlacklistModal (student : Student) : option Student :=
  Some student.

(** Saving the suspension dialog opened on the row of a list that was loaded
    from [s] itself. *)
Definition suspend (uuid : nat → string) (now : Z) (id : string)
    (form : BlacklistForm) (s : Store) : Store :=
  match listedRow id s with
  | Some student => exec (handleBlacklistSubmit uuid now (openBlacklistModal student) form) s
  | None => s
  end.

Definition suspension (until : Z) (why : string) : BlacklistForm :=
  {| form_is_blacklisted := true; form_end_date := Some until; form_reason := why |}.

Definition enrolled : Store :=
  exec (handleManualSubmit (λ _, "s1") 0
          {| mf_full_name := "Alex"; mf_class_name := "7B" |}) emptyStore.

Definition suspendedOnce : Store :=
  suspend (λ _, "b1") 1000 "s1" (suspension 5000 "late returns") enrolled.

Definition suspendedTwice : Store :=
  suspend (λ _, "b2") 2000 "s1" (suspension 5000 "late returns, again") suspendedOnce.

Definition lapsed : Store :=
  exec (checkAtRiskStudents (λ _ _, false) 6000) suspendedOnce.

Definition suspendedAfterLapse : Store :=
  suspend (λ _, "b2") 7000 "s1" (suspension 9000 "damaged a net") lapsed.

(** A pupil entered by hand who then borrows the one ball. *)
Definition borrower : Store :=
  exec (handleConfirm utcZone (λ _, "l1") None 1000 1000 (listedRow "s1" enrolled)
          ["e1"] 60)
       (exec (handleSubmit (λ _, "e1") 0 None (Some "ball.png") (ballForm available))
             enrolled).

Definition lateLoan (id studentId : string) (due back : Z) : Loan :=
  mkLoan id studentId "e1" due (Some back).

Definition closedEntry (id studentId : string) (ended : Z) : BlacklistEntry :=
  {| bl_id := id; bl_student_id := studentId; blacklisted_by_user_id := None;
     start_date := 0; end_date := ended; reason := "late returns";
     is_active := false; bl_created_at := 0 |}.

Definition twoLate : Store :=
  {| students := {["s1" := pupil "s1" (100 # 1)]}; equipment := ∅;
     loans := <["l1" := lateLoan "l1" "s1" 10 11]>
              (<["l2" := lateLoan "l2" "s1" 20 25]> ∅);
     blacklistEntries := ∅ |}.

Definition threeLate : Store :=
  {| students := {["s1" := pupil "s1" (100 # 1)]}; equipment := ∅;
     loans := <["l3" := lateLoan "l3" "s1" 30 31]> (loans twoLate);
     blacklistEntries := ∅ |}.

(** Two late returns before a suspension that ended at 100, one after. *)
Definition repeatOffender : Store :=
  {| students := {["s1" := pupil "s1" (100 # 1)]}; equipment := ∅;
     loans := <["l3" := lateLoan "l3" "s1" 150 160]> (loans twoLate);
     blacklistEntries := {["b1" := closedEntry "b1" "s1" 100]} |}.

Definition listedIds (out : error + list AtRiskStudent) : list string :=
  match out with
  | inr l => (λ a, st_id (ar_student a)) <$> l
  | inl _ => []
  end.

(** * Further handlers *)

(** ** Loan status and stored score (src/lib/db.ts) *)

(** The derived fields of a loan: [isOverdue = !returned_at && due_at < now]
    and [status = returned_at ? 'returned' : isOverdue ? 'overdue' : 'active']. *)
Definition overdueAt (now : Z) (closed : bool) (due : Z) : bool :=
  negb closed && (due <? now).

Definition statusFor (closed isOverdue : bool) : LoanStatus :=
  if closed then returned else if isOverdue then overdue else active.

Definition setDerived (isOverdue : bool) (st : LoanStatus) (l : Loan) : Loan :=
  {| ln_id := ln_id l; student_id := student_id l; equipment_id := equipment_id l;
     borrowed_by_user_id := borrowed_by_user_id l; borrowed_at := borrowed_at l;
     due_at := due_at l; returned_at := returned_at l; is_overdue := isOverdue;
     ln_status := st; ln_created_at := ln_created_at l |}.

Definition updateLoanStatus (now : Z) (loanId : string) : M unit :=
  let! loan := get db_loans loanId in
  match loan with
  | None => ret tt
  | Some l =>
      let isOverdue := overdueAt now (isReturned l) (due_at l) in
      update db_loans loanId (setDerived isOverdue (statusFor (isReturned l) isOverdue))
  end.

Definition updateStudentTrustScore (now : Z) (studentId : string) : M unit :=
  let! trustScore := calculateTrustScore studentId in
  update db_students studentId (setTrustScore trustScore now).

(** ** Editing a due date (components/StudentProfileModal.tsx) *)

(** A row of the loan sheet, as [loadStudentData] builds it. *)
Record LoanActivity := {
  la_id : string;
  equipment_name : string;
  equipment_id_display : string;
  la_borrowed_at : Z;
  la_due_at : Z;
  la_returned_at : option Z;
  la_status : LoanStatus;
  la_is_overdue : bool
}.

Definition setDueDate (due : Z) (isOverdue : bool) (st : LoanStatus) (l : Loan) : Loan :=
  {| ln_id := ln_id l; student_id := student_id l; equipment_id := equipment_id l;
     borrowed_by_user_id := borrowed_by_user_id l; borrowed_at := borrowed_at l;
     due_at := due; returned_at := returned_at l; is_overdue := isOverdue;
     ln_status := st; ln_created_at := ln_created_at l |}.

Definition isSome {A} (o : option A) : bool :=
  match o with Some _ => true | None => false end.

(** [editDueAt] is the date field of the sheet; [None] when it does not
    parse as a date. *)
Definition handleEditLoan (now : Z) (studentId : string)
    (selectedLoan : option LoanActivity) (editDueAt : option Z) : M unit :=
  match selectedLoan with
  | None => ret tt
  | Some sel =>
      let! newDueAt := toISOString editDueAt in
      let closed := isSome (la_returned_at sel) in
      let isOverdue := overdueAt now closed newDueAt in
      do! update db_loans (la_id sel)
            (setDueDate newDueAt isOverdue (statusFor closed isOverdue)) in
      let! newTrustScore := calculateTrustScore studentId in
      update db_students studentId (setTrustScore newTrustScore now)
  end.

(** ** Deleting students and items *)

(** [table.where(..).equals(..).delete()] *)
Definition whereDelete {R} (t : Table R) (p : R → bool) : M unit :=
  write (λ s, with_rows t (filter (λ kv, p kv.2 = false) (rows t s)) s).

Definition removeStudent (studentId : string) : M unit :=
  do! delete db_students studentId in
  whereDelete db_blacklistEntries (entryOf studentId).

(** [confirmed] is the answer to the [confirm(..)] dialog. *)
Definition handleDeleteStudent (confirmed : bool) (studentId : string) : M unit :=
  if negb confirmed then ret tt
  else transaction (removeStudent studentId).

(** The callbacks handed to [Promise.all] only issue deletes, inside one
    transaction; they are run here in the order of the selection. *)
Definition handleBulkDelete (selectedStudents : list string) : M unit :=
  match selectedStudents with
  | [] => ret tt
  | _ => transaction (forEach selectedStudents removeStudent)
  end.

(** [handleDelete] of the inventory page. *)
Definition handleDelete (confirmed : bool) (id : string) : M unit :=
  if negb confirmed then ret tt
  else delete db_equipment id.

(** The derived fields of a loan agree with its dates at time [now]. *)
Definition statusCurrent (now : Z) (l : Loan) : Prop :=
  (ln_status l = returned ↔ is_Some (returned_at l))
  ∧ (ln_status l = overdue ↔ returned_at l = None ∧ due_at l < now)
  ∧ (is_overdue l = true ↔ returned_at l = None ∧ due_at l < now).

Definition sameLoanFacts (l l' : Loan) : Prop :=
  ln_id l' = ln_id l ∧ student_id l' = student_id l
  ∧ equipment_id l' = equipment_id l ∧ borrowed_at l' = borrowed_at l
  ∧ returned_at l' = returned_at l.

Definition inBounds (q : Q) : Prop := (0 <= q)%Q ∧ (q <= 100 # 1)%Q.

(** ** The borrow flow as a state machine (pages/captain/CaptainLayout.tsx) *)

Inductive Step := stepEquipment | stepStudent | stepConfirm.

Global Instance Step_eq_dec : EqDecision Step.
Proof. solve_decision. Defined.

Record BorrowFlow := {
  flowStep : Step;
  searchQuery : string;
  selectedStudent : option Student;
  selectedEquipment : list string;
  showBlacklistModal : bool;
  selectedDuration : Z
}.

Definition MIN_DURATION : Z := 5.
Definition MAX_DURATION : Z := 480.
Definition DEFAULT_DURATION : Z := 60.

Definition initialFlow : BorrowFlow :=
  {| flowStep := stepEquipment; searchQuery := ""; selectedStudent := None;
     selectedEquipment := []; showBlacklistModal := false;
     selectedDuration := DEFAULT_DURATION |}.

(** [prev.includes(id)] *)
Definition includes (prev : list string) (id : string) : bool :=
  bool_decide (id ∈ prev).

(** The state update of [toggleEquipmentSelect]. *)
Definition toggled (itemId : string) (prev : list string) : list string :=
  if includes prev itemId
  then List.filter (λ id, negb (eqs id itemId)) prev
  else prev ++ [itemId].

Definition toggleEquipmentSelect (itemId : string) (st : EquipmentStatus)
    (f : BorrowFlow) : BorrowFlow :=
  if decide (st = available) then
    {| flowStep := flowStep f; searchQuery := searchQuery f;
       selectedStudent := selectedStudent f;
       selectedEquipment := toggled itemId (selectedEquipment f);
       showBlacklistModal := showBlacklistModal f;
       selectedDuration := selectedDuration f |}
  else f.

Definition handleStudentSelect (student : Student) (f : BorrowFlow) : BorrowFlow :=
  if is_blacklisted student then
    {| flowStep := flowStep f; searchQuery := searchQuery f;
       selectedStudent := Some student;
       selectedEquipment := selectedEquipment f;
       showBlacklistModal := true;
       selectedDuration := selectedDuration f |}
  else
    {| flowStep := stepConfirm; searchQuery := "";
       selectedStudent := Some student;
       selectedEquipment := selectedEquipment f;
       showBlacklistModal := showBlacklistModal f;
       selectedDuration := selectedDuration f |}.

Definition setStep (to : Step) (f : BorrowFlow) : BorrowFlow :=
  {| flowStep := to; searchQuery := searchQuery f;
     selectedStudent := selectedStudent f;
     selectedEquipment := selectedEquipment f;
     showBlacklistModal := showBlacklistModal f;
     selectedDuration := selectedDuration f |}.

Definition setSearchQuery (q : string) (f : BorrowFlow) : BorrowFlow :=
  {| flowStep := flowStep f; searchQuery := q;
     selectedStudent := selectedStudent f;
     selectedEquipment := selectedEquipment f;
     showBlacklistModal := showBlacklistModal f;
     selectedDuration := selectedDuration f |}.

Definition setShowBlacklistModal (b : bool) (f : BorrowFlow) : BorrowFlow :=
  {| flowStep := flowStep f; searchQuery := searchQuery f;
     selectedStudent := selectedStudent f;
     selectedEquipment := selectedEquipment f;
     showBlacklistModal := b;
     selectedDuration := selectedDuration f |}.

Definition setSelectedDuration (d : Z) (f : BorrowFlow) : BorrowFlow :=
  {| flowStep := flowStep f; searchQuery := searchQuery f;
     selectedStudent := selectedStudent f;
     selectedEquipment := selectedEquipment f;
     showBlacklistModal := showBlacklistModal f;
     selectedDuration := d |}.

(** The controls the flow renders in each step, with the handler each one
    fires.  Items and students are whatever the rendered lists hold. *)
Inductive click : BorrowFlow → BorrowFlow → Prop :=
  | click_item itemId st f :
      flowStep f = stepEquipment →
      click f (toggleEquipmentSelect itemId st f)
  | click_checkout f :
      flowStep f = stepEquipment → selectedEquipment f ≠ [] →
      click f (setStep stepStudent (setSearchQuery "" f))
  | click_search q f :
      flowStep f ≠ stepConfirm →
      click f (setSearchQuery q f)
  | click_back_to_equipment f :
      flowStep f = stepStudent →
      click f (setStep stepEquipment f)
  | click_select student f :
      flowStep f = stepStudent →
      click f (handleStudentSelect student f)
  | click_close_modal f :
      flowStep f = stepStudent →
      click f (setShowBlacklistModal false f)
  | click_back_to_student f :
      flowStep f = stepConfirm →
      click f (setStep stepStudent f)
  | click_slider d f :
      flowStep f = stepConfirm → MIN_DURATION ≤ d ≤ MAX_DURATION →
      click f (setSelectedDuration d f).

(** What the "Confirm Handover" button runs, in the confirm step. *)
Definition confirmHandover (LocalTZA : Z → bool → Z) (uuid : nat → string)
    (user : option string) (started now : Z) (f : BorrowFlow) : M unit :=
  handleConfirm LocalTZA uuid user started now (selectedStudent f)
    (selectedEquipment f) (selectedDuration f).

Definition flowReady (f : BorrowFlow) : Prop :=
  NoDup (selectedEquipment f)
  ∧ (flowStep f ≠ stepEquipment → selectedEquipment f ≠ [])
  ∧ (flowStep f = stepConfirm →
     ∃ student, selectedStudent f = Some student ∧ is_blacklisted student = false)
  ∧ MIN_DURATION ≤ selectedDuration f ≤ MAX_DURATION.

(** The identifiers drawn for a selection of [n] items are free and
    pairwise distinct. *)
Definition freshIds (uuid : nat → string) (n : nat) (s : Store) : Prop :=
  (∀ j, (j < n)%nat → loans s !! uuid j = None)
  ∧ (∀ j j', (j < n)%nat → (j' < n)%nat → uuid j = uuid j' → j = j').

Definition numbered (i : nat) : string := String.append "l" (pretty i).

(** ** Settings page (pages/admin/AdminSettings.tsx) *)

(** [table.clear()] *)
Definition clear {R} (t : Table R) : M unit :=
  write (λ s, with_rows t ∅ s).

(** [await Promise.all(xs.map(x => body(x)))]: every call is issued, also
    after one has been rejected; the first rejection is the one reported. *)
Fixpoint promiseAll {A} (xs : list A) (body : A → M unit) : M unit :=
  match xs with
  | [] => ret tt
  | x :: rest =>
      λ c, match body x c with
           | (c', inr _) => promiseAll rest body c'
           | (c', inl e) => (fst (promiseAll rest body c'), inl e)
           end
  end.

Definition setCategory (category : string) (now : Z) (e : EquipmentItem)
    : EquipmentItem :=
  {| eq_id := eq_id e; eq_item_id := eq_item_id e; eq_name := eq_name e;
     eq_category := category; eq_image_url := eq_image_url e;
     eq_location := eq_location e; status := status e;
     eq_condition_notes := eq_condition_notes e;
     eq_created_at := eq_created_at e; eq_updated_at := now |}.

Section Settings.
(** [String.prototype.trim] *)
Variable String_trim : string → string.

Definition handleRenameCategory (now : Z) (oldName newName : string) : M unit :=
  if eqs (String_trim newName) "" || eqs oldName newName then ret tt
  else
    let! equipment := whereToArray db_equipment (λ e, eqs (eq_category e) oldName) in
    promiseAll equipment
      (λ item, update db_equipment (eq_id item) (setCategory (String_trim newName) now)).
End Settings.

(** [handleClearCache], which runs first, empties local storage and the
    caches, both outside the store, and asks for a page reload; a reload that
    cuts the handler short leaves the store as a rejected call does. *)
Definition handleClearAllData (confirmDelete : bool) : M unit :=
  if negb confirmDelete then ret tt
  else
    do! clear db_loans in
    do! clear db_equipment in
    clear db_students.

(** ** Invariants of the whole store *)

(** [preserves I]: a store with [I] is taken to a store with [I]. *)
Definition preserves (I : Store → Prop) (s s' : Store) : Prop := I s → I s'.

(** [outcome m s s']: [s'] is a store that [m] can leave behind when started
    on [s], whichever calls the store accepts or rejects. *)
Definition outcome {A} (m : M A) (s s' : Store) : Prop :=
  ∃ b c r, m {| store := s; budget := b |} = (c, r) ∧ store c = s'.

(** One handler invocation, with any arguments.  [dialogRow] restricts the
    student row a suspension dialog may have been opened on, and [sheetOk]
    the rows of the loan sheet an edit may have been opened on. *)
Inductive invocation (dialogRow : Student → Prop)
    (sheetOk : Store → LoanActivity → Prop) : Store → Store → Prop :=
  | inv_confirm zone uuid user started now sel ids duration s s' :
      outcome (handleConfirm zone uuid user started now sel ids duration) s s' →
      invocation dialogRow sheetOk s s'
  | inv_return now studentId sel s s' :
      outcome (handleMarkReturned now studentId sel) s s' →
      invocation dialogRow sheetOk s s'
  | inv_delete_loan now studentId sel s s' :
      outcome (handleDeleteLoan now studentId sel) s s' →
      invocation dialogRow sheetOk s s'
  | inv_edit_loan now studentId sel due s s' :
      sheetOk s sel →
      outcome (handleEditLoan now studentId (Some sel) due) s s' →
      invocation dialogRow sheetOk s s'
  | inv_refresh now loanId s s' :
      outcome (updateLoanStatus now loanId) s s' →
      invocation dialogRow sheetOk s s'
  | inv_rescore now studentId s s' :
      outcome (updateStudentTrustScore now studentId) s s' →
      invocation dialogRow sheetOk s s'
  | inv_new_student uuid now form s s' :
      outcome (handleManualSubmit uuid now form) s s' →
      invocation dialogRow sheetOk s s'
  | inv_import uuid now data s s' :
      outcome (handleFileImport uuid now data) s s' →
      invocation dialogRow sheetOk s s'
  | inv_blacklist uuid now sel form s s' :
      dialogRow sel →
      outcome (handleBlacklistSubmit uuid now (Some sel) form) s s' →
      invocation dialogRow sheetOk s s'
  | inv_delete_student confirmed studentId s s' :
      outcome (handleDeleteStudent confirmed studentId) s s' →
      invocation dialogRow sheetOk s s'
  | inv_bulk_delete ids s s' :
      outcome (handleBulkDelete ids) s s' →
      invocation dialogRow sheetOk s s'
  | inv_item uuid now editingItem uploaded form s s' :
      outcome (handleSubmit uuid now editingItem uploaded form) s s' →
      invocation dialogRow sheetOk s s'
  | inv_delete_item confirmed id s s' :
      outcome (handleDelete confirmed id) s s' →
      invocation dialogRow sheetOk s s'
  | inv_at_risk dismissed now s s' :
      outcome (checkAtRiskStudents dismissed now) s s' →
      invocation dialogRow sheetOk s s'
  | inv_rename String_trim now oldName newName s s' :
      outcome (handleRenameCategory String_trim now oldName newName) s s' →
      invocation dialogRow sheetOk s s'
  | inv_clear_all confirmDelete s s' :
      outcome (handleClearAllData confirmDelete) s s' →
      invocation dialogRow sheetOk s s'.

(** Every stored trust score lies between 0 and 100. *)
Definition scoresBounded (s : Store) : Prop :=
  map_Forall (λ _ st, inBounds (trust_score st)) (students s).

(** Every table stores its rows under their own [id]. *)
Definition keyedAll (s : Store) : Prop :=
  keyed db_students s ∧ keyed db_equipment s
  ∧ keyed db_loans s ∧ keyed db_blacklistEntries s.

(** A loan is marked returned exactly when it has a return date, and an
    overdue flag is only ever set on an open loan. *)
Definition statusSound (l : Loan) : Prop :=
  (ln_status l = returned ↔ is_Some (returned_at l))
  ∧ (is_overdue l = true → returned_at l = None)
  ∧ (ln_status l = overdue → is_overdue l = true).

Definition loansSound (s : Store) : Prop :=
  map_Forall (λ _ l, statusSound l) (loans s).

Definition sheetAgrees (s : Store) (sel : LoanActivity) : Prop :=
  ∀ l, loans s !! la_id sel = Some l → la_returned_at sel = returned_at l.

(** ** The CSV line parser of [handleFileImport]

    A JavaScript string is the list of its UTF-16 code units, which is what
    [line[i]] indexes. *)

Definition quote : N := 34.
Definition comma : N := 44.

(** The code units [String.prototype.trim] strips: white space and line
    terminators. *)
Definition isWhiteSpace (c : N) : bool :=
  ((c =? 9) || (c =? 10) || (c =? 11) || (c =? 12) || (c =? 13) || (c =? 32)
   || (c =? 160) || (c =? 5760) || ((8192 <=? c) && (c <=? 8202))
   || (c =? 8232) || (c =? 8233) || (c =? 8239) || (c =? 8287)
   || (c =? 12288) || (c =? 65279))%N.

Fixpoint trimStart (s : list N) : list N :=
  match s with
  | c :: rest => if isWhiteSpace c then trimStart rest else s
  | [] => []
  end.

Definition trimEnd (s : list N) : list N := rev (trimStart (rev s)).

Definition trim (s : list N) : list N := trimEnd (trimStart s).

(** The loop of [parseCSVLine] from position [i] on: [line] is what is left
    of the line, [current] and [result] are the loop's variables. *)
Fixpoint parseFrom (line : list N) (inQuotes : bool) (current : list N)
    (result : list (list N)) : list (list N) :=
  match line with
  | [] => result ++ [trim current]
  | char :: rest =>
      if (char =? quote)%N then
        match rest with
        | nextChar :: rest' =>
            if inQuotes && (nextChar =? quote)%N
            then parseFrom rest' inQuotes (current ++ [quote]) result
            else parseFrom rest (negb inQuotes) current result
        | [] => parseFrom rest (negb inQuotes) current result
        end
      else if (char =? comma)%N && negb inQuotes
      then parseFrom rest inQuotes [] (result ++ [trim current])
      else parseFrom rest inQuotes (current ++ [char]) result
  end.

Definition parseCSVLine (line : list N) : list (list N) :=
  parseFrom line false [] [].

(** [line.split(',')] *)
Fixpoint splitOn (sep : N) (line : list N) : list (list N) :=
  match line with
  | [] => [[]]
  | c :: rest =>
      if (c =? sep)%N then [] :: splitOn sep rest
      else match splitOn sep rest with
           | field :: fields => (c :: field) :: fields
           | [] => [[c]]
           end
  end.

(** How a CSV writer quotes a field: wrapped in quotes, with every quote
    inside doubled. *)
Fixpoint doubled (field : list N) : list N :=
  match field with
  | [] => []
  | c :: rest => if (c =? quote)%N then quote :: quote :: doubled rest
                 else c :: doubled rest
  end.

Definition quoted (field : list N) : list N :=
  quote :: doubled field ++ [quote].

Fixpoint csvLine (fields : list (list N)) : list N :=
  match fields with
  | [] => []
  | [field] => quoted field
  | field :: rest => quoted field ++ comma :: csvLine rest
  end.

(** The code units of an ASCII text. *)
Definition codes (s : string) : list N :=
  (λ a, Ascii.N_of_ascii a) <$> String.list_ascii_of_string s.

(** ** The profile sheet: [loadStudentData] (components/StudentProfileModal.tsx) *)

Record Stats := {
  totalBorrowed : nat;
  activeLoans : nat;
  overdueCount : nat;
  trustScore : Q
}.

(** [Array.prototype.sort(compare)] is stable: an element stays before the
    later ones it does not compare greater than.  [le a b] is
    [compare(a, b) <= 0]. *)
Fixpoint insertBy {A} (le : A → A → bool) (x : A) (sorted : list A) : list A :=
  match sorted with
  | [] => [x]
  | y :: rest => if le x y then x :: sorted else y :: insertBy le x rest
  end.

Definition sortBy {A} (le : A → A → bool) (xs : list A) : list A :=
  foldr (insertBy le) [] xs.

(** [(a, b) => new Date(b.borrowed_at).getTime() - new Date(a.borrowed_at).getTime()] *)
Definition mostRecentFirst (a b : Loan) : bool := borrowed_at b <=? borrowed_at a.

Definition activityRow (loan : Loan) (item : option EquipmentItem) : LoanActivity :=
  {| la_id := ln_id loan;
     equipment_name := match item with
                       | Some e => orElse (eq_name e) "Unknown"
                       | None => "Unknown"
                       end;
     equipment_id_display := match item with
                             | Some e => eq_item_id e
                             | None => ""
                             end;
     la_borrowed_at := borrowed_at loan; la_due_at := due_at loan;
     la_returned_at := returned_at loan; la_status := ln_status loan;
     la_is_overdue := is_overdue loan |}.

(** [Promise.all(recentLoans.map(async loan => ...))] *)
Fixpoint activityOf (recentLoans : list Loan) : M (list LoanActivity) :=
  match recentLoans with
  | [] => ret []
  | loan :: rest =>
      let! item := get db_equipment (equipment_id loan) in
      let! others := activityOf rest in
      ret (activityRow loan item :: others)
  end.

Definition isActive (l : Loan) : bool := bool_decide (ln_status l = active).

(** Returned late, or still out and flagged overdue. *)
Definition countsAsOverdue (l : Loan) : bool :=
  match returned_at l with
  | Some r => due_at l <? r
  | None => is_overdue l || bool_decide (ln_status l = overdue)
  end.

(** [student.trust_score || 50] *)
Definition shownTrustScore (student : Student) : Q :=
  if Qeq_bool (trust_score student) 0 then (50 # 1)%Q else trust_score student.

(** The result is what the sheet's state is set to; [None] when the sheet
    has no student and nothing is loaded. *)
Definition loadStudentData (student : option Student)
    : M (option (Stats * list LoanActivity)) :=
  match student with
  | None => ret None
  | Some student =>
      if eqs (st_id student) "" then ret None
      else
        let! loans := whereToArray db_loans (λ l, eqs (student_id l) (st_id student)) in
        let loans := sortBy mostRecentFirst loans in
        let recentLoans := take 10 loans in
        let! activity := activityOf recentLoans in
        ret (Some ({| totalBorrowed := length loans;
                      activeLoans := length (List.filter isActive loans);
                      overdueCount := length (List.filter countsAsOverdue loans);
                      trustScore := shownTrustScore student |},
                   activity))
  end.

(** ** Loan history of an item: [handleViewHistory] (pages/admin/AdminInventory.tsx) *)

Record LoanWithStudent := {
  lh_loan : Loan;
  student_name : string;
  student_class : option string
}.

Definition historyRow (loan : Loan) (student : option Student) : LoanWithStudent :=
  {| lh_loan := loan;
     student_name := match student with
                     | Some st => orElse (st_full_name st) "Unknown Student"
                     | None => "Unknown Student"
                     end;
     student_class := match student with
                      | Some st => nonEmpty (st_class_name st)
                      | None => None
                      end |}.

Fixpoint historyOf (loans : list Loan) : M (list LoanWithStudent) :=
  match loans with
  | [] => ret []
  | loan :: rest =>
      let! student := get db_students (student_id loan) in
      let! others := historyOf rest in
      ret (historyRow loan student :: others)
  end.

Definition handleViewHistory (item : EquipmentItem) : M (list LoanWithStudent) :=
  let! loans := whereToArray db_loans (λ l, eqs (equipment_id l) (eq_id item)) in
  historyOf (sortBy mostRecentFirst loans).

(** ** List filters of the inventory and student pages

    [toLowerCase] is the string method of that name. *)

Fixpoint String_includes (s sub : string) : bool :=
  String.prefix sub s
  || match s with
     | String _ rest => String_includes rest sub
     | EmptyString => false
     end.

(** The pills of [statusOptions], the only values [statusFilter] takes. *)
Inductive StatusFilter :=
  All | Available | Borrowed | Reserved | LostOrDamaged.

(** The pills of the student page. *)
Inductive StudentFilter := AllStudents | Overdue | Suspended.

Definition hasStatus (st : EquipmentStatus) (item : EquipmentItem) : bool :=
  bool_decide (status item = st).

Section Search.
Variable toLowerCase : string → string.

Definition itemMatches (searchQuery : string) (item : EquipmentItem) : bool :=
  String_includes (toLowerCase (eq_name item)) (toLowerCase searchQuery)
  || String_includes (toLowerCase (eq_item_id item)) (toLowerCase searchQuery).

Definition filterItems (searchQuery : string) (statusFilter : StatusFilter)
    (items : list EquipmentItem) : list EquipmentItem :=
  let filtered :=
    if eqs searchQuery "" then items
    else List.filter (itemMatches searchQuery) items in
  match statusFilter with
  | All => filtered
  | LostOrDamaged =>
      List.filter (λ item, hasStatus lost item || hasStatus damaged item
                           || hasStatus repair item) filtered
  | Available => List.filter (hasStatus available) filtered
  | Borrowed => List.filter (hasStatus borrowed) filtered
  | Reserved => List.filter (hasStatus reserved) filtered
  end.

Definition studentMatches (searchQuery : string) (student : Student) : bool :=
  String_includes (toLowerCase (st_full_name student)) (toLowerCase searchQuery)
  || match st_class_name student with
     | Some c => String_includes (toLowerCase c) (toLowerCase searchQuery)
     | None => false
     end.

Definition filterStudents (searchQuery : string) (studentFilter : StudentFilter)
    (overdueStudents : gset string) (studentList : list Student) : list Student :=
  let filtered :=
    if eqs searchQuery "" then studentList
    else List.filter (studentMatches searchQuery) studentList in
  match studentFilter with
  | Overdue => List.filter (λ student, bool_decide (st_id student ∈ overdueStudents)) filtered
  | Suspended => List.filter is_blacklisted filtered
  | AllStudents => filtered
  end.
End Search.

Definition openAndDue (now : Z) (loan : Loan) : bool :=
  negb (isSome (returned_at loan)) && (due_at loan <? now).

Definition loadOverdueInfo (now : Z) : M (gset string) :=
  let! allLoans := toArray db_loans in
  let loans := List.filter (openAndDue now) allLoans in
  ret (list_to_set (student_id <$> loans)).

(** ** Numbers as the engine has them

    A JavaScript Number is an IEEE 754 binary64 value, and [/] and [*] round
    to nearest, ties to even.  [SpecFloat] is the Standard Library's
    definition of that arithmetic on sign, mantissa and exponent. *)

Definition Number : Type := SpecFloat.spec_float.

Global Instance Number_eq_dec : EqDecision Number.
Proof. unfold Number. solve_decision. Defined.

(** The Number of an integer: a literal such as [100], or a [length]. *)
Definition Number_of (z : Z) : Number := SpecFloat.binary_normalize 53 1024 z 0 false.

Definition Number_div (x y : Number) : Number := SpecFloat.SFdiv 53 1024 x y.

Definition Number_mul (x y : Number) : Number := SpecFloat.SFmul 53 1024 x y.

(** The rational a finite Number stands for. *)
Definition valueOf (x : Number) : Q :=
  match x with
  | SpecFloat.S754_finite sign m e =>
      let magnitude :=
        if 0 <=? e then inject_Z (Z.pos m * 2 ^ e)
        else (Z.pos m # Pos.shiftl 1 (Z.to_N (- e)))%Q in
      if sign then Qopp magnitude else magnitude
  | _ => 0%Q
  end.

(** [Math.round(x)]: the integer closest to [x], the greater one at a tie;
    an infinity, a NaN or a zero is returned as it is. *)
Definition Math_round_binary64 (x : Number) : Number :=
  match x with
  | SpecFloat.S754_finite sign _ _ =>
      let n := Qfloor (valueOf x + (1 # 2))%Q in
      if n =? 0 then SpecFloat.S754_zero sign else Number_of n
  | _ => x
  end.

(** The Number a decimal literal with one decimal place denotes, such as
    [66.7] for [decimal1 667]: the Number closest to it. *)
Definition decimal1 (tenths : Z) : Number := Number_div (Number_of tenths) (Number_of 10).

(** Lines 170-179 of src/lib/db.ts on [onTimeReturns] and [loans.length]. *)
Definition scoreOfCounts (onTimeReturns returned : nat) : Number :=
  if (returned =? 0)%nat then Number_of 50
  else
    let score :=
      Number_mul (Number_div (Number_of (Z.of_nat onTimeReturns))
                             (Number_of (Z.of_nat returned)))
                 (Number_of 100) in
    Number_div (Math_round_binary64 (Number_mul score (Number_of 10))) (Number_of 10).

Definition trustScoreOf_binary64 (ls : list Loan) : Number :=
  scoreOfCounts (length (List.filter onTime ls)) (length ls).

Definition calculateTrustScore_binary64 (studentId : string) : M Number :=
  let! ls := whereToArray db_loans (selected studentId) in
  ret (trustScoreOf_binary64 ls).

(** [returned] loans of pupil "s1" that have all come back, the first
    [onTimeReturns] of them on time. *)
Definition returnsOnFile (onTimeReturns returned : nat) : Store :=
  {| students := ∅; equipment := ∅;
     loans := list_to_map
                ((λ i, (numbered i,
                        mkLoan (numbered i) "s1" "e1" 10
                          (Some (if (i <? onTimeReturns)%nat then 5 else 11))))
                   <$> seq 0 returned);
     blacklistEntries := ∅ |}.

(** The claim's rounding of [1000 * onTime / returned] to an integer. *)
Definition tenthsOf (onTimeReturns returned : nat) : Z :=
  Qfloor ((1000 # 1) * (ofNat onTimeReturns / ofNat returned) + (1 # 2))%Q.

(** Whether the code's score for these counts is the Number of the claim's
    tenths, or one tenth less. *)
Definition roundsAsClaimed (onTimeReturns returned : nat) : bool :=
  bool_decide (scoreOfCounts onTimeReturns returned
               = decimal1 (tenthsOf onTimeReturns returned)).

Definition roundsOneTenthLow (onTimeReturns returned : nat) : bool :=
  bool_decide (scoreOfCounts onTimeReturns returned
               = decimal1 (tenthsOf onTimeReturns returned - 1)).

(** The check of one pair of counts: the score is the claim's, or one tenth
    low at one of three ties, and lies between 0 and 100. *)
Definition scoreChecked (returned onTimeReturns : nat) : bool :=
  (roundsAsClaimed onTimeReturns returned
   || (roundsOneTenthLow onTimeReturns returned && (returned =? 80)%nat
       && ((onTimeReturns =? 23) || (onTimeReturns =? 41) || (onTimeReturns =? 51))%nat))
  && Qle_bool 0 (valueOf (scoreOfCounts onTimeReturns returned))
  && Qle_bool (valueOf (scoreOfCounts onTimeReturns returned)) (100 # 1).

(** The check for every number of on-time returns out of [returned]. *)
Definition scoresChecked (returned : nat) : bool :=
  forallb (scoreChecked returned) (seq 0 (S returned)).

(** ** Stores on which an unguarded operation is run *)

(** The lent ball lent once more, to another pupil. *)
Definition ballLentTwice : Store :=
  exec (handleConfirm utcZone (λ _, "l2") None 2000 2000
          (Some (pupil "s2" (100 # 1))) ["e1"] 60) ballLent.

(** The one ball ticked twice in one handover. *)
Definition ballTickedTwice : Store :=
  exec (handleConfirm utcZone numbered None 1000 1000
          (Some (pupil "s1" (100 # 1))) ["e1"; "e1"] 60) oneBall.

(** The ball returned and lent again, and then the first loan marked
    returned a second time. *)
Definition ballLentAgain : Store :=
  exec (handleConfirm utcZone (λ _, "l2") None 3000 3000
          (Some (pupil "s2" (100 # 1))) ["e1"] 60)
       (exec (handleMarkReturned 2000 "s1" (Some "l1")) ballLent).

Definition firstLoanReturnedAgain : Store :=
  exec (handleMarkReturned 4000 "s1" (Some "l1")) ballLentAgain.

(** ** A suspension saved from a row older than the store

    The pupil's late return, made from the profile sheet, brings the stored
    score to 0; the student list still holds the row it loaded before. *)
Definition afterLateReturn : Store :=
  exec (handleMarkReturned 9000000 "s1" (Some "l1")) borrower.

Definition suspendedFromStaleRow : Store :=
  match listedRow "s1" borrower with
  | Some student =>
      exec (handleBlacklistSubmit (λ _, "b1") 9500000 (openBlacklistModal student)
              (suspension 99000000 "late return")) afterLateReturn
  | None => afterLateReturn
  end.
(** * Properties *)

(** ** Running store calls that the store accepts *)

Section Running.
Context {R : Type} (t : Table R).

Lemma add_connect (item : R) s :
  rows t s !! key t item = None →
  add t item (connect s)
  = (connect (with_rows t (<[key t item := item]> (rows t s)) s), inr tt).
Proof. intros Hfree. unfold add, bind, call. simpl. by rewrite Hfree. Qed.
End Running.

(** ** Relations that every store call of a handler respects *)

Section Respects.
Context (Q : Store → Store → Prop) `{!Reflexive Q, !Transitive Q}.

Lemma respects_ret {A} (a : A) : respects Q (ret a).
Proof. intros c c' r [= <- _]. reflexivity. Qed.

Lemma respects_throw {A} e : respects Q (@throw A e).
Proof. intros c c' r [= <- _]. reflexivity. Qed.

Lemma respects_bind {A B} (m : M A) (k : A → M B) :
  respects Q m → (∀ a, respects Q (k a)) → respects Q (bind m k).
Proof.
  intros Hm Hk c c' r. unfold bind.
  destruct (m c) as [c1 [e|a]] eqn:Hmc.
  - intros [= <- _]. by eapply Hm.
  - intros Hka. etransitivity; [by eapply Hm | by eapply Hk].
Qed.

Lemma respects_call : respects Q call.
Proof.
  intros c c' r. unfold call.
  destruct (budget c) as [[|n]|]; intros [= <- _]; reflexivity.
Qed.

Lemma respects_read {A} (f : Store → A) : respects Q (read f).
Proof.
  apply respects_bind; [apply respects_call|].
  intros _ c c' r [= <- _]. reflexivity.
Qed.

Lemma respects_write (f : Store → Store) :
  (∀ s, Q s (f s)) → respects Q (write f).
Proof.
  intros Hf. apply respects_bind; [apply respects_call|].
  intros _ c c' r [= <- _]. apply Hf.
Qed.

Lemma respects_transaction {A} (body : M A) :
  respects Q body → respects Q (transaction body).
Proof.
  intros Hbody c c' r. unfold transaction.
  destruct (body c) as [c1 [e|a]] eqn:Hc; intros [= <- _].
  - reflexivity.
  - by eapply Hbody.
Qed.

Lemma respects_forEach {A} (xs : list A) (body : A → M unit) :
  (∀ x, respects Q (body x)) → respects Q (forEach xs body).
Proof.
  intros Hbody. induction xs as [|x xs IH]; simpl.
  - apply respects_ret.
  - apply respects_bind; [apply Hbody | by intros _].
Qed.

Section Tables.
Context {R : Type} (t : Table R).
Hypothesis Ht : ∀ m s, Q s (with_rows t m s).

Lemma respects_add (item : R) : respects Q (add t item).
Proof.
  apply respects_bind; [apply respects_call|].
  intros _ c c' r.
  destruct (rows t (store c) !! key t item); intros [= <- _];
    [reflexivity | apply Ht].
Qed.

Lemma respects_bulkAdd (items : list R) : respects Q (bulkAdd t items).
Proof.
  apply respects_bind; [apply respects_call|].
  intros _ c c' r.
  destruct (bulkInsert t items (rows t (store c))) as [m ok].
  intros [= <- _]. apply Ht.
Qed.

Lemma respects_update k (f : R → R) : respects Q (update t k f).
Proof. apply respects_write. intros s. apply Ht. Qed.

Lemma respects_delete k : respects Q (delete t k).
Proof. apply respects_write. intros s. apply Ht. Qed.

Lemma respects_whereModify p (f : R → R) : respects Q (whereModify t p f).
Proof. apply respects_write. intros s. apply Ht. Qed.
End Tables.

Lemma respects_exec {A} (m : M A) s : respects Q m → Q s (exec m s).
Proof.
  intros Hm. unfold exec, run.
  destruct (m (connect s)) as [c r] eqn:Hmc. simpl.
  apply (Hm _ _ _ Hmc).
Qed.
End Respects.

(** ** Counting rows *)

Section Counting.
Context {R : Type}.
Implicit Types (m : gmap string R) (p : R → bool).

Lemma values_empty : values (∅ : gmap string R) = [].
Proof. unfold values. by rewrite map_to_list_empty. Qed.

Lemma values_insert m k x :
  m !! k = None → values (<[k := x]> m) ≡ₚ x :: values m.
Proof.
  intros Hk. unfold values. by rewrite map_to_list_insert.
Qed.

Lemma values_delete m k x :
  m !! k = Some x → values m ≡ₚ x :: values (base.delete k m).
Proof.
  intros Hk. unfold values. by rewrite <- (map_to_list_delete m k x).
Qed.

Lemma filter_length_perm p (l1 l2 : list R) :
  l1 ≡ₚ l2 → length (List.filter p l1) = length (List.filter p l2).
Proof.
  induction 1 as [|x l1 l2 _ IH|x y l|l1 l2 l3 _ IH1 _ IH2]; simpl.
  - done.
  - destruct (p x); simpl; by rewrite IH.
  - by destruct (p x), (p y).
  - by rewrite IH1.
Qed.

Lemma countWhere_empty p : countWhere p ∅ = 0%nat.
Proof. unfold countWhere. by rewrite values_empty. Qed.

Lemma countWhere_insert p m k x :
  m !! k = None →
  countWhere p (<[k := x]> m) = ((if p x then 1 else 0) + countWhere p m)%nat.
Proof.
  intros Hk. unfold countWhere.
  rewrite (filter_length_perm p _ _ (values_insert m k x Hk)). simpl.
  by destruct (p x).
Qed.

Lemma countWhere_delete p m k x :
  m !! k = Some x →
  countWhere p m = ((if p x then 1 else 0) + countWhere p (base.delete k m))%nat.
Proof.
  intros Hk. unfold countWhere.
  rewrite (filter_length_perm p _ _ (values_delete m k x Hk)). simpl.
  by destruct (p x).
Qed.

Lemma countWhere_alter p (f : R → R) m k x :
  m !! k = Some x →
  (countWhere p (alter f k m) + (if p x then 1 else 0)
   = countWhere p m + (if p (f x) then 1 else 0))%nat.
Proof.
  intros Hk.
  rewrite (countWhere_delete p m k x Hk).
  assert (alter f k m = <[k := f x]> (base.delete k m)) as ->.
  { apply map_eq. intros j. destruct (decide (k = j)) as [->|Hne].
    - by rewrite lookup_alter_eq, Hk, lookup_insert_eq.
    - by rewrite lookup_alter_ne, lookup_insert_ne, lookup_delete_ne. }
  rewrite countWhere_insert by apply lookup_delete_eq. lia.
Qed.

Lemma alter_absent (f : R → R) m k :
  m !! k = None → alter f k m = m.
Proof.
  intros Hk. apply map_eq. intros j. destruct (decide (k = j)) as [->|Hne].
  - by rewrite lookup_alter_eq, Hk.
  - by rewrite lookup_alter_ne.
Qed.

(** Counting by enumeration agrees with the size of the filtered map. *)
Lemma countWhere_size p m :
  countWhere p m = size (filter (λ kv : string * R, p kv.2 = true) m).
Proof.
  induction m as [|k x m Hk IH] using map_ind.
  - by rewrite countWhere_empty, map_filter_empty, map_size_empty.
  - rewrite countWhere_insert by done. destruct (p x) eqn:Hp.
    + rewrite map_filter_insert_True by done.
      rewrite map_size_insert_None by (by rewrite map_lookup_filter, Hk).
      by rewrite IH.
    + rewrite map_filter_insert_False by (simpl; congruence).
      rewrite delete_id by done. by rewrite IH.
  Qed.
End Counting.

(** ** Trust score *)

Section TrustScore.
Implicit Types (s : Store) (studentId : string).

Lemma calculateTrustScore_run studentId s :
  run (calculateTrustScore studentId) s
  = (s, inr (trustScoreOf (List.filter (selected studentId) (values (loans s))))).
Proof. reflexivity. Qed.

Lemma isReturned_is_Some l : isReturned l = true ↔ is_Some (returned_at l).
Proof.
  unfold isReturned. destruct (returned_at l) as [r|]; split; intros H.
  - by exists r.
  - done.
  - done.
  - by destruct H.
Qed.

Lemma selected_spec studentId l :
  selected studentId l = true ↔ student_id l = studentId ∧ is_Some (returned_at l).
Proof.
  unfold selected, eqs.
  rewrite andb_true_iff, bool_decide_eq_true, isReturned_is_Some. done.
Qed.

Lemma onTime_spec l : onTime l = true ↔ wasOnTime l.
Proof.
  unfold onTime, wasOnTime. destruct (returned_at l); [apply Z.leb_le | done].
Qed.

Lemma returned_count studentId s :
  length (List.filter (selected studentId) (values (loans s)))
  = size (returnedOf studentId s).
Proof.
  change (countWhere (selected studentId) (loans s) = size (returnedOf studentId s)).
  rewrite countWhere_size. unfold returnedOf. f_equal.
  apply map_filter_ext. intros k l _. simpl. apply selected_spec.
Qed.

Lemma filter_filter_andb {A} (p q : A → bool) (l : list A) :
  List.filter q (List.filter p l) = List.filter (λ x, p x && q x) l.
Proof.
  induction l as [|x l IH]; simpl; [done|].
  destruct (p x); simpl; [destruct (q x)|]; by rewrite ?IH.
Qed.

Lemma onTime_count studentId s :
  length (List.filter onTime (List.filter (selected studentId) (values (loans s))))
  = size (onTimeOf studentId s).
Proof.
  rewrite filter_filter_andb.
  change (countWhere (λ l, selected studentId l && onTime l) (loans s)
          = size (onTimeOf studentId s)).
  rewrite countWhere_size. unfold onTimeOf, returnedOf. f_equal.
  rewrite map_filter_filter.
  apply map_filter_ext. intros k l _. simpl.
  rewrite andb_true_iff, selected_spec, onTime_spec. tauto.
Qed.

Lemma ofNat_nonneg n : (0 <= ofNat n)%Q.
Proof.
  unfold ofNat. change 0%Q with (inject_Z 0). rewrite <- Zle_Qle. lia.
Qed.

Lemma ofNat_pos n : (0 < n)%nat → (0 < ofNat n)%Q.
Proof.
  intros Hn. unfold ofNat. change 0%Q with (inject_Z 0). rewrite <- Zlt_Qlt. lia.
Qed.

Lemma ofNat_le n k : (k ≤ n)%nat → (ofNat k <= ofNat n)%Q.
Proof. intros Hle. unfold ofNat. rewrite <- Zle_Qle. lia. Qed.

(** The rounded ratio stays within 0 and 1000 tenths. *)
Lemma rounded_ratio_bounds k n :
  (0 < n)%nat → (k ≤ n)%nat →
  0 ≤ Math_round (((ofNat k / ofNat n) * (100 # 1)) * (10 # 1))%Q ≤ 1000.
Proof.
  intros Hn Hk. unfold Math_round.
  assert (0 <= ofNat k / ofNat n)%Q as Hlo.
  { apply Qle_shift_div_l; [by apply ofNat_pos|].
    rewrite Qmult_0_l. apply ofNat_nonneg. }
  assert (ofNat k / ofNat n <= 1)%Q as Hhi.
  { apply Qle_shift_div_r; [by apply ofNat_pos|].
    rewrite Qmult_1_l. by apply ofNat_le. }
  set (r := (ofNat k / ofNat n)%Q) in *.
  split.
  - change 0 with (Qfloor (0 # 1)). apply Qfloor_resp_le.
    assert (0 <= r * (100 # 1) * (10 # 1))%Q as H0.
    { apply Qmult_le_0_compat; [apply Qmult_le_0_compat|]; done. }
    apply Qle_trans with (r * (100 # 1) * (10 # 1))%Q; [done|].
    rewrite <- (Qplus_0_r (r * (100 # 1) * (10 # 1))) at 1.
    apply Qplus_le_compat; [apply Qle_refl | done].
  - change 1000 with (Qfloor ((1000 # 1) + (1 # 2))). apply Qfloor_resp_le.
    apply Qplus_le_compat; [|apply Qle_refl].
    apply Qle_trans with ((1 * (100 # 1)) * (10 # 1))%Q; [|by vm_compute].
    apply Qmult_le_compat_r; [|done].
    apply Qmult_le_compat_r; done.
Qed.

Lemma trustScoreOf_bounds ls :
  (0 <= trustScoreOf ls)%Q ∧ (trustScoreOf ls <= 100 # 1)%Q.
Proof.
  unfold trustScoreOf. destruct (length ls =? 0)%nat eqn:Hlen; [done|].
  apply Nat.eqb_neq in Hlen.
  pose proof (rounded_ratio_bounds (length (List.filter onTime ls)) (length ls)) as Hb.
  destruct Hb as [Hlo Hhi]; [lia | apply List.filter_length_le |].
  set (z := Math_round _) in *.
  split.
  - apply Qle_shift_div_l; [done|]. rewrite Qmult_0_l.
    change 0%Q with (inject_Z 0). by rewrite <- Zle_Qle.
  - apply Qle_shift_div_r; [done|].
    change ((100 # 1) * (10 # 1))%Q with (inject_Z 1000). by rewrite <- Zle_Qle.
Qed.

Lemma trustScoreOf_ref studentId s :
  trustScoreOf (List.filter (selected studentId) (values (loans s)))
  = computeTrustScore_ref studentId s.
Proof.
  unfold trustScoreOf, computeTrustScore_ref.
  rewrite onTime_count, returned_count.
  destruct (decide _) as [->|Hne]; [done|].
  destruct (size (returnedOf studentId s)) as [|n] eqn:Hsz; [done|]. simpl Nat.eqb. cbv iota.
  unfold roundOneDecimal, Math_round. do 2 f_equal.
  apply Qfloor_comp. ring.
Qed.
End TrustScore.

(** In exact arithmetic [calculateTrustScore] returns the reference score:
    50 when the student has no returned loan, otherwise 100 times the share
    of on-time returns, rounded to one decimal place; it lies between 0 and
    100, and is 66.7 for two on-time returns out of three. *)
Theorem calculateTrustScore_matches_reference (studentId : string) (s : Store) :
  ∃ q : Q,
    run (calculateTrustScore studentId) s = (s, inr q)
    ∧ q = computeTrustScore_ref studentId s
    ∧ (0 <= q)%Q ∧ (q <= 100 # 1)%Q
    ∧ (size (returnedOf studentId s) = 3%nat →
       size (onTimeOf studentId s) = 2%nat →
       (q == 667 # 10)%Q).
Proof.
  exists (trustScoreOf (List.filter (selected studentId) (values (loans s)))).
  split; [apply calculateTrustScore_run|].
  split; [apply trustScoreOf_ref|].
  split; [apply trustScoreOf_bounds|].
  split; [apply trustScoreOf_bounds|].
  intros H3 H2. rewrite trustScoreOf_ref. unfold computeTrustScore_ref.
  rewrite H3, H2. reflexivity.
Qed.

Lemma calculateTrustScore_two_of_three :
  ∃ q : Q, run (calculateTrustScore "s1") threeReturns = (threeReturns, inr q)
           ∧ (q == 667 # 10)%Q.
Proof.
  destruct (calculateTrustScore_matches_reference "s1" threeReturns)
    as (q & Hrun & _ & _ & _ & Hex).
  exists q. split; [exact Hrun|].
  apply Hex; vm_compute; reflexivity.
Defined.

(** ** The score as the engine computes it *)

Section Binary64.
Implicit Types (s : Store) (studentId : string).

Lemma calculateTrustScore_binary64_run studentId s :
  run (calculateTrustScore_binary64 studentId) s
  = (s, inr (scoreOfCounts (size (onTimeOf studentId s))
                           (size (returnedOf studentId s)))).
Proof.
  change (run (calculateTrustScore_binary64 studentId) s)
    with (s, @inr error _ (trustScoreOf_binary64
                             (List.filter (selected studentId) (values (loans s))))).
  unfold trustScoreOf_binary64. by rewrite onTime_count, returned_count.
Qed.

Lemma scoresChecked_spec (onTimeReturns returned : nat) :
  scoresChecked returned = true → (onTimeReturns ≤ returned)%nat →
  scoreChecked returned onTimeReturns = true.
Proof.
  unfold scoresChecked. intros H Hk.
  rewrite forallb_forall in H. apply H, in_seq. lia.
Qed.

Lemma scoresChecked_80 : scoresChecked 80 = true.
Proof. vm_compute. reflexivity. Qed.
End Binary64.

(** C4 (evaluation at the failing input). The code computes the score in
    binary64 from the counts of the reference definition: 50 without a
    returned loan, 66.7 for two on-time returns out of three.  For 23 on-time
    returns out of 80 the share times 100 is a Number just below 28.75, so
    the code returns 28.7 where the claim's rounding gives 28.8.  With 80
    returned loans the score lies between 0 and 100 and is the claim's for
    every number of on-time returns but 23, 41 and 51, where it is one tenth
    lower. *)
Theorem calculateTrustScore_rounds_low_at_a_tie :
  (∀ studentId s,
      run (calculateTrustScore_binary64 studentId) s
      = (s, inr (scoreOfCounts (size (onTimeOf studentId s))
                               (size (returnedOf studentId s)))))
  ∧ (∀ onTimeReturns, scoreOfCounts onTimeReturns 0 = Number_of 50)
  ∧ scoreOfCounts 2 3 = decimal1 667
  ∧ (size (returnedOf "s1" (returnsOnFile 23 80)) = 80%nat
     ∧ size (onTimeOf "s1" (returnsOnFile 23 80)) = 23%nat
     ∧ (computeTrustScore_ref "s1" (returnsOnFile 23 80) == 288 # 10)%Q
     ∧ run (calculateTrustScore_binary64 "s1") (returnsOnFile 23 80)
       = (returnsOnFile 23 80, inr (decimal1 287))
     ∧ decimal1 287 ≠ decimal1 288
     ∧ (valueOf (decimal1 287) < (288 # 10) - (9 # 100))%Q)
  ∧ (∀ onTimeReturns,
       (onTimeReturns ≤ 80)%nat →
       (scoreOfCounts onTimeReturns 80 = decimal1 (tenthsOf onTimeReturns 80)
        ∨ (scoreOfCounts onTimeReturns 80 = decimal1 (tenthsOf onTimeReturns 80 - 1)
           ∧ onTimeReturns ∈ [23; 41; 51]%nat))
       ∧ (0 <= valueOf (scoreOfCounts onTimeReturns 80))%Q
       ∧ (valueOf (scoreOfCounts onTimeReturns 80) <= 100 # 1)%Q).
Proof.
  split; [apply calculateTrustScore_binary64_run|].
  split; [done|].
  split; [by vm_compute|].
  split.
  { assert (Hn : size (returnedOf "s1" (returnsOnFile 23 80)) = 80%nat)
      by (vm_compute; reflexivity).
    assert (Hk : size (onTimeOf "s1" (returnsOnFile 23 80)) = 23%nat)
      by (vm_compute; reflexivity).
    split; [exact Hn|]. split; [exact Hk|].
    split; [unfold computeTrustScore_ref; rewrite Hn, Hk; by vm_compute|].
    split; [rewrite calculateTrustScore_binary64_run, Hn, Hk; by vm_compute|].
    split; [by vm_compute | by vm_compute]. }
  intros k Hk.
  pose proof (scoresChecked_spec k 80 scoresChecked_80 Hk) as H.
  unfold scoreChecked in H.
  apply andb_true_iff in H as [H Hhi]. apply andb_true_iff in H as [H Hlo].
  split; [|split; [by apply Qle_bool_iff | by apply Qle_bool_iff]].
  apply orb_true_iff in H as [H|H].
  - left. by apply bool_decide_eq_true in H.
  - right. apply andb_true_iff in H as [H Hwhich].
    apply andb_true_iff in H as [H _].
    split; [by apply bool_decide_eq_true in H|].
    rewrite !orb_true_iff, !Nat.eqb_eq in Hwhich.
    rewrite !elem_of_cons. destruct Hwhich as [[->| ->]| ->]; auto.
Qed.

(** ** Effects of the loan actions when the store accepts every call *)

Section LoanActions.
Implicit Types (s : Store) (now : Z) (studentId loanId : string).

Lemma runs_exec {A} (m : M A) s s' a : runs m s s' a → exec m s = s'.
Proof. unfold runs, exec, run. by intros ->. Qed.

Lemma runs_run {A} (m : M A) s s' a : runs m s s' a → run m s = (s', inr a).
Proof. unfold runs, run. by intros ->. Qed.

Lemma handleMarkReturned_effect now studentId loanId s :
  ∃ s', runs (handleMarkReturned now studentId (Some loanId)) s s' tt
    ∧ loans s' = alter (markReturned now) loanId (loans s)
    ∧ equipment s' = match loans s !! loanId with
                     | Some l => alter (markAvailable now) (equipment_id l) (equipment s)
                     | None => equipment s
                     end
    ∧ students s' = alter (setTrustScore (computeTrustScore_ref studentId s') now)
                          studentId (students s)
    ∧ blacklistEntries s' = blacklistEntries s.
Proof.
  unfold runs, handleMarkReturned, update, get, calculateTrustScore,
    whereToArray, read, write, bind, call, ret. simpl.
  rewrite lookup_alter_eq.
  destruct (loans s !! loanId) as [l|] eqn:Hl; simpl.
  - eexists. split; [reflexivity|]. simpl. rewrite <- trustScoreOf_ref. done.
  - eexists. split; [reflexivity|]. simpl. rewrite <- trustScoreOf_ref. done.
Qed.

Lemma handleDeleteLoan_effect now studentId loanId s :
  ∃ s', runs (handleDeleteLoan now studentId (Some loanId)) s s' tt
    ∧ loans s' = base.delete loanId (loans s)
    ∧ equipment s' = match loans s !! loanId with
                     | Some l => if isReturned l then equipment s
                                 else alter (markAvailable now) (equipment_id l)
                                            (equipment s)
                     | None => equipment s
                     end
    ∧ students s' = alter (setTrustScore (computeTrustScore_ref studentId s') now)
                          studentId (students s)
    ∧ blacklistEntries s' = blacklistEntries s.
Proof.
  unfold runs, handleDeleteLoan, update, get, delete, calculateTrustScore,
    whereToArray, read, write, bind, call, ret. simpl.
  destruct (loans s !! loanId) as [l|] eqn:Hl; simpl.
  - destruct (isReturned l); simpl.
    + eexists. split; [reflexivity|]. simpl. rewrite <- trustScoreOf_ref. done.
    + eexists. split; [reflexivity|]. simpl. rewrite <- trustScoreOf_ref. done.
  - eexists. split; [reflexivity|]. simpl. rewrite <- trustScoreOf_ref. done.
Qed.
End LoanActions.

(** ** Handlers of the student pages leave loans and equipment alone *)

Section Frames.
Global Instance lendingKept_refl : Reflexive lendingKept.
Proof. by intros s. Qed.

Global Instance lendingKept_trans : Transitive lendingKept.
Proof. intros s1 s2 s3 [H1 H2] [H3 H4]. split; congruence. Qed.

Global Instance studentsOnly_refl : Reflexive studentsOnly.
Proof. by intros s. Qed.

Global Instance studentsOnly_trans : Transitive studentsOnly.
Proof. intros s1 s2 s3 (H1 & H2 & H3) (H4 & H5 & H6). repeat split; congruence. Qed.

Global Instance unchanged_refl : Reflexive unchanged.
Proof. by intros s. Qed.

Global Instance unchanged_trans : Transitive unchanged.
Proof. unfold unchanged. intros s1 s2 s3 H1 H2. congruence. Qed.

Lemma toISOString_respects Q `{!Reflexive Q} d : respects Q (toISOString d).
Proof. destruct d; [by apply respects_ret | by apply respects_throw]. Qed.

Ltac frame_side :=
  solve [ apply _ | done | intros ? ?; repeat split; reflexivity ].

Ltac frame :=
  repeat (first
    [ apply respects_ret | apply respects_throw | apply respects_read
    | apply toISOString_respects
    | apply respects_update | apply respects_delete | apply respects_add
    | apply respects_bulkAdd | apply respects_whereModify
    | apply respects_transaction | apply respects_forEach
    | apply respects_bind
    | match goal with |- ∀ _, _ => intros ? end ];
    try frame_side).

Lemma handleManualSubmit_lending uuid now form :
  respects lendingKept (handleManualSubmit uuid now form).
Proof. unfold handleManualSubmit. frame. Qed.

Lemma handleFileImport_lending uuid now data :
  respects lendingKept (handleFileImport uuid now data).
Proof. destruct data as [|row data]; simpl; frame. Qed.

Lemma handleBlacklistSubmit_lending uuid now selectedStudent form :
  respects lendingKept (handleBlacklistSubmit uuid now selectedStudent form).
Proof.
  destruct selectedStudent as [sel|]; simpl; [|frame].
  destruct (form_is_blacklisted form); simpl; frame.
  destruct (is_blacklisted sel); frame.
Qed.

Lemma expireOne_studentsOnly now student :
  respects studentsOnly (expireOne now student).
Proof. unfold expireOne. destruct (isExpired now student); frame. Qed.

Lemma assess_unchanged student : respects unchanged (assess student).
Proof. unfold assess. frame. Qed.

Lemma evaluateStudent_unchanged dismissed student :
  respects unchanged (evaluateStudent dismissed student).
Proof.
  apply respects_bind; [apply _ | apply assess_unchanged |].
  intros a. destruct (atRisk a); [|frame].
  destruct (negb _); frame.
Qed.

Lemma evaluateEach_unchanged dismissed studentList :
  respects unchanged (evaluateEach dismissed studentList).
Proof.
  induction studentList as [|student rest IH]; simpl; [frame|].
  apply respects_bind; [apply _ | apply evaluateStudent_unchanged |].
  intros flagged. apply respects_bind; [apply _ | apply IH |].
  intros others. frame.
Qed.

Lemma checkAtRiskStudents_studentsOnly dismissed now :
  respects studentsOnly (checkAtRiskStudents dismissed now).
Proof.
  apply respects_bind; [apply _ | frame |].
  intros studentList. apply respects_bind; [apply _| |].
  - apply respects_forEach; [apply _ ..|]. intros st. apply expireOne_studentsOnly.
  - intros _ c c' r Hrun.
    apply evaluateEach_unchanged in Hrun. red in Hrun. rewrite Hrun. reflexivity.
Qed.
End Frames.

(** ** Equipment and loan consistency *)

Section Lending.
Implicit Types (s : Store) (now : Z).

Lemma wellLent_consistent s : wellLent s → consistent s.
Proof.
  intros Hs equipmentId e He. rewrite Hs. unfold lent. rewrite He.
  destruct (decide (status e = borrowed)); split; done.
Qed.

Lemma wellLent_kept s s' : lendingKept s s' → wellLent s → wellLent s'.
Proof.
  intros [Hl He] Hs equipmentId. unfold openLoans, lent.
  rewrite Hl, He. apply Hs.
Qed.

Lemma lent_le_1 equipmentId s : (lent equipmentId s ≤ 1)%nat.
Proof.
  unfold lent. destruct (equipment s !! equipmentId) as [e|]; [|lia].
  destruct (decide _); lia.
Qed.

Lemma isOpenFor_newLoan equipmentId id studentId target user now due :
  isOpenFor equipmentId (newLoan id studentId target user now due)
  = eqs target equipmentId.
Proof. unfold isOpenFor, isReturned. simpl. by rewrite andb_true_r. Qed.

Lemma isOpenFor_markReturned equipmentId now l :
  isOpenFor equipmentId (markReturned now l) = false.
Proof. unfold isOpenFor, isReturned. simpl. by rewrite andb_false_r. Qed.

Lemma isOpenFor_open equipmentId l :
  returned_at l = None → isOpenFor equipmentId l = eqs (equipment_id l) equipmentId.
Proof. intros Hl. unfold isOpenFor, isReturned. rewrite Hl. by rewrite andb_true_r. Qed.

Lemma isOpenFor_returned equipmentId l :
  isReturned l = true → isOpenFor equipmentId l = false.
Proof. intros Hl. unfold isOpenFor. rewrite Hl. by rewrite andb_false_r. Qed.

(** Status of an item after [update(id, changes)] on the equipment table. *)
Lemma lent_alter (f : EquipmentItem → EquipmentItem) target equipmentId s s' :
  equipment s' = alter f target (equipment s) →
  lent equipmentId s'
  = if decide (target = equipmentId)
    then match equipment s !! target with
         | Some e => if decide (status (f e) = borrowed) then 1%nat else 0%nat
         | None => 0%nat
         end
    else lent equipmentId s.
Proof.
  intros He. unfold lent. rewrite He.
  destruct (decide (target = equipmentId)) as [->|Hne].
  - rewrite lookup_alter_eq. by destruct (equipment s !! equipmentId).
  - by rewrite lookup_alter_ne.
Qed.

Lemma borrowEach_cons uuid i studentId user now due target rest s :
  borrowEach uuid i studentId user now due (target :: rest) (connect s)
  = match loans s !! uuid i with
    | Some _ => (connect s, inl ConstraintError)
    | None =>
        borrowEach uuid (S i) studentId user now due rest
          (connect
             {| students := students s;
                equipment := alter (markBorrowed now) target (equipment s);
                loans := <[uuid i := newLoan (uuid i) studentId target user now due]>
                           (loans s);
                blacklistEntries := blacklistEntries s |})
    end.
Proof.
  simpl. unfold bind, add, update, write, bind, call. simpl.
  destruct (loans s !! uuid i); reflexivity.
Qed.

Lemma borrowEach_wellLent uuid studentId user now due ids :
  ∀ i s, NoDup ids → Forall (isLendable s) ids → wellLent s →
         wellLent (store (borrowEach uuid i studentId user now due ids (connect s)).1).
Proof.
  induction ids as [|target rest IH]; intros i s Hnd Hav Hs; [done|].
  rewrite borrowEach_cons.
  destruct (loans s !! uuid i) eqn:Hfresh; [done|].
  apply NoDup_cons in Hnd as [Hnotin Hnd].
  apply Forall_cons in Hav as [(e & He & Hst) Hav].
  apply IH; [done| |].
  - rewrite Forall_forall in Hav |- *. intros x Hx.
    destruct (Hav x Hx) as (e' & He' & Hst'). exists e'. split; [|done].
    simpl. rewrite lookup_alter_ne; [done|]. by intros ->.
  - intros equipmentId. unfold openLoans. simpl.
    rewrite countWhere_insert by done. rewrite isOpenFor_newLoan.
    erewrite (lent_alter (markBorrowed now) target equipmentId s) by reflexivity.
    specialize (Hs equipmentId). unfold openLoans in Hs. rewrite Hs.
    unfold eqs. destruct (decide (target = equipmentId)) as [->|Hne].
    + rewrite bool_decide_eq_true_2 by done. rewrite He. simpl.
      unfold lent. rewrite He. by rewrite decide_False.
    + rewrite bool_decide_eq_false_2 by done. done.
Qed.

Lemma handleConfirm_wellLent zone uuid user started now student ids duration s :
  NoDup ids → Forall (isLendable s) ids → wellLent s →
  wellLent (exec (handleConfirm zone uuid user started now (Some student) ids
                    duration) s).
Proof.
  intros Hnd Hav Hs. unfold exec, run, handleConfirm.
  destruct ids as [|target rest]; [done|].
  pose proof (borrowEach_wellLent uuid (st_id student) user now
                (setMinutes zone started (getMinutes zone started + duration))
                (target :: rest) 0 s Hnd Hav Hs) as H.
  by destruct (borrowEach _ _ _ _ _ _ _ _) as [c r].
Qed.

Lemma handleMarkReturned_wellLent now studentId loanId s :
  (∀ l, loans s !! loanId = Some l → returned_at l = None) →
  wellLent s →
  wellLent (exec (handleMarkReturned now studentId (Some loanId)) s).
Proof.
  intros Hopen Hs.
  destruct (handleMarkReturned_effect now studentId loanId s)
    as (s' & Hrun & Hl & He & _ & _).
  rewrite (runs_exec _ _ _ _ Hrun).
  destruct (loans s !! loanId) as [l|] eqn:Hlk.
  - intros equipmentId.
    pose proof (countWhere_alter (isOpenFor equipmentId) (markReturned now)
                  _ _ _ Hlk) as Hcount.
    rewrite isOpenFor_markReturned, (isOpenFor_open _ _ (Hopen l eq_refl)) in Hcount.
    unfold openLoans. rewrite Hl.
    rewrite (lent_alter (markAvailable now) (equipment_id l) equipmentId s s' He).
    pose proof (Hs equipmentId) as Hsame. unfold openLoans in Hsame.
    pose proof (lent_le_1 equipmentId s) as Hle.
    unfold eqs in Hcount.
    destruct (decide (equipment_id l = equipmentId)) as [Heq|Hne].
    + rewrite bool_decide_eq_true_2 in Hcount by done.
      destruct (equipment s !! equipment_id l); simpl; lia.
    + rewrite bool_decide_eq_false_2 in Hcount by done. lia.
  - apply (wellLent_kept s); [|done]. split; [|done].
    rewrite Hl. by apply alter_absent.
Qed.

Lemma handleDeleteLoan_wellLent now studentId loanId s :
  wellLent s →
  wellLent (exec (handleDeleteLoan now studentId (Some loanId)) s).
Proof.
  intros Hs.
  destruct (handleDeleteLoan_effect now studentId loanId s)
    as (s' & Hrun & Hl & He & _ & _).
  rewrite (runs_exec _ _ _ _ Hrun).
  destruct (loans s !! loanId) as [l|] eqn:Hlk.
  - intros equipmentId.
    pose proof (countWhere_delete (isOpenFor equipmentId) _ _ _ Hlk) as Hcount.
    pose proof (Hs equipmentId) as Hsame. unfold openLoans in Hsame.
    pose proof (lent_le_1 equipmentId s) as Hle.
    unfold openLoans. rewrite Hl.
    destruct (isReturned l) eqn:Hret.
    + rewrite isOpenFor_returned in Hcount by done.
      unfold lent. rewrite He. fold (lent equipmentId s). lia.
    + assert (returned_at l = None) as Hnone.
      { unfold isReturned in Hret. by destruct (returned_at l). }
      rewrite (isOpenFor_open _ _ Hnone) in Hcount.
      rewrite (lent_alter (markAvailable now) (equipment_id l) equipmentId s s' He).
      unfold eqs in Hcount.
      destruct (decide (equipment_id l = equipmentId)) as [Heq|Hne].
      * rewrite bool_decide_eq_true_2 in Hcount by done.
        destruct (equipment s !! equipment_id l); simpl; lia.
      * rewrite bool_decide_eq_false_2 in Hcount by done. lia.
  - apply (wellLent_kept s); [|done]. split; [|done].
    rewrite Hl. by apply delete_id.
Qed.

Lemma handleSubmit_new_wellLent uuid now uploaded form s :
  form_status form ≠ borrowed →
  wellLent s →
  wellLent (exec (handleSubmit uuid now None uploaded form) s).
Proof.
  intros Hform Hs. unfold exec, run, handleSubmit.
  destruct (nonEmpty _) as [url|]; [|done].
  unfold add, bind, call. simpl.
  destruct (equipment s !! uuid 0%nat) eqn:Hfree; simpl; [done|].
  intros equipmentId. unfold openLoans, lent. simpl.
  pose proof (Hs equipmentId) as Hsame. unfold openLoans, lent in Hsame.
  destruct (decide (uuid 0%nat = equipmentId)) as [<-|Hne].
  - rewrite lookup_insert_eq. simpl.
    rewrite Hfree in Hsame. by rewrite decide_False.
  - by rewrite lookup_insert_ne.
Qed.

Lemma handleSubmit_edit_wellLent uuid now item uploaded form s :
  (∀ e, equipment s !! eq_id item = Some e →
        status e = borrowed ↔ form_status form = borrowed) →
  wellLent s →
  wellLent (exec (handleSubmit uuid now (Some item) uploaded form) s).
Proof.
  intros Hform Hs. unfold exec, run, handleSubmit, update, write, bind, call. simpl.
  intros equipmentId. unfold openLoans. simpl.
  erewrite lent_alter by reflexivity.
  pose proof (Hs equipmentId) as Hsame. unfold openLoans in Hsame. rewrite Hsame.
  destruct (decide (eq_id item = equipmentId)) as [<-|Hne]; [|done].
  unfold lent. destruct (equipment s !! eq_id item) as [e|] eqn:He; [|done].
  simpl. specialize (Hform e eq_refl).
  destruct (decide (status e = borrowed)), (decide (form_status form = borrowed));
    tauto.
Qed.

Lemma step_wellLent s s' : step s s' → wellLent s → wellLent s'.
Proof.
  intros Hstep Hs. destruct Hstep.
  - by apply handleConfirm_wellLent.
  - by apply handleMarkReturned_wellLent.
  - by apply handleDeleteLoan_wellLent.
  - by apply handleSubmit_new_wellLent.
  - by apply handleSubmit_edit_wellLent.
  - eapply wellLent_kept; [|done].
    apply respects_exec, handleManualSubmit_lending.
  - eapply wellLent_kept; [|done].
    apply respects_exec, handleFileImport_lending.
  - eapply wellLent_kept; [|done].
    apply respects_exec, handleBlacklistSubmit_lending.
  - eapply wellLent_kept; [|done].
    destruct (respects_exec studentsOnly (checkAtRiskStudents dismissed now) s)
      as (Hl & He & _); [apply checkAtRiskStudents_studentsOnly|].
    by split.
Qed.

End Lending.

(** C1 (as amended). Starting from a store in which every borrowed item has
    exactly one open loan and nothing else has any, such as the empty
    database, every sequence of operations whose store calls are all
    accepted keeps it so, and hence keeps the invariant "an item is borrowed
    iff exactly one loan with [returned_at == null] references it", provided
    loans are created over a list that names no item twice and only items on
    file that are not borrowed, "mark returned" is used on a loan that is
    still open, and the inventory form neither sets nor clears the borrowed
    status.  Loan deletion and the student-page operations need no
    proviso. *)
Theorem guarded_operations_keep_items_consistent (s s' : Store) :
  wellLent s → rtc step s s' → consistent s' ∧ wellLent s'.
Proof.
  intros Hs Hsteps.
  assert (wellLent s') as Hs'.
  { induction Hsteps as [s|s1 s2 s3 Hstep _ IH]; [done|].
    apply IH. by apply (step_wellLent s1). }
  split; [by apply wellLent_consistent | done].
Qed.

Lemma lent_ball_is_consistent : consistent ballLent ∧ wellLent ballLent.
Proof.
  apply (guarded_operations_keep_items_consistent emptyStore ballLent).
  - intros equipmentId. reflexivity.
  - eapply rtc_l.
    + apply (step_new_item (λ _, "e1") 0 (Some "ball.png") (ballForm available)).
      simpl. discriminate.
    + eapply rtc_l; [|apply rtc_refl].
      apply (step_borrow utcZone (λ _, "l1") None 1000 1000 (pupil "s1" (100 # 1))
               ["e1"] 60).
      * apply NoDup_singleton.
      * apply Forall_singleton. eexists. split; [vm_compute; reflexivity | discriminate].
Defined.

Lemma consistent_map s :
  consistent s
  ↔ map_Forall (λ id e, status e = borrowed ↔ openLoans id s = 1%nat) (equipment s).
Proof. done. Qed.

(** Each guard is needed.  The inventory form stores the status it is
    given: a new item entered as borrowed has no loan at all.  Lending an
    item that is already borrowed, or ticked twice, leaves it with two open
    loans.  Marking a loan returned that was returned before makes its item
    available although the item is out again on another loan. *)
Lemma unguarded_operations_break_consistency :
  (consistent emptyStore
   ∧ ¬ consistent (exec (handleSubmit (λ _, "e1") 0 None (Some "ball.png")
                           (ballForm borrowed)) emptyStore))
  ∧ (consistent ballLent ∧ ¬ consistent ballLentTwice
     ∧ openLoans "e1" ballLentTwice = 2%nat)
  ∧ (consistent oneBall ∧ ¬ consistent ballTickedTwice
     ∧ openLoans "e1" ballTickedTwice = 2%nat)
  ∧ (consistent ballLentAgain ∧ ¬ consistent firstLoanReturnedAgain
     ∧ openLoans "e1" firstLoanReturnedAgain = 1%nat
     ∧ status <$> equipment firstLoanReturnedAgain !! "e1" = Some available).
Proof.
  assert (Hyes : ∀ s, bool_decide
            (map_Forall (λ id e, status e = borrowed ↔ openLoans id s = 1%nat)
               (equipment s)) = true → consistent s).
  { intros s H. apply consistent_map. by apply bool_decide_eq_true in H. }
  assert (Hno : ∀ s, bool_decide
            (map_Forall (λ id e, status e = borrowed ↔ openLoans id s = 1%nat)
               (equipment s)) = false → ¬ consistent s).
  { intros s H Hc. apply consistent_map in Hc. by apply bool_decide_eq_false in H. }
  split; [|split; [|split]].
  - split; [apply Hyes | apply Hno]; vm_compute; reflexivity.
  - split; [apply Hyes | split; [apply Hno|]]; vm_compute; reflexivity.
  - split; [apply Hyes | split; [apply Hno|]]; vm_compute; reflexivity.
  - split; [apply Hyes | split; [apply Hno | split]]; vm_compute; reflexivity.
Qed.

(** ** Atomicity *)

Section Atomicity.
Lemma transaction_rolls_back {A} (body : M A) c c' e :
  transaction body c = (c', inl e) → store c' = store c.
Proof.
  unfold transaction. destruct (body c) as [c1 [e1|a]]; by intros [= <- _].
Qed.

(** Saving the suspension dialog is all or nothing, whichever call the
    store rejects. *)
Lemma handleBlacklistSubmit_atomic uuid now selectedStudent form c c' e :
  handleBlacklistSubmit uuid now selectedStudent form c = (c', inl e) →
  store c' = store c.
Proof.
  destruct selectedStudent as [sel|]; simpl; [|by intros [= <- _]].
  unfold bind at 1.
  destruct (form_is_blacklisted form).
  - unfold bind at 1. destruct (form_end_date form) as [t|]; simpl.
    + apply transaction_rolls_back.
    + by intros [= <- _].
  - simpl. apply transaction_rolls_back.
Qed.
End Atomicity.

(** C2 (evaluation at the failing inputs). Loan creation and loan return run
    their store calls one by one, outside any transaction.  When the store
    rejects the equipment update of [handleConfirm], the loan stays while the
    item is still available; when it rejects the equipment update of
    [handleMarkReturned], the loan is closed while the item is still
    borrowed; and when the second [add] of a two-item borrow is refused, the
    first item stays lent although the handler reports a failure.  The
    suspension dialog, which does use a transaction, leaves the store as it
    was when its second call is rejected. *)
Theorem loan_handlers_leave_partial_state :
  (let '(s', r) :=
     runFailingAt 1 (handleConfirm utcZone (λ _, "l1") None 1000 1000
                       (Some (pupil "s1" (100 # 1))) ["e1"] 60) oneBall in
   r = inl StoreFailure
   ∧ openLoans "e1" s' = 1%nat
   ∧ status <$> equipment s' !! "e1" = Some available)
  ∧ (let '(s', r) :=
       runFailingAt 2 (handleMarkReturned 2000 "s1" (Some "l1")) ballLent in
     r = inl StoreFailure
     ∧ openLoans "e1" s' = 0%nat
     ∧ status <$> equipment s' !! "e1" = Some borrowed)
  ∧ (let '(s', r) :=
       run (handleConfirm utcZone (λ _, "l1") None 1000 1000
              (Some (pupil "s1" (100 # 1))) ["e1"; "e2"] 60) twoBalls in
     r = inl ConstraintError
     ∧ s' ≠ twoBalls
     ∧ status <$> equipment s' !! "e1" = Some borrowed
     ∧ status <$> equipment s' !! "e2" = Some available)
  ∧ (let '(s', r) :=
       runFailingAt 1 (handleBlacklistSubmit (λ _, "b1") 1000
                         (listedRow "s1" enrolled)
                         (suspension 5000 "late returns")) enrolled in
     r = inl StoreFailure ∧ s' = enrolled).
Proof.
  split; [|split; [|split]].
  - vm_compute. repeat split; reflexivity.
  - vm_compute. repeat split; reflexivity.
  - vm_compute. repeat split; try reflexivity. discriminate.
  - vm_compute. split; reflexivity.
Qed.

(** C3 (evaluation at the failing inputs). Saving the suspension dialog a
    second time for a suspended student, and suspending again after the
    at-risk pass has lapsed a suspension, both leave two active entries for
    the student. *)
Theorem two_active_entries_for_one_student :
  activeEntries "s1" suspendedOnce = 1%nat
  ∧ activeEntries "s1" suspendedTwice = 2%nat
  ∧ (is_blacklisted <$> students lapsed !! "s1") = Some false
  ∧ activeEntries "s1" lapsed = 1%nat
  ∧ activeEntries "s1" suspendedAfterLapse = 2%nat.
Proof. vm_compute. repeat split; reflexivity. Qed.

(** ** New students *)

Section NewStudents.
Implicit Types (s : Store) (now : Z).

Lemma bulkInsert_lookup {R} (t : Table R) (items : list R) :
  ∀ (m : gmap string R) k x,
    (bulkInsert t items m).1 !! k = Some x → m !! k = Some x ∨ x ∈ items.
Proof.
  induction items as [|item rest IH]; intros m k x Hx; simpl in *; [by left|].
  destruct (m !! key t item) eqn:Hkey; simpl in Hx.
  - destruct (IH _ _ _ Hx) as [?|?]; [by left | right; by apply elem_of_cons; right].
  - destruct (IH _ _ _ Hx) as [Hins|?]; [|right; by apply elem_of_cons; right].
    destruct (decide (key t item = k)) as [<-|Hne].
    + rewrite lookup_insert_eq in Hins. injection Hins as <-.
      right. by apply elem_of_cons; left.
    + rewrite lookup_insert_ne in Hins by done. by left.
Qed.

Lemma imported_score uuid now (data : list ImportRow) st :
  st ∈ imap (importedStudent uuid now) data → trust_score st = (100 # 1)%Q.
Proof.
  intros Hst. apply elem_of_lookup_imap in Hst as (i & row & -> & _). reflexivity.
Qed.

Lemma handleManualSubmit_stores_100 uuid now form s :
  students s !! uuid 0%nat = None →
  ∃ st, students (exec (handleManualSubmit uuid now form) s) !! uuid 0%nat = Some st
        ∧ trust_score st = (100 # 1)%Q.
Proof.
  intros Hfree. unfold exec, run, handleManualSubmit.
  rewrite (add_connect db_students) by done. simpl.
  rewrite lookup_insert_eq. by eexists.
Qed.

Lemma bulkAdd_exec {R} (t : Table R) (items : list R) s :
  exec (bulkAdd t items) s = with_rows t (bulkInsert t items (rows t s)).1 s.
Proof.
  unfold exec, run, bulkAdd, bind, call. cbn [connect budget store].
  by destruct (bulkInsert t items (rows t s)).
Qed.

Lemma handleFileImport_stores_100 uuid now data s k st :
  students s !! k = None →
  students (exec (handleFileImport uuid now data) s) !! k = Some st →
  trust_score st = (100 # 1)%Q.
Proof.
  intros Hfree. destruct data as [|row rest].
  - unfold exec, run. simpl. by rewrite Hfree.
  - change (handleFileImport uuid now (row :: rest))
      with (bulkAdd db_students (imap (importedStudent uuid now) (row :: rest))).
    rewrite bulkAdd_exec.
    change (students (with_rows db_students ?m s)) with m.
    intros Hk. apply bulkInsert_lookup in Hk as [Hold|Hnew].
    + change (rows db_students s) with (students s) in Hold. congruence.
    + by eapply imported_score.
Qed.

Lemma calculateTrustScore_default studentId s :
  size (returnedOf studentId s) = 0%nat →
  run (calculateTrustScore studentId) s = (s, inr (50 # 1)%Q).
Proof.
  intros Hnone. rewrite calculateTrustScore_run, trustScoreOf_ref.
  unfold computeTrustScore_ref. by rewrite Hnone.
Qed.
End NewStudents.

(** C5 (as amended). [calculateTrustScore] returns the neutral 50.0 for every
    student without a returned loan, but a newly created student, whether
    entered by hand or imported from a file, is stored with trust score
    100. *)
Theorem new_students_are_stored_with_100 :
  (∀ studentId s,
      size (returnedOf studentId s) = 0%nat →
      run (calculateTrustScore studentId) s = (s, inr (50 # 1)%Q))
  ∧ (∀ uuid now form s,
        students s !! uuid 0%nat = None →
        ∃ st, students (exec (handleManualSubmit uuid now form) s) !! uuid 0%nat = Some st
              ∧ trust_score st = (100 # 1)%Q)
  ∧ (∀ uuid now data s k st,
        students s !! k = None →
        students (exec (handleFileImport uuid now data) s) !! k = Some st →
        trust_score st = (100 # 1)%Q).
Proof.
  split; [|split].
  - apply calculateTrustScore_default.
  - apply handleManualSubmit_stores_100.
  - apply handleFileImport_stores_100.
Qed.

Lemma enrolled_pupil_has_100 :
  ∃ st, students enrolled !! "s1" = Some st ∧ trust_score st = (100 # 1)%Q.
Proof.
  destruct new_students_are_stored_with_100 as (_ & Hmanual & _).
  apply (Hmanual (λ _, "s1") 0 {| mf_full_name := "Alex"; mf_class_name := "7B" |}
                 emptyStore).
  reflexivity.
Defined.

(** A pupil entered by hand has no returned loan and yet a stored score that
    is not 50.0. *)
Lemma new_student_score_is_not_50 :
  ∃ st, students enrolled !! "s1" = Some st
        ∧ size (returnedOf "s1" enrolled) = 0%nat
        ∧ ¬ (trust_score st == 50 # 1)%Q.
Proof.
  eexists. split; [vm_compute; reflexivity|].
  split; [vm_compute; reflexivity|].
  intros H. vm_compute in H. discriminate.
Qed.

(** ** Suspension penalty *)

Section Penalty.
Implicit Types (s : Store) (now : Z) (sel : Student).

(** Saving a suspension with every call accepted: nothing changes when the
    end date does not parse or the new entry's key is taken; otherwise the
    student row is updated and one entry is added. *)
Lemma handleBlacklistSubmit_suspend uuid now sel form s :
  form_is_blacklisted form = true →
  exec (handleBlacklistSubmit uuid now (Some sel) form) s = s
  ∨ ∃ t, form_end_date form = Some t
      ∧ blacklistEntries s !! uuid 0%nat = None
      ∧ students (exec (handleBlacklistSubmit uuid now (Some sel) form) s)
        = alter (applyBlacklistUpdate true (Some t) (Some (form_reason form))
                   (if negb (is_blacklisted sel)
                    then Some (Math_max (0 # 1) (trust_score sel * (1 # 2)))%Q
                    else None) now)
                (st_id sel) (students s).
Proof.
  intros Hform. unfold exec, run, handleBlacklistSubmit. rewrite Hform.
  destruct (form_end_date form) as [t|] eqn:Hdate; [|by left].
  unfold bind, transaction, update, add, write, bind, call. simpl.
  destruct (blacklistEntries s !! uuid 0%nat) eqn:Hfree; simpl; [by left|].
  right. exists t. done.
Qed.

(** Saving the suspension of a student who is already suspended leaves
    every stored trust score as it was. *)
Lemma resave_keeps_scores uuid now sel form s k :
  is_blacklisted sel = true →
  form_is_blacklisted form = true →
  trust_score <$> students (exec (handleBlacklistSubmit uuid now (Some sel) form) s) !! k
  = trust_score <$> students s !! k.
Proof.
  intros Hsel Hform.
  destruct (handleBlacklistSubmit_suspend uuid now sel form s Hform)
    as [->|(t & _ & _ & ->)]; [done|].
  rewrite Hsel. simpl.
  destruct (decide (st_id sel = k)) as [<-|Hne].
  - rewrite lookup_alter_eq. by destruct (students s !! st_id sel).
  - by rewrite lookup_alter_ne.
Qed.

(** Lifting a suspension leaves every stored trust score as it was. *)
Lemma unsuspend_keeps_scores uuid now sel form s k :
  form_is_blacklisted form = false →
  trust_score <$> students (exec (handleBlacklistSubmit uuid now (Some sel) form) s) !! k
  = trust_score <$> students s !! k.
Proof.
  intros Hform. unfold exec, run, handleBlacklistSubmit. rewrite Hform.
  unfold bind, transaction, update, whereModify, write, bind, call. simpl.
  assert (trust_score <$> alter (applyBlacklistUpdate false None None None now)
                            (st_id sel) (students s) !! k
          = trust_score <$> students s !! k) as Halter.
  { destruct (decide (st_id sel = k)) as [<-|Hne].
    - rewrite lookup_alter_eq. by destruct (students s !! st_id sel).
    - by rewrite lookup_alter_ne. }
  by destruct (is_blacklisted sel).
Qed.

(** Suspending from a dialog row that is not suspended stores half the score
    of that row, whatever the stored row [st] holds. *)
Lemma first_suspension_halves uuid now sel st form s t :
  students s !! st_id sel = Some st →
  is_blacklisted sel = false →
  form_is_blacklisted form = true →
  form_end_date form = Some t →
  blacklistEntries s !! uuid 0%nat = None →
  ∃ sel', students (exec (handleBlacklistSubmit uuid now (Some sel) form) s)
            !! st_id sel = Some sel'
          ∧ is_blacklisted sel' = true
          ∧ trust_score sel' = Math_max (0 # 1) (trust_score sel * (1 # 2))%Q.
Proof.
  intros Hstored Hsel Hform Hdate Hfree.
  unfold exec, run, handleBlacklistSubmit. rewrite Hform, Hdate, Hsel.
  unfold bind, transaction, update, add, write, bind, call. simpl.
  rewrite Hfree. simpl. rewrite lookup_alter_eq, Hstored. simpl.
  eexists. split; [reflexivity|]. done.
Qed.
End Penalty.




(** ** Returning and deleting loans *)

Section ReturnAndDelete.
Implicit Types (s : Store) (now : Z) (studentId loanId : string).

Lemma alter_lookup_Some {R} (f : R → R) (m : gmap string R) k x :
  m !! k = Some x → alter f k m !! k = Some (f x).
Proof. intros Hk. by rewrite lookup_alter_eq, Hk. Qed.

Lemma returnedOf_delete studentId loanId s s' :
  loans s' = base.delete loanId (loans s) →
  returnedOf studentId s' = base.delete loanId (returnedOf studentId s).
Proof. intros Hl. unfold returnedOf. rewrite Hl. apply map_filter_delete. Qed.

Lemma onTimeOf_delete studentId loanId s s' :
  loans s' = base.delete loanId (loans s) →
  onTimeOf studentId s' = base.delete loanId (onTimeOf studentId s).
Proof.
  intros Hl. unfold onTimeOf. rewrite (returnedOf_delete _ loanId s s' Hl).
  apply map_filter_delete.
Qed.

Lemma returnedOf_delete_open studentId loanId s s' l :
  loans s' = base.delete loanId (loans s) →
  loans s !! loanId = Some l → returned_at l = None →
  returnedOf studentId s' = returnedOf studentId s.
Proof.
  intros Hl Hlk Hopen. rewrite (returnedOf_delete _ loanId s s' Hl).
  apply delete_id. unfold returnedOf. apply map_lookup_filter_None. right.
  intros l' Hl' [_ Hret]. simpl in Hret.
  assert (l' = l) as -> by congruence. rewrite Hopen in Hret. by destruct Hret.
Qed.

Lemma score_delete_open studentId loanId s s' l :
  loans s' = base.delete loanId (loans s) →
  loans s !! loanId = Some l → returned_at l = None →
  computeTrustScore_ref studentId s' = computeTrustScore_ref studentId s.
Proof.
  intros Hl Hlk Hopen. unfold computeTrustScore_ref, onTimeOf.
  by rewrite (returnedOf_delete_open studentId loanId s s' l).
Qed.
End ReturnAndDelete.







(** ** The at-risk test *)

Section AtRisk.
Implicit Types (s : Store) (student : Student) (studentId : string).

Global Instance endsNoLater_trans : Transitive endsNoLater.
Proof. unfold endsNoLater. intros a b c Hab Hbc. lia. Qed.

Global Instance endsNoLater_total : Total endsNoLater.
Proof. unfold endsNoLater. intros a b. lia. Qed.

Lemma assess_run student s :
  run (assess student) s
  = (s, inr (figures student
               (List.filter (loanOf (st_id student)) (values (loans s)))
               (List.filter (entryOf (st_id student)) (values (blacklistEntries s)))
               (countWhere (entryOf (st_id student)) (blacklistEntries s)))).
Proof. reflexivity. Qed.

Lemma elem_of_values {R} (m : gmap string R) x :
  x ∈ values m ↔ ∃ k, m !! k = Some x.
Proof.
  unfold values. rewrite list_elem_of_fmap. split.
  - intros ([k y] & -> & Hin). exists k. by apply elem_of_map_to_list.
  - intros (k & Hk). exists (k, x). split; [done|by apply elem_of_map_to_list].
Qed.

Lemma elem_of_filter_bool {A} (p : A → bool) (l : list A) x :
  x ∈ List.filter p l ↔ x ∈ l ∧ p x = true.
Proof. rewrite !list_elem_of_In. apply filter_In. Qed.

Lemma elem_of_closed studentId s e :
  e ∈ List.filter (λ e, negb (is_active e))
        (List.filter (entryOf studentId) (values (blacklistEntries s)))
  ↔ ∃ k, closedSuspensionsOf studentId s !! k = Some e.
Proof.
  rewrite !elem_of_filter_bool, elem_of_values.
  unfold closedSuspensionsOf, suspensionsOf, entryOf, eqs.
  setoid_rewrite map_lookup_filter_Some. setoid_rewrite map_lookup_filter_Some.
  simpl. rewrite bool_decide_eq_true, negb_true_iff.
  split.
  - intros [[[k Hk] Hid] Hact]. by exists k.
  - intros (k & (Hk & Hid) & Hact). split; [split|]; [by exists k|done..].
Qed.

(** The head of the sorted closed suspensions is the most recent one. *)
Lemma lastSuspensionDate_cutoff studentId s :
  isCutoff studentId s
    (lastSuspensionDate
       (List.filter (entryOf studentId) (values (blacklistEntries s)))).
Proof.
  unfold lastSuspensionDate, inactiveSuspensions.
  set (closed := List.filter (λ e, negb (is_active e)) _).
  pose proof (merge_sort_Permutation endsNoLater closed) as Hperm.
  pose proof (StronglySorted_merge_sort endsNoLater closed) as Hsorted.
  destruct (merge_sort endsNoLater closed) as [|e0 rest].
  - left. split; [|done]. apply map_empty. intros k.
    destruct (closedSuspensionsOf studentId s !! k) as [e|] eqn:He; [|done].
    assert (e ∈ closed) as Hin by (apply elem_of_closed; eauto).
    rewrite <- Hperm in Hin. by apply elem_of_nil in Hin.
  - right.
    assert (e0 ∈ closed) as Hin by (rewrite <- Hperm; by left).
    apply elem_of_closed in Hin as [k Hk]. exists k, e0.
    split; [done|]. split; [done|].
    intros k' e' Hk'.
    assert (e' ∈ e0 :: rest) as Hin'
      by (rewrite Hperm; apply elem_of_closed; eauto).
    apply StronglySorted_inv in Hsorted as [_ Hall].
    rewrite Forall_forall in Hall.
    apply elem_of_cons in Hin' as [->|Hrest]; [done|].
    by apply Hall.
Qed.

Lemma lateSince_spec cutoff l : lateSince cutoff l = true ↔ lateAfter cutoff l.
Proof.
  unfold lateSince, lateAfter. destruct (returned_at l); [|done].
  rewrite andb_true_iff, !Z.ltb_lt. done.
Qed.

Lemma lateAfter_returned cutoff l : lateAfter cutoff l → isReturned l = true.
Proof. unfold lateAfter, isReturned. by destruct (returned_at l). Qed.

Lemma lateReturnsSince_count studentId s cutoff :
  length (List.filter (lateSince cutoff)
            (List.filter isReturned
               (List.filter (loanOf studentId) (values (loans s)))))
  = lateReturnsSince_ref studentId s cutoff.
Proof.
  rewrite !filter_filter_andb.
  change (countWhere (λ l, loanOf studentId l && (isReturned l && lateSince cutoff l))
            (loans s) = lateReturnsSince_ref studentId s cutoff).
  rewrite countWhere_size. unfold lateReturnsSince_ref. f_equal.
  apply map_filter_ext. intros k l _. simpl.
  rewrite !andb_true_iff, lateSince_spec. unfold loanOf, eqs.
  rewrite bool_decide_eq_true.
  pose proof (lateAfter_returned cutoff l). tauto.
Qed.

Lemma suspension_count studentId s :
  countWhere (entryOf studentId) (blacklistEntries s)
  = size (suspensionsOf studentId s).
Proof.
  rewrite countWhere_size. unfold suspensionsOf. f_equal.
  apply map_filter_ext. intros k e _. simpl. unfold entryOf, eqs.
  apply bool_decide_eq_true.
Qed.

Lemma warningThreshold_spec studentId s :
  warningThreshold (countWhere (entryOf studentId) (blacklistEntries s))
  = warningThreshold_ref studentId s.
Proof.
  rewrite suspension_count. unfold warningThreshold, warningThreshold_ref.
  destruct (decide (suspensionsOf studentId s = ∅)) as [->|Hne].
  - by rewrite map_size_empty.
  - destruct (size (suspensionsOf studentId s)) eqn:Hsz; [|done].
    by apply map_size_empty_iff in Hsz.
Qed.

Lemma atRisk_spec a :
  atRisk a = true ↔ (warning_threshold a ≤ late_returns_since_suspension a)%nat.
Proof. unfold atRisk, crossesThreshold. apply Nat.leb_le. Qed.

Lemma evaluateStudent_run dismissed student s a :
  run (assess student) s = (s, inr a) →
  run (evaluateStudent dismissed student) s
  = (s, inr (if atRisk a && negb (dismissed (st_id student)
                                    (late_returns_since_suspension a))
             then [a] else [])).
Proof.
  rewrite assess_run. intros [= <-].
  unfold run, evaluateStudent, bind. 
  change (assess student (connect s)) with
    (connect s, @inr error _ (figures student
               (List.filter (loanOf (st_id student)) (values (loans s)))
               (List.filter (entryOf (st_id student)) (values (blacklistEntries s)))
               (countWhere (entryOf (st_id student)) (blacklistEntries s)))).
  cbv beta iota.
  destruct (atRisk _); [|done]. by destruct (negb _).
Qed.
End AtRisk.

(** What the pass computes for one student: the number of late returns
    since the last suspension is the reference count, the warning threshold
    is 1 when the student has any suspension entry and 3 otherwise, and the
    student passes the at-risk test exactly when the count reaches the
    threshold. *)
Lemma assess_spec (student : Student) (s : Store) :
  ∃ a cutoff,
    run (assess student) s = (s, inr a)
    ∧ isCutoff (st_id student) s cutoff
    ∧ late_returns_since_suspension a = lateReturnsSince_ref (st_id student) s cutoff
    ∧ warning_threshold a = warningThreshold_ref (st_id student) s
    ∧ (atRisk a = true
       ↔ (warningThreshold_ref (st_id student) s
          ≤ lateReturnsSince_ref (st_id student) s cutoff)%nat)
    ∧ (∀ dismissed,
         run (evaluateStudent dismissed student) s
         = (s, inr (if atRisk a && negb (dismissed (st_id student)
                                           (late_returns_since_suspension a))
                    then [a] else [])))
    ∧ (suspensionsOf (st_id student) s = ∅ →
       (lateReturnsSince_ref (st_id student) s 0 = 2%nat → atRisk a = false)
       ∧ (lateReturnsSince_ref (st_id student) s 0 = 3%nat → atRisk a = true))
    ∧ (suspensionsOf (st_id student) s ≠ ∅ →
       lateReturnsSince_ref (st_id student) s cutoff = 1%nat → atRisk a = true).
Proof.
  eexists. exists (lastSuspensionDate
                     (List.filter (entryOf (st_id student)) (values (blacklistEntries s)))).
  split; [apply assess_run|].
  split; [apply lastSuspensionDate_cutoff|].
  split; [apply lateReturnsSince_count|].
  split; [apply warningThreshold_spec|].
  assert (∀ cutoff, lateReturnsSince_ref (st_id student) s cutoff
                    = length (List.filter (lateSince cutoff)
                        (List.filter isReturned
                           (List.filter (loanOf (st_id student)) (values (loans s))))))
    as Hcount by (intros; by rewrite lateReturnsSince_count).
  split.
  { rewrite atRisk_spec. simpl. rewrite warningThreshold_spec.
    unfold lateReturnsSince. by rewrite <- Hcount. }
  split; [intros dismissed; by apply evaluateStudent_run, assess_run|].
  split.
  - intros Hnone.
    assert (lastSuspensionDate
              (List.filter (entryOf (st_id student)) (values (blacklistEntries s))) = 0)
      as Hepoch.
    { destruct (lastSuspensionDate_cutoff (st_id student) s)
        as [[_ ->]|(k & e & Hk & _)]; [done|].
      unfold closedSuspensionsOf in Hk. rewrite Hnone, map_filter_empty in Hk.
      by rewrite lookup_empty in Hk. }
    unfold atRisk, crossesThreshold. simpl.
    rewrite warningThreshold_spec. unfold warningThreshold_ref.
    rewrite decide_True by done.
    unfold lateReturnsSince. rewrite Hepoch, <- Hcount.
    split; intros ->; reflexivity.
  - intros Hsome Hone.
    unfold atRisk, crossesThreshold. simpl.
    rewrite warningThreshold_spec. unfold warningThreshold_ref.
    rewrite decide_False by done.
    unfold lateReturnsSince. rewrite <- Hcount, Hone. reflexivity.
Qed.

(** The thresholds on small stores: two late returns do not list a first
    offender, three do, a dismissed warning is not listed, and one late
    return after a closed suspension lists a repeat offender. *)
Example at_risk_pass_examples :
  listedIds (run (checkAtRiskStudents (λ _ _, false) 1000) twoLate).2 = []
  ∧ listedIds (run (checkAtRiskStudents (λ _ _, false) 1000) threeLate).2 = ["s1"]
  ∧ listedIds (run (checkAtRiskStudents (λ id n, eqs id "s1" && (n =? 3)%nat) 1000)
                 threeLate).2 = []
  ∧ listedIds (run (checkAtRiskStudents (λ _ _, false) 1000) repeatOffender).2 = ["s1"].
Proof. vm_compute. repeat split; reflexivity. Qed.

(** ** Lazy expiry *)

Section LazyExpiry.
Context (now : Z).
Implicit Types (s : Store) (m mc : gmap string Student) (l : list Student).

Lemma runs_bind {A B} (mA : M A) (k : A → M B) s s1 s2 a b :
  runs mA s s1 a → runs (k a) s1 s2 b → runs (bind mA k) s s2 b.
Proof. unfold runs, bind. by intros ->. Qed.

Lemma expire_all_runs l :
  ∀ s, ∃ s', runs (forEach l (expireOne now)) s s' tt
             ∧ studentsOnly s s'
             ∧ students s' = foldl (expireRow now) (students s) l.
Proof.
  induction l as [|st l IH]; intros s; simpl.
  - exists s. by repeat split.
  - set (s1 := if isExpired now st
               then with_rows db_students
                      (alter (clearBlacklist now) (st_id st) (students s)) s
               else s).
    assert (runs (expireOne now st) s s1 tt) as Hone.
    { unfold expireOne, s1. by destruct (isExpired now st). }
    assert (students s1 = expireRow now (students s) st ∧ studentsOnly s s1) as [Hrow Hkept].
    { unfold s1, expireRow. by destruct (isExpired now st). }
    destruct (IH s1) as (s' & Hrest & Hkept' & Hrows).
    exists s'. split; [by eapply runs_bind|].
    split; [by etransitivity|]. by rewrite Hrows, Hrow.
Qed.

Lemma expireRow_touched m mc st :
  m !! st_id st = Some st → touched now m mc → touched now m (expireRow now mc st).
Proof.
  intros Hst Hmc k. unfold expireRow.
  destruct (isExpired now st) eqn:Hexp; [|apply Hmc].
  destruct (decide (st_id st = k)) as [<-|Hne].
  - right. exists st. split; [done|]. split; [done|].
    rewrite lookup_alter_eq.
    destruct (Hmc (st_id st)) as [->|(st' & Hst' & _ & ->)].
    + by rewrite Hst.
    + assert (st' = st) as -> by congruence. reflexivity.
  - rewrite lookup_alter_ne by done. apply Hmc.
Qed.

Lemma expireRow_hit m mc st :
  m !! st_id st = Some st → touched now m mc → isExpired now st = true →
  expireRow now mc st !! st_id st = Some (clearBlacklist now st).
Proof.
  intros Hst Hmc Hexp. unfold expireRow. rewrite Hexp, lookup_alter_eq.
  destruct (Hmc (st_id st)) as [->|(st' & Hst' & _ & ->)].
  - by rewrite Hst.
  - assert (st' = st) as -> by congruence. reflexivity.
Qed.

Lemma fold_touched m l :
  (∀ st, st ∈ l → m !! st_id st = Some st) →
  ∀ mc, touched now m mc → touched now m (foldl (expireRow now) mc l).
Proof.
  induction l as [|st l IH]; intros Hl mc Hmc; simpl; [done|].
  apply IH.
  - intros st' Hin. apply Hl. by right.
  - apply expireRow_touched; [|done]. apply Hl. by left.
Qed.

Lemma fold_stable m l k st0 :
  (∀ st, st ∈ l → m !! st_id st = Some st) →
  m !! k = Some st0 →
  ∀ mc, mc !! k = Some (clearBlacklist now st0) →
        foldl (expireRow now) mc l !! k = Some (clearBlacklist now st0).
Proof.
  intros Hl Hk. induction l as [|st l IH]; intros mc Hmc; simpl; [done|].
  apply IH; [intros st' Hin; apply Hl; by right|].
  unfold expireRow. destruct (isExpired now st); [|done].
  destruct (decide (st_id st = k)) as [<-|Hne].
  - rewrite lookup_alter_eq, Hmc. reflexivity.
  - by rewrite lookup_alter_ne.
Qed.

Lemma fold_hits m l :
  (∀ st, st ∈ l → m !! st_id st = Some st) →
  ∀ mc, touched now m mc →
        ∀ st, st ∈ l → isExpired now st = true →
              foldl (expireRow now) mc l !! st_id st = Some (clearBlacklist now st).
Proof.
  induction l as [|x l IH]; intros Hl mc Hmc st Hin Hexp; simpl.
  { by apply elem_of_nil in Hin. }
  assert (∀ st', st' ∈ l → m !! st_id st' = Some st') as Hl'
    by (intros st' Hin'; apply Hl; by right).
  assert (m !! st_id x = Some x) as Hx by (apply Hl; by left).
  apply elem_of_cons in Hin as [->|Hin].
  - apply (fold_stable m l (st_id x) x Hl' Hx).
    by apply (expireRow_hit m).
  - apply IH; [done| |done..]. by apply expireRow_touched.
Qed.

Lemma expire_rows m k :
  (∀ k st, m !! k = Some st → st_id st = k) →
  foldl (expireRow now) m (values m) !! k = afterExpiry now <$> m !! k.
Proof.
  intros Hkeyed.
  assert (∀ st, st ∈ values m → m !! st_id st = Some st) as Hl.
  { intros st [k' Hk']%elem_of_values. by rewrite (Hkeyed _ _ Hk'). }
  assert (touched now m m) as Hm by (intros k'; by left).
  pose proof (fold_touched m (values m) Hl m Hm k) as Hk.
  destruct (m !! k) as [st|] eqn:Hst; simpl.
  - unfold afterExpiry. destruct (isExpired now st) eqn:Hexp.
    + rewrite <- (Hkeyed _ _ Hst).
      apply (fold_hits m (values m) Hl m Hm); [|done].
      apply elem_of_values. by exists k.
    + destruct Hk as [->|(st' & Hst' & Hexp' & _)]; [done|].
      assert (st' = st) as -> by congruence. congruence.
  - destruct Hk as [->|(st' & Hst' & _)]; [done|congruence].
Qed.
End LazyExpiry.

Section Pass.
Implicit Types (s : Store) (now : Z).

Lemma evaluateStudent_runs dismissed s student :
  runs (evaluateStudent dismissed student) s s (verdict dismissed s student).
Proof.
  pose proof (evaluateStudent_run dismissed student s _ (assess_run student s)) as Hrun.
  unfold run in Hrun. unfold runs, verdict.
  destruct (evaluateStudent dismissed student (connect s)) as [c r] eqn:Hc.
  pose proof (evaluateStudent_unchanged dismissed student _ _ _ Hc) as Hkept.
  injection Hrun as Hstore ->. f_equal.
  destruct c as [s0 b]. simpl in *.
  assert (b = None) as ->.
  { revert Hc. unfold evaluateStudent, assess, whereToArray, whereCount, read,
      bind, call, ret. simpl.
    repeat match goal with
           | |- context [if ?b then _ else _] => destruct b
           end; by intros [= _ <-]. }
  by rewrite Hstore.
Qed.

Lemma evaluateEach_runs dismissed studentList s :
  runs (evaluateEach dismissed studentList) s s
       (flat_map (verdict dismissed s) studentList).
Proof.
  induction studentList as [|student rest IH]; simpl; [done|].
  eapply runs_bind; [apply evaluateStudent_runs|].
  eapply runs_bind; [apply IH|]. done.
Qed.

Lemma verdict_frame dismissed s s' student :
  loans s' = loans s → blacklistEntries s' = blacklistEntries s →
  verdict dismissed s' student = verdict dismissed s student.
Proof. intros Hl Hb. unfold verdict. by rewrite Hl, Hb. Qed.

Lemma checkAtRiskStudents_runs dismissed now s :
  ∃ s', runs (checkAtRiskStudents dismissed now) s s'
             (flat_map (verdict dismissed s) (values (students s)))
        ∧ studentsOnly s s'
        ∧ students s' = foldl (expireRow now) (students s) (values (students s)).
Proof.
  destruct (expire_all_runs now (values (students s)) s) as (s' & Hexp & Hkept & Hrows).
  exists s'. split; [|done].
  unfold checkAtRiskStudents.
  eapply runs_bind; [reflexivity|]. simpl.
  eapply runs_bind; [exact Hexp|].
  destruct Hkept as (Hl & _ & Hb).
  rewrite (flat_map_ext (verdict dismissed s) (verdict dismissed s')).
  - apply evaluateEach_runs.
  - intros student. symmetry. by apply verdict_frame.
Qed.

Lemma inactiveSuspensions_inactive allSuspensions e :
  e ∈ inactiveSuspensions allSuspensions → is_active e = false.
Proof.
  unfold inactiveSuspensions. rewrite merge_sort_Permutation.
  intros [_ Hact]%elem_of_filter_bool. by apply negb_true_iff.
Qed.
End Pass.

Lemma elem_of_flagged dismissed s (l : list Student) a :
  a ∈ flat_map (verdict dismissed s) l
  ↔ ∃ student, student ∈ l ∧ a ∈ verdict dismissed s student.
Proof.
  rewrite list_elem_of_In, in_flat_map. setoid_rewrite list_elem_of_In. done.
Qed.

Lemma elem_of_verdict dismissed s student a0 a :
  run (assess student) s = (s, inr a0) →
  a ∈ verdict dismissed s student
  ↔ a = a0 ∧ atRisk a0 = true
    ∧ dismissed (st_id student) (late_returns_since_suspension a0) = false.
Proof.
  rewrite assess_run. intros [= <-]. unfold verdict.
  destruct (atRisk _) eqn:Hrisk; simpl.
  - destruct (dismissed _ _) eqn:Hd; simpl.
    + rewrite elem_of_nil. split; [done|]. by intros (_ & _ & ?).
    + rewrite list_elem_of_singleton. split; [done|]. by intros (? & _ & _).
  - rewrite elem_of_nil. split; [done|]. by intros (_ & ? & _).
Qed.

(** C8. The at-risk pass completes, and its list holds, for each stored
    student, the figures computed for that student when the student passes
    the at-risk test and the warning for that count was not dismissed, and
    nothing else.  The number of late returns since the last suspension is
    the reference count: returned loans with [returned_at > due_at] and
    [returned_at] later than the end date of the most recent closed
    suspension, or than the epoch when there is none.  The warning threshold
    is 1 when the student has any suspension entry and 3 otherwise, and the
    test is passed exactly when the count reaches the threshold.  So without
    suspension history a student with two late returns is not listed and one
    with three is, and with a suspension on record one late return since it
    ended lists the student. *)
Theorem at_risk_test_spec (dismissed : string → nat → bool) (now : Z) (s : Store) :
  ∃ s' flagged,
    run (checkAtRiskStudents dismissed now) s = (s', inr flagged)
    ∧ (∀ a, a ∈ flagged → ∃ k, students s !! k = Some (ar_student a))
    ∧ ∀ student,
        ∃ a cutoff,
          run (assess student) s = (s, inr a)
          ∧ ar_student a = student
          ∧ isCutoff (st_id student) s cutoff
          ∧ late_returns_since_suspension a
            = lateReturnsSince_ref (st_id student) s cutoff
          ∧ warning_threshold a = warningThreshold_ref (st_id student) s
          ∧ (atRisk a = true
             ↔ (warningThreshold_ref (st_id student) s
                ≤ lateReturnsSince_ref (st_id student) s cutoff)%nat)
          ∧ (∀ a', a' ∈ flagged ∧ ar_student a' = student
                   ↔ (∃ k, students s !! k = Some student)
                     ∧ a' = a ∧ atRisk a = true
                     ∧ dismissed (st_id student)
                         (late_returns_since_suspension a) = false)
          ∧ ((∃ k, students s !! k = Some student) →
             suspensionsOf (st_id student) s = ∅ →
             (lateReturnsSince_ref (st_id student) s 0 = 2%nat →
              ∀ a', a' ∈ flagged → ar_student a' ≠ student)
             ∧ (lateReturnsSince_ref (st_id student) s 0 = 3%nat →
                dismissed (st_id student) 3%nat = false → a ∈ flagged))
          ∧ ((∃ k, students s !! k = Some student) →
             suspensionsOf (st_id student) s ≠ ∅ →
             lateReturnsSince_ref (st_id student) s cutoff = 1%nat →
             dismissed (st_id student) 1%nat = false → a ∈ flagged).
Proof.
  destruct (checkAtRiskStudents_runs dismissed now s) as (s' & Hrun & _ & _).
  set (flagged := flat_map (verdict dismissed s) (values (students s))) in *.
  assert (Hstudent : ∀ student a0 a,
            run (assess student) s = (s, inr a0) →
            a ∈ verdict dismissed s student → ar_student a = student).
  { intros student a0 a Ha0 Ha. apply (elem_of_verdict _ _ _ a0) in Ha as [-> _]; [|done].
    rewrite assess_run in Ha0. by injection Ha0 as <-. }
  exists s', flagged. split; [by apply runs_run|]. split.
  { intros a (student & Hin & Ha)%elem_of_flagged.
    rewrite (Hstudent student _ a (assess_run student s) Ha).
    by apply elem_of_values. }
  intros student.
  destruct (assess_spec student s)
    as (a & cutoff & Ha & Hcut & Hlate & Hthr & Hrisk & _ & Hfirst & Hrepeat).
  assert (Hlisted : ∀ a', a' ∈ flagged ∧ ar_student a' = student
            ↔ (∃ k, students s !! k = Some student)
              ∧ a' = a ∧ atRisk a = true
              ∧ dismissed (st_id student) (late_returns_since_suspension a) = false).
  { intros a'. split.
    - intros [(student' & Hin & Ha')%elem_of_flagged Hst].
      assert (student' = student) as ->.
      { rewrite <- Hst. symmetry.
        exact (Hstudent student' _ a' (assess_run student' s) Ha'). }
      split; [by apply elem_of_values|].
      by apply (elem_of_verdict dismissed s student a a').
    - intros (Hstored & -> & Hr & Hd).
      assert (a ∈ verdict dismissed s student) as Hin
        by (by apply (elem_of_verdict dismissed s student a a)).
      split; [|by apply (Hstudent student a a)].
      apply elem_of_flagged. exists student. split; [|done].
      by apply elem_of_values. }
  exists a, cutoff.
  split; [done|].
  split; [rewrite assess_run in Ha; by injection Ha as <-|].
  do 4 (split; [done|]). split; [exact Hlisted|]. split.
  - intros Hstored Hnone. destruct (Hfirst Hnone) as [Htwo Hthree]. split.
    + intros H2 a' Ha' Hst. destruct (proj1 (Hlisted a') (conj Ha' Hst))
        as (_ & _ & Hr & _). rewrite (Htwo H2) in Hr. done.
    + intros H3 Hd.
      assert (cutoff = 0) as ->.
      { destruct Hcut as [[_ ->]|(k & e & Hk & _)]; [done|].
        unfold closedSuspensionsOf in Hk. rewrite Hnone, map_filter_empty in Hk.
        by rewrite lookup_empty in Hk. }
      apply (Hlisted a). split; [done|]. split; [done|].
      split; [by apply Hthree|]. by rewrite Hlate, H3.
  - intros Hstored Hsome Hone Hd.
    apply (Hlisted a). split; [done|]. split; [done|].
    split; [by apply Hrepeat|]. by rewrite Hlate, Hone.
Qed.

(** Three late returns and no suspension on record: the pass lists the
    pupil. *)
Lemma three_late_returns_pass :
  ∃ s' flagged a,
    run (checkAtRiskStudents (λ _ _, false) 1000) threeLate = (s', inr flagged)
    ∧ a ∈ flagged ∧ ar_student a = pupil "s1" (100 # 1).
Proof.
  destruct (at_risk_test_spec (λ _ _, false) 1000 threeLate)
    as (s' & flagged & Hrun & _ & Hall).
  destruct (Hall (pupil "s1" (100 # 1)))
    as (a & cutoff & _ & Hst & _ & _ & _ & _ & _ & Hfirst & _).
  exists s', flagged, a. split; [exact Hrun|]. split; [|exact Hst].
  apply Hfirst; [by exists "s1" | vm_compute; reflexivity.. | reflexivity].
Defined.

(** C10. The at-risk pass always completes.  Its lazy expiry rewrites student
    rows only: an expired student gets [is_blacklisted = false], no end date,
    no reason and a new [updated_at]; every other student row, every loan,
    every item and every suspension entry is left as it was, so an entry
    that was active stays active; loans, items and entries are left alone
    even when the store rejects a call.  The figures of the pass are those
    computed on the store as it was before the expiry, and the lookup of the
    most recent closed suspension only ever finds inactive entries: the
    cutoff is the end date of the most recent entry that was already closed
    before the pass, or the epoch. *)
Theorem lazy_expiry_rewrites_students_only
    (dismissed : string → nat → bool) (now : Z) (s : Store) :
  keyed db_students s →
  respects studentsOnly (checkAtRiskStudents dismissed now)
  ∧ ∃ s' out,
    run (checkAtRiskStudents dismissed now) s = (s', inr out)
    ∧ blacklistEntries s' = blacklistEntries s
    ∧ loans s' = loans s
    ∧ equipment s' = equipment s
    ∧ (∀ k, students s' !! k = afterExpiry now <$> students s !! k)
    ∧ run (evaluateEach dismissed (values (students s))) s = (s, inr out)
    ∧ (∀ studentId e,
         e ∈ inactiveSuspensions
               (List.filter (entryOf studentId) (values (blacklistEntries s'))) →
         is_active e = false)
    ∧ (∀ studentId,
         isCutoff studentId s
           (lastSuspensionDate
              (List.filter (entryOf studentId) (values (blacklistEntries s')))))
    ∧ (∀ k e, blacklistEntries s !! k = Some e → is_active e = true →
              ∃ e', blacklistEntries s' !! k = Some e' ∧ is_active e' = true).
Proof.
  intros Hkeyed. split; [apply checkAtRiskStudents_studentsOnly|].
  destruct (checkAtRiskStudents_runs dismissed now s) as (s' & Hrun & Hkept & Hrows).
  destruct Hkept as (Hl & He & Hb).
  exists s', (flat_map (verdict dismissed s) (values (students s))).
  split; [by apply runs_run|].
  split; [done|]. split; [done|]. split; [done|].
  split; [intros k; rewrite Hrows; by apply expire_rows|].
  split; [apply runs_run, evaluateEach_runs|].
  split; [intros studentId e; apply inactiveSuspensions_inactive|].
  split; [intros studentId; rewrite Hb; apply lastSuspensionDate_cutoff|].
  intros k e Hk Hact. exists e. by rewrite Hb.
Qed.

Lemma lapsed_suspension_stays_active :
  ∃ s' out,
    run (checkAtRiskStudents (λ _ _, false) 6000) suspendedOnce = (s', inr out)
    ∧ (is_blacklisted <$> students s' !! "s1") = Some false
    ∧ (is_active <$> blacklistEntries s' !! "b1") = Some true.
Proof.
  destruct (lazy_expiry_rewrites_students_only (λ _ _, false) 6000 suspendedOnce)
    as (_ & s' & out & Hrun & Hb & _ & _ & Hrows & _).
  - apply (bool_decide_unpack _). vm_compute. exact I.
  - exists s', out. split; [exact Hrun|].
    rewrite Hrows, Hb. split; vm_compute; reflexivity.
Defined.

(** * Further handlers *)

(** ** Loan status and stored score *)

Section DerivedFields.
Implicit Types (s : Store) (now : Z) (l : Loan).

Lemma statusCurrent_derived now due back (l : Loan) :
  returned_at l = back → due_at l = due →
  is_overdue l = overdueAt now (isSome back) due →
  ln_status l = statusFor (isSome back) (overdueAt now (isSome back) due) →
  statusCurrent now l.
Proof.
  intros Hback Hdue Hov Hst. unfold statusCurrent.
  rewrite Hst, Hov, Hback, Hdue. unfold statusFor, overdueAt.
  destruct back as [r|]; simpl.
  - repeat split; try done; intros H; try done; by destruct H.
  - destruct (due <? now) eqn:Hlt; simpl.
    + apply Z.ltb_lt in Hlt. repeat split; try done; intros H; by destruct H.
    + apply Z.ltb_ge in Hlt.
      repeat split; try done; intros H; try done; destruct H; lia.
Qed.

Lemma isReturned_isSome l : isReturned l = isSome (returned_at l).
Proof. reflexivity. Qed.

Lemma updateLoanStatus_effect now loanId s :
  ∃ s', runs (updateLoanStatus now loanId) s s' tt
    ∧ students s' = students s ∧ equipment s' = equipment s
    ∧ blacklistEntries s' = blacklistEntries s
    ∧ loans s'
      = alter (λ l, setDerived (overdueAt now (isReturned l) (due_at l))
                      (statusFor (isReturned l)
                         (overdueAt now (isReturned l) (due_at l))) l)
              loanId (loans s).
Proof.
  unfold runs, updateLoanStatus, update, get, read, write, bind, call, ret. simpl.
  destruct (loans s !! loanId) as [l|] eqn:Hl; simpl.
  - eexists. split; [reflexivity|]. simpl. repeat split.
    apply map_eq. intros k. destruct (decide (loanId = k)) as [<-|Hne].
    + by rewrite !lookup_alter_eq, Hl.
    + by rewrite !lookup_alter_ne.
  - exists s. split; [reflexivity|]. repeat split.
    symmetry. by apply alter_absent.
Qed.
End DerivedFields.

(** X1. [updateLoanStatus] always completes.  On an unknown loan id it
    changes nothing.  On a stored loan it rewrites only [is_overdue] and
    [status] of that loan, after which the status is [returned] exactly when
    [returned_at] is set and [overdue] exactly when it is not and the due
    date is before [now]; no other loan and no other table changes. *)
Theorem updateLoanStatus_spec (now : Z) (loanId : string) (s : Store) :
  ∃ s',
    run (updateLoanStatus now loanId) s = (s', inr tt)
    ∧ students s' = students s ∧ equipment s' = equipment s
    ∧ blacklistEntries s' = blacklistEntries s
    ∧ (∀ k, k ≠ loanId → loans s' !! k = loans s !! k)
    ∧ (loans s !! loanId = None → loans s' = loans s)
    ∧ (∀ l, loans s !! loanId = Some l →
         ∃ l', loans s' !! loanId = Some l'
               ∧ sameLoanFacts l l' ∧ due_at l' = due_at l
               ∧ statusCurrent now l').
Proof.
  destruct (updateLoanStatus_effect now loanId s) as (s' & Hrun & Hs & He & Hb & Hl).
  exists s'. split; [by apply runs_run|]. do 3 (split; [done|]).
  split; [intros k Hk; rewrite Hl; by apply lookup_alter_ne|].
  split; [intros Hnone; rewrite Hl; by apply alter_absent|].
  intros l Hlk. eexists. split; [rewrite Hl; by apply alter_lookup_Some|].
  split; [done|]. split; [done|].
  by eapply statusCurrent_derived.
Qed.

(** X2. Refreshing a loan's status twice leaves the store as the later
    refresh alone would: the derived fields depend only on the dates and the
    time of the last refresh, so the refresh is idempotent. *)
Theorem updateLoanStatus_last_wins (now1 now2 : Z) (loanId : string) (s : Store) :
  exec (updateLoanStatus now2 loanId) (exec (updateLoanStatus now1 loanId) s)
  = exec (updateLoanStatus now2 loanId) s.
Proof.
  unfold exec, run, updateLoanStatus, update, get, read, write, bind, call, ret. simpl.
  destruct (loans s !! loanId) as [l|] eqn:Hl; simpl.
  - rewrite lookup_alter_eq, Hl. simpl. f_equal.
    apply map_eq. intros k. destruct (decide (loanId = k)) as [<-|Hne].
    + by rewrite !lookup_alter_eq, Hl.
    + by rewrite !lookup_alter_ne.
  - by rewrite Hl.
Qed.

Section StoredScore.
Implicit Types (s : Store) (now : Z).

Lemma updateStudentTrustScore_effect now studentId s :
  ∃ s', runs (updateStudentTrustScore now studentId) s s' tt
    ∧ loans s' = loans s ∧ equipment s' = equipment s
    ∧ blacklistEntries s' = blacklistEntries s
    ∧ students s' = alter (setTrustScore (computeTrustScore_ref studentId s) now)
                          studentId (students s).
Proof.
  unfold runs, updateStudentTrustScore, update, calculateTrustScore, whereToArray,
    read, write, bind, call, ret. simpl.
  eexists. split; [reflexivity|]. simpl. by rewrite <- trustScoreOf_ref.
Qed.

Lemma computeTrustScore_ref_bounds studentId s :
  inBounds (computeTrustScore_ref studentId s).
Proof. rewrite <- trustScoreOf_ref. apply trustScoreOf_bounds. Qed.
End StoredScore.


(** ** Editing a due date *)

Section EditLoan.
Implicit Types (s : Store) (now : Z).

Lemma handleEditLoan_effect now studentId sel due s :
  ∃ s', runs (handleEditLoan now studentId (Some sel) (Some due)) s s' tt
    ∧ equipment s' = equipment s
    ∧ blacklistEntries s' = blacklistEntries s
    ∧ loans s'
      = alter (setDueDate due (overdueAt now (isSome (la_returned_at sel)) due)
                 (statusFor (isSome (la_returned_at sel))
                    (overdueAt now (isSome (la_returned_at sel)) due)))
              (la_id sel) (loans s)
    ∧ students s' = alter (setTrustScore (computeTrustScore_ref studentId s') now)
                          studentId (students s).
Proof.
  unfold runs, handleEditLoan, update, calculateTrustScore, whereToArray,
    read, write, bind, call, ret. simpl.
  eexists. split; [reflexivity|]. simpl. by rewrite <- trustScoreOf_ref.
Qed.
End EditLoan.


(** ** Deleting students and items *)

Section Deleting.
Implicit Types (s : Store) (ids : list string).

Lemma removeStudent_connect studentId s :
  removeStudent studentId (connect s)
  = (connect
       {| students := base.delete studentId (students s);
          equipment := equipment s; loans := loans s;
          blacklistEntries :=
            filter (λ kv, entryOf studentId kv.2 = false) (blacklistEntries s) |},
     inr tt).
Proof. reflexivity. Qed.

Lemma entry_kept studentId (m : gmap string BlacklistEntry) k e :
  filter (λ kv, entryOf studentId kv.2 = false) m !! k = Some e
  ↔ m !! k = Some e ∧ bl_student_id e ≠ studentId.
Proof.
  rewrite map_lookup_filter_Some. simpl. unfold entryOf, eqs.
  rewrite bool_decide_eq_false. done.
Qed.

Lemma removeAll_runs ids :
  ∀ s, ∃ s', runs (forEach ids removeStudent) s s' tt
    ∧ loans s' = loans s ∧ equipment s' = equipment s
    ∧ (∀ k, students s' !! k = if decide (k ∈ ids) then None else students s !! k)
    ∧ (∀ k e, blacklistEntries s' !! k = Some e
              ↔ blacklistEntries s !! k = Some e ∧ bl_student_id e ∉ ids)
    ∧ s' = foldl (λ s0 id, exec (handleDeleteStudent true id) s0) s ids.
Proof.
  induction ids as [|id ids IH]; intros s.
  - exists s. split; [done|]. split; [done|]. split; [done|].
    split; [done|]. split; [|done].
    intros k e. split; [|by intros [? _]].
    intros Hk. split; [done|]. apply not_elem_of_nil.
  - destruct (IH {| students := base.delete id (students s);
                    equipment := equipment s; loans := loans s;
                    blacklistEntries :=
                      filter (λ kv, entryOf id kv.2 = false) (blacklistEntries s) |})
      as (s' & Hrun & Hl & He & Hs & Hb & Hfold).
    exists s'. split.
    { simpl. eapply runs_bind; [apply removeStudent_connect | exact Hrun]. }
    split; [done|]. split; [done|]. split; [|split].
    + intros k. rewrite Hs. simpl.
      destruct (decide (k ∈ ids)) as [Hin|Hnin].
      * rewrite decide_True; [done | by right].
      * destruct (decide (k = id)) as [->|Hne].
        -- rewrite decide_True by (by left). apply lookup_delete_eq.
        -- rewrite decide_False by (by rewrite elem_of_cons; intros [?|?]).
           by apply lookup_delete_ne.
    + intros k e. rewrite Hb. simpl. rewrite entry_kept, elem_of_cons.
      split.
      * intros [[Hk Hid] Hnin]. split; [done|]. by intros [?|?].
      * intros [Hk Hnin]. split; [split; [done|]|]; intros ?; apply Hnin; auto.
    + exact Hfold.
Qed.
End Deleting.

(** X5. [handleDeleteStudent] does nothing when the dialog is declined.
    Otherwise it always completes: the student row is gone, every
    suspension entry of that student is gone and every other entry stays,
    and loans and equipment are not touched, so the student's open loans
    remain and their items stay borrowed.  Whatever call the store rejects,
    a failed deletion leaves the store as it was. *)
Theorem handleDeleteStudent_spec (studentId : string) (s : Store) :
  run (handleDeleteStudent false studentId) s = (s, inr tt)
  ∧ (∃ s',
       run (handleDeleteStudent true studentId) s = (s', inr tt)
       ∧ students s' = base.delete studentId (students s)
       ∧ (∀ k e, blacklistEntries s' !! k = Some e
                 ↔ blacklistEntries s !! k = Some e ∧ bl_student_id e ≠ studentId)
       ∧ suspensionsOf studentId s' = ∅
       ∧ loans s' = loans s ∧ equipment s' = equipment s
       ∧ (∀ equipmentId, openLoans equipmentId s' = openLoans equipmentId s))
  ∧ (∀ confirmed c c' e,
       handleDeleteStudent confirmed studentId c = (c', inl e) → store c' = store c).
Proof.
  split; [reflexivity|]. split.
  - eexists. split; [reflexivity|]. simpl.
    split; [done|]. split; [apply entry_kept|]. split; [|done].
    apply map_empty. intros k. unfold suspensionsOf. simpl.
    apply map_lookup_filter_None. right. intros e He Hid. simpl in Hid.
    apply entry_kept in He as [_ Hne]. done.
  - intros [|] c c' e; simpl.
    + apply transaction_rolls_back.
    + by intros [=].
Qed.

(** X6. [handleBulkDelete] always completes when the store accepts its
    calls: exactly the selected students are gone, exactly the suspension
    entries of selected students are gone, loans and equipment are not
    touched, and the outcome is that of deleting the selected students one
    after the other, so it does not depend on the order of the selection.
    Whatever call the store rejects, a failed bulk deletion leaves the store
    as it was. *)
Theorem handleBulkDelete_spec (selectedStudents : list string) (s : Store) :
  (∃ s',
     run (handleBulkDelete selectedStudents) s = (s', inr tt)
     ∧ (∀ k, students s' !! k
             = if decide (k ∈ selectedStudents) then None else students s !! k)
     ∧ (∀ k e, blacklistEntries s' !! k = Some e
               ↔ blacklistEntries s !! k = Some e
                 ∧ bl_student_id e ∉ selectedStudents)
     ∧ loans s' = loans s ∧ equipment s' = equipment s
     ∧ s' = foldl (λ s0 id, exec (handleDeleteStudent true id) s0) s selectedStudents)
  ∧ (∀ c c' e,
       handleBulkDelete selectedStudents c = (c', inl e) → store c' = store c).
Proof.
  split.
  - destruct (removeAll_runs selectedStudents s) as (s' & Hrun & Hl & He & Hs & Hb & Hfold).
    exists s'. split; [|done].
    destruct selectedStudents as [|id ids].
    + injection Hrun as <-. reflexivity.
    + unfold handleBulkDelete, run, transaction. by rewrite Hrun.
  - intros c c' e. destruct selectedStudents as [|id ids]; simpl.
    + by intros [=].
    + apply transaction_rolls_back.
Qed.

(** X7. The inventory's [handleDelete] does nothing when the dialog is
    declined; otherwise it removes the item whatever its status and never
    looks at the loans: every loan stays, so an open loan of the deleted item
    stays open.  The invariant "an item on file is borrowed iff exactly one
    open loan references it" still holds afterwards, although deleting the
    lent ball leaves its open loan without an item. *)
Theorem handleDelete_spec (confirmed : bool) (id : string) (s : Store) :
  ∃ s',
    run (handleDelete confirmed id) s = (s', inr tt)
    ∧ equipment s' = (if confirmed then base.delete id (equipment s) else equipment s)
    ∧ loans s' = loans s ∧ students s' = students s
    ∧ blacklistEntries s' = blacklistEntries s
    ∧ (∀ equipmentId, openLoans equipmentId s' = openLoans equipmentId s)
    ∧ (consistent s → consistent s')
    ∧ (openLoans "e1" (exec (handleDelete true "e1") ballLent) = 1%nat
       ∧ equipment (exec (handleDelete true "e1") ballLent) !! "e1" = None).
Proof.
  assert (openLoans "e1" (exec (handleDelete true "e1") ballLent) = 1%nat
          ∧ equipment (exec (handleDelete true "e1") ballLent) !! "e1" = None) as Hball
    by (split; vm_compute; reflexivity).
  destruct confirmed.
  - eexists. split; [reflexivity|]. simpl. do 5 (split; [done|]).
    split; [|done].
    intros Hs equipmentId e He. simpl in He.
    destruct (decide (id = equipmentId)) as [->|Hne].
    + by rewrite lookup_delete_eq in He.
    + rewrite lookup_delete_ne in He by done. by apply Hs.
  - exists s. split; [reflexivity|]. do 5 (split; [done|]). done.
Qed.

(** ** The borrow flow *)

Section Selection.
Implicit Types (prev : list string) (itemId : string).

Lemma includes_spec prev itemId : includes prev itemId = true ↔ itemId ∈ prev.
Proof. unfold includes. apply bool_decide_eq_true. Qed.

Lemma elem_of_toggled prev itemId x :
  x ∈ toggled itemId prev ↔ (x ≠ itemId ∧ x ∈ prev) ∨ (x = itemId ∧ itemId ∉ prev).
Proof.
  unfold toggled. destruct (includes prev itemId) eqn:Hin.
  - apply includes_spec in Hin.
    rewrite elem_of_filter_bool, negb_true_iff. unfold eqs.
    rewrite bool_decide_eq_false. split.
    + intros [? ?]. by left.
    + intros [[? ?]|[_ ?]]; done.
  - assert (itemId ∉ prev) as Hnin.
    { intros H. apply includes_spec in H. congruence. }
    rewrite elem_of_app, list_elem_of_singleton. split.
    + intros [Hx| ->]; [left|right]; [|done]. split; [|done]. by intros ->.
    + intros [[? ?]|[? _]]; auto.
Qed.

Lemma filter_bool_NoDup {A} (p : A → bool) (l : list A) :
  NoDup l → NoDup (List.filter p l).
Proof.
  induction 1 as [|x l Hx _ IH]; simpl; [constructor|].
  destruct (p x); [|done]. constructor; [|done].
  rewrite elem_of_filter_bool. by intros [? _].
Qed.

Lemma toggled_NoDup prev itemId : NoDup prev → NoDup (toggled itemId prev).
Proof.
  intros Hnd. unfold toggled. destruct (includes prev itemId) eqn:Hin.
  - by apply filter_bool_NoDup.
  - apply NoDup_app. split; [done|]. split; [|apply NoDup_singleton].
    intros x Hx ->%list_elem_of_singleton.
    apply includes_spec in Hx. congruence.
Qed.

Lemma filter_absent prev itemId :
  itemId ∉ prev → List.filter (λ id, negb (eqs id itemId)) prev = prev.
Proof.
  induction prev as [|x prev IH]; intros Hnin; simpl; [done|].
  apply not_elem_of_cons in Hnin as [Hne Hnin]. unfold eqs at 1.
  rewrite bool_decide_eq_false_2 by done. simpl. by rewrite IH.
Qed.

Lemma toggled_twice_fresh prev itemId :
  itemId ∉ prev → toggled itemId (toggled itemId prev) = prev.
Proof.
  intros Hnin. unfold toggled at 2.
  destruct (includes prev itemId) eqn:Hin; [by apply includes_spec in Hin|].
  unfold toggled.
  assert (includes (prev ++ [itemId]) itemId = true) as ->
    by (apply includes_spec, elem_of_app; right; by left).
  rewrite List.filter_app. simpl. unfold eqs at 2.
  rewrite bool_decide_eq_true_2 by done. simpl.
  rewrite app_nil_r. by apply filter_absent.
Qed.
End Selection.

(** X8. [toggleEquipmentSelect] ignores an item that is not available.  For
    an available item it adds the id when it was not selected and removes it
    when it was, changing the membership of no other id; it keeps a
    duplicate-free selection duplicate-free; and ticking an unselected item
    and then unticking it gives back the selection exactly. *)
Theorem toggleEquipmentSelect_spec (itemId : string) (f : BorrowFlow) :
  (∀ st, st ≠ available → toggleEquipmentSelect itemId st f = f)
  ∧ (∀ x, x ∈ selectedEquipment (toggleEquipmentSelect itemId available f)
          ↔ (x ≠ itemId ∧ x ∈ selectedEquipment f)
            ∨ (x = itemId ∧ itemId ∉ selectedEquipment f))
  ∧ (NoDup (selectedEquipment f) →
     NoDup (selectedEquipment (toggleEquipmentSelect itemId available f)))
  ∧ (itemId ∉ selectedEquipment f →
     toggleEquipmentSelect itemId available
       (toggleEquipmentSelect itemId available f) = f).
Proof.
  split; [|split; [|split]].
  - intros st Hst. unfold toggleEquipmentSelect. by rewrite decide_False.
  - intros x. apply elem_of_toggled.
  - apply toggled_NoDup.
  - intros Hnin. unfold toggleEquipmentSelect. simpl.
    rewrite toggled_twice_fresh by done. by destruct f.
Qed.

Section Flow.
Implicit Types (f : BorrowFlow).

Lemma flowReady_initial : flowReady initialFlow.
Proof.
  split; [constructor|]. split; [done|]. split; [done|].
  unfold MIN_DURATION, MAX_DURATION. simpl. unfold DEFAULT_DURATION. lia.
Qed.

Lemma click_flowReady f f' : click f f' → flowReady f → flowReady f'.
Proof.
  intros Hclick (Hnd & Hsel & Hstu & Hdur). destruct Hclick as
    [itemId st f Hstep | f Hstep Hne | q f Hstep | f Hstep | student f Hstep
    | f Hstep | f Hstep | d f Hstep Hd].
  - unfold toggleEquipmentSelect. destruct (decide (st = available)); [|done].
    split; [by apply toggled_NoDup|]. simpl.
    split; [by rewrite Hstep|]. split; [by rewrite Hstep|done].
  - split; [done|]. split; [done|]. split; [done|done].
  - split; [done|]. split; [done|]. split; [|done]. simpl. intros H. done.
  - split; [done|]. split; [done|]. split; [done|done].
  - unfold handleStudentSelect. destruct (is_blacklisted student) eqn:Hbl.
    + split; [done|]. split; [done|]. simpl. split; [by rewrite Hstep|done].
    + split; [done|]. simpl. split; [intros _; apply Hsel; by rewrite Hstep|].
      split; [|done]. intros _. by exists student.
  - split; [done|]. split; [done|]. split; [|done]. simpl. by rewrite Hstep.
  - split; [done|]. simpl. split; [intros _; apply Hsel; by rewrite Hstep|].
    split; [done|done].
  - split; [done|]. split; [done|]. split; [done|done].
Qed.
End Flow.

Section DueTime.
Variable LocalTZA : Z → bool → Z.

(** Putting the fields of a time value back together, with [d] minutes
    added to the minutes field. *)
Lemma MakeDate_fields (t d : Z) :
  MakeDate (Day t)
    (MakeTime (HourFromTime t) (MinFromTime t + d) (SecFromTime t) (msFromTime t))
  = t + d * msPerMinute.
Proof.
  unfold MakeDate, MakeTime, Day, HourFromTime, MinFromTime, SecFromTime, msFromTime,
    msPerDay, msPerHour, msPerMinute, msPerSecond.
  assert (H1 : t / 86400000 = t / 3600000 / 24)
    by (rewrite Z.div_div; [reflexivity|lia..]).
  assert (H2 : t / 3600000 = t / 60000 / 60)
    by (rewrite Z.div_div; [reflexivity|lia..]).
  assert (H3 : t / 60000 = t / 1000 / 60)
    by (rewrite Z.div_div; [reflexivity|lia..]).
  pose proof (Z.div_mod (t / 3600000) 24 ltac:(lia)).
  pose proof (Z.div_mod (t / 60000) 60 ltac:(lia)).
  pose proof (Z.div_mod (t / 1000) 60 ltac:(lia)).
  pose proof (Z.div_mod t 1000 ltac:(lia)).
  lia.
Qed.

(** [dueTime] is the instant at which the local clock shows the time it
    showed at [started], moved on by [d] minutes. *)
Lemma setMinutes_getMinutes (started d : Z) :
  setMinutes LocalTZA started (getMinutes LocalTZA started + d)
  = UTC LocalTZA (LocalTime LocalTZA started + d * msPerMinute).
Proof. unfold setMinutes, getMinutes. cbv zeta. by rewrite MakeDate_fields. Qed.

(** Where the zone offset is the same at both ends, that is [d] minutes
    after [started]. *)
Lemma setMinutes_same_offset (started d : Z) :
  LocalTZA (LocalTime LocalTZA started + d * msPerMinute) false
  = LocalTZA started true →
  setMinutes LocalTZA started (getMinutes LocalTZA started + d)
  = started + d * msPerMinute.
Proof.
  intros Hsame. rewrite setMinutes_getMinutes. unfold UTC. rewrite Hsame.
  unfold LocalTime. lia.
Qed.
End DueTime.

(** X9. In every state the borrow flow can reach from its initial state, the
    selection is duplicate-free, it is non-empty once the flow has left the
    equipment step, the confirm step is only ever shown for a student whose
    row was not blacklisted when it was selected, and the duration is within
    5 and 480 minutes.  So "Confirm Handover" never takes the early return of
    [handleConfirm]: it runs the loan creation for that student over the
    selection. *)
Theorem borrow_flow_invariant (LocalTZA : Z → bool → Z) (uuid : nat → string)
    (user : option string) (started now : Z) (f : BorrowFlow) :
  rtc click initialFlow f →
  flowReady f
  ∧ (flowStep f = stepConfirm →
     ∃ student,
       selectedStudent f = Some student
       ∧ is_blacklisted student = false
       ∧ confirmHandover LocalTZA uuid user started now f
         = borrowEach uuid 0 (st_id student) user now
             (setMinutes LocalTZA started
                (getMinutes LocalTZA started + selectedDuration f))
             (selectedEquipment f)).
Proof.
  intros Hreach.
  assert (flowReady f) as Hready.
  { pose proof flowReady_initial as H0. revert H0.
    induction Hreach as [f|f1 f2 f3 Hclick _ IH]; [done|].
    intros H1. apply IH. by apply (click_flowReady f1). }
  split; [done|]. intros Hstep.
  destruct Hready as (_ & Hsel & Hstu & _).
  destruct (Hstu Hstep) as (student & Hstudent & Hbl).
  exists student. split; [done|]. split; [done|].
  unfold confirmHandover, handleConfirm. rewrite Hstudent.
  destruct (selectedEquipment f) eqn:Hids; [|done].
  exfalso. apply Hsel; [by rewrite Hstep | done].
Qed.

Lemma flow_reaches_confirm :
  flowReady (handleStudentSelect (pupil "s1" (100 # 1))
               (setStep stepStudent
                  (setSearchQuery ""
                     (toggleEquipmentSelect "e1" available initialFlow)))).
Proof.
  apply (borrow_flow_invariant utcZone (λ _, "l1") None 0 0).
  eapply rtc_l; [apply (click_item "e1" available); reflexivity|].
  eapply rtc_l; [apply click_checkout; [reflexivity | vm_compute; discriminate]|].
  eapply rtc_l; [apply (click_select (pupil "s1" (100 # 1))); reflexivity|].
  apply rtc_refl.
Defined.

Section Borrowing.
Implicit Types (s : Store) (now : Z) (ids : list string).

Lemma markBorrowed_twice now (o : option EquipmentItem) :
  markBorrowed now <$> (markBorrowed now <$> o) = markBorrowed now <$> o.
Proof. by destruct o. Qed.

Lemma borrowEach_runs uuid studentId user now due ids :
  ∀ i s,
    (∀ j, (j < length ids)%nat → loans s !! uuid (i + j)%nat = None) →
    (∀ j j', (j < length ids)%nat → (j' < length ids)%nat →
             uuid (i + j)%nat = uuid (i + j')%nat → j = j') →
    ∃ s', runs (borrowEach uuid i studentId user now due ids) s s' tt
      ∧ students s' = students s
      ∧ blacklistEntries s' = blacklistEntries s
      ∧ (∀ j id, ids !! j = Some id →
           loans s' !! uuid (i + j)%nat
           = Some (newLoan (uuid (i + j)%nat) studentId id user now due))
      ∧ (∀ k, (∀ j, (j < length ids)%nat → uuid (i + j)%nat ≠ k) →
              loans s' !! k = loans s !! k)
      ∧ (∀ id, equipment s' !! id
               = if decide (id ∈ ids) then markBorrowed now <$> equipment s !! id
                 else equipment s !! id).
Proof.
  induction ids as [|target rest IH]; intros i s Hfree Hinj.
  - exists s. split; [done|]. repeat split; try done.
  - assert (loans s !! uuid i = None) as Hi.
    { specialize (Hfree 0%nat). rewrite Nat.add_0_r in Hfree. apply Hfree. simpl. lia. }
    assert (∀ j, (j < length rest)%nat → uuid (S i + j)%nat ≠ uuid i) as Hne.
    { intros j Hj Heq. specialize (Hinj (S j) 0%nat).
      rewrite Nat.add_0_r, Nat.add_succ_r in Hinj.
      discriminate Hinj; simpl; [lia | lia | done]. }
    destruct (IH (S i)
                {| students := students s;
                   equipment := alter (markBorrowed now) target (equipment s);
                   loans := <[uuid i := newLoan (uuid i) studentId target user now due]>
                              (loans s);
                   blacklistEntries := blacklistEntries s |})
      as (s' & Hrun & Hs & Hb & Hnew & Hold & Heq).
    { intros j Hj. simpl. rewrite lookup_insert_ne by (apply not_eq_sym; by apply Hne).
      specialize (Hfree (S j)). rewrite Nat.add_succ_r in Hfree.
      apply Hfree. simpl. lia. }
    { intros j j' Hj Hj' Heq. specialize (Hinj (S j) (S j')).
      rewrite !Nat.add_succ_r in Hinj.
      assert (S j = S j') as [= ->]; [apply Hinj; simpl; (lia || done) | done]. }
    exists s'. split.
    { unfold runs. rewrite borrowEach_cons, Hi. exact Hrun. }
    split; [done|]. split; [done|]. split; [|split].
    + intros [|j] id Hid; simpl in Hid.
      * injection Hid as <-. rewrite Nat.add_0_r.
        rewrite Hold; [simpl; apply lookup_insert_eq|].
        intros j Hj. by apply Hne.
      * rewrite Nat.add_succ_r. by apply Hnew.
    + intros k Hk. rewrite Hold.
      * simpl. apply lookup_insert_ne.
        specialize (Hk 0%nat). rewrite Nat.add_0_r in Hk. apply Hk. simpl. lia.
      * intros j Hj. specialize (Hk (S j)). rewrite Nat.add_succ_r in Hk.
        apply Hk. simpl. lia.
    + intros id. rewrite Heq. simpl.
      destruct (decide (id ∈ rest)) as [Hin|Hnin].
      * rewrite decide_True by (by right).
        destruct (decide (target = id)) as [->|Hd].
        -- rewrite lookup_alter_eq. apply markBorrowed_twice.
        -- by rewrite lookup_alter_ne.
      * destruct (decide (target = id)) as [->|Hd].
        -- rewrite decide_True by (by left). apply lookup_alter_eq.
        -- rewrite decide_False by (rewrite elem_of_cons; intros [?|?]; done).
           by apply lookup_alter_ne.
Qed.
End Borrowing.

(** X10. When the identifiers drawn for the selection are free and pairwise
    distinct, [handleConfirm] completes and creates exactly one loan per
    selected id, in order: an active, open loan of the student, borrowed at
    the second clock reading [now] and due when the local clock shows the
    time it showed at the first reading [started] moved on by
    [selectedDuration] minutes; that is [selectedDuration] minutes after
    [started] where the zone offset is the same at both ends, and an hour
    more or less across a daylight-saving change.  Every selected item on
    file becomes borrowed, whatever its status was; a selected id without an
    item still gets its loan.  No other loan, item, student or suspension
    entry changes. *)
Theorem handleConfirm_spec (LocalTZA : Z → bool → Z) (uuid : nat → string)
    (user : option string) (started now : Z) (student : Student)
    (ids : list string) (duration : Z) (s : Store) :
  freshIds uuid (length ids) s →
  ∃ s',
    run (handleConfirm LocalTZA uuid user started now (Some student) ids duration) s
    = (s', inr tt)
    ∧ students s' = students s
    ∧ blacklistEntries s' = blacklistEntries s
    ∧ (∀ j id, ids !! j = Some id →
         ∃ l, loans s' !! uuid j = Some l
              ∧ ln_id l = uuid j ∧ student_id l = st_id student
              ∧ equipment_id l = id ∧ borrowed_at l = now
              ∧ due_at l = UTC LocalTZA (LocalTime LocalTZA started + duration * 60000)
              ∧ (LocalTZA (LocalTime LocalTZA started + duration * 60000) false
                 = LocalTZA started true →
                 due_at l = started + duration * 60000)
              ∧ returned_at l = None ∧ ln_status l = active
              ∧ is_overdue l = false)
    ∧ (∀ k, (∀ j, (j < length ids)%nat → uuid j ≠ k) → loans s' !! k = loans s !! k)
    ∧ (∀ id, equipment s' !! id
             = if decide (id ∈ ids) then markBorrowed now <$> equipment s !! id
               else equipment s !! id).
Proof.
  intros [Hfree Hinj].
  destruct (borrowEach_runs uuid (st_id student) user now
              (setMinutes LocalTZA started (getMinutes LocalTZA started + duration))
              ids 0 s) as (s' & Hrun & Hs & Hb & Hnew & Hold & Heq); [done..|].
  simpl in *.
  assert (runs (handleConfirm LocalTZA uuid user started now (Some student) ids
                  duration) s s' tt) as Hrun'.
  { unfold handleConfirm. destruct ids; [|done]. exact Hrun. }
  exists s'. split; [by apply runs_run|]. split; [done|]. split; [done|].
  split; [|split; [done|done]].
  intros j id Hid. eexists. split; [by apply Hnew|].
  do 4 (split; [done|]).
  split; [apply setMinutes_getMinutes|].
  split; [apply setMinutes_same_offset|]. done.
Qed.

(** A host one hour ahead of UTC until daylight saving ends at 3 600 000,
    and on UTC from then on. *)
Lemma lending_across_the_end_of_daylight_saving :
  ∃ s', run (handleConfirm
               (λ t isUTC, if isUTC then (if t <? 3600000 then 3600000 else 0)
                           else (if t <? 7200000 then 3600000 else 0))
               numbered None 1800000 1800000 (Some (pupil "s1" (100 # 1)))
               ["e1"; "e2"] 60) twoBalls = (s', inr tt)
        ∧ (∃ l, loans s' !! "l1" = Some l ∧ equipment_id l = "e2"
                ∧ borrowed_at l = 1800000
                ∧ due_at l = 1800000 + 120 * 60000).
Proof.
  destruct (handleConfirm_spec
              (λ t isUTC, if isUTC then (if t <? 3600000 then 3600000 else 0)
                          else (if t <? 7200000 then 3600000 else 0))
              numbered None 1800000 1800000 (pupil "s1" (100 # 1))
              ["e1"; "e2"] 60 twoBalls) as (s' & Hrun & _ & _ & Hnew & _).
  - split.
    + intros j Hj. simpl in Hj.
      destruct j as [|[|j]]; [reflexivity | reflexivity | lia].
    + intros j j' Hj Hj' Heq. simpl in Hj, Hj'.
      destruct j as [|[|j]], j' as [|[|j']]; try lia; try done.
  - exists s'. split; [exact Hrun|].
    destruct (Hnew 1%nat "e2" eq_refl) as (l & Hl & _ & _ & He & Hnow & Hdue & _).
    exists l. split; [done|]. split; [done|]. split; [done|].
    rewrite Hdue. reflexivity.
Defined.



(** ** Invariants of the whole store *)

Section Preserving.
Context (Q : Store → Store → Prop) `{!Reflexive Q, !Transitive Q}.

Lemma respects_outcome {A} (m : M A) s s' : respects Q m → outcome m s s' → Q s s'.
Proof. intros Hm (b & c & r & Hrun & <-). apply (Hm _ _ _ Hrun). Qed.

Lemma outcome_exec {A} (m : M A) s : outcome m s (exec m s).
Proof.
  unfold outcome, exec, run. exists None.
  destruct (m (connect s)) as [c r] eqn:Hm. by exists c, r.
Qed.

Lemma respects_bind_post {A B} (P : A → Prop) (m : M A) (k : A → M B) :
  respects Q m →
  (∀ c c' a, m c = (c', inr a) → P a) →
  (∀ a, P a → respects Q (k a)) →
  respects Q (bind m k).
Proof.
  intros Hm Hpost Hk c c' r. unfold bind.
  destruct (m c) as [c1 [e|a]] eqn:Hmc.
  - intros [= <- _]. by eapply Hm.
  - intros Hka. etransitivity; [by eapply Hm|].
    eapply Hk; [by eapply Hpost | done].
Qed.

Lemma respects_add_fresh {R} (t : Table R) (item : R) :
  (∀ s, rows t s !! key t item = None →
        Q s (with_rows t (<[key t item := item]> (rows t s)) s)) →
  respects Q (add t item).
Proof.
  intros Hins. apply respects_bind; [done | apply respects_call; done |].
  intros _ c c' r.
  destruct (rows t (store c) !! key t item) eqn:Hfree; intros [= <- _];
    [reflexivity | by apply Hins].
Qed.

Lemma respects_bulkAdd_rows {R} (t : Table R) (items : list R) :
  (∀ s, Q s (with_rows t (bulkInsert t items (rows t s)).1 s)) →
  respects Q (bulkAdd t items).
Proof.
  intros Hins. apply respects_bind; [done | apply respects_call; done |].
  intros _ c c' r.
  pose proof (Hins (store c)) as H.
  destruct (bulkInsert t items (rows t (store c))) as [m ok].
  by intros [= <- _].
Qed.

Lemma respects_promiseAll {A} (xs : list A) (body : A → M unit) :
  (∀ x, respects Q (body x)) → respects Q (promiseAll xs body).
Proof.
  intros Hbody. induction xs as [|x xs IH]; simpl.
  { apply respects_ret; done. }
  intros c c' r. destruct (body x c) as [c1 [e|[]]] eqn:Hc.
  - destruct (promiseAll xs body c1) as [c2 r2] eqn:Hc2. simpl.
    intros [= <- _]. etransitivity; [by eapply Hbody | by eapply IH].
  - intros Hrest. etransitivity; [by eapply Hbody | by eapply IH].
Qed.
End Preserving.

Section MapForall.
Context {R : Type} (P : string → R → Prop).
Implicit Types (m : gmap string R).

Lemma map_Forall_alter_keep (f : R → R) m k :
  map_Forall P m → (∀ x, m !! k = Some x → P k (f x)) → map_Forall P (alter f k m).
Proof.
  intros Hm Hf j y Hj. destruct (decide (k = j)) as [<-|Hne].
  - rewrite lookup_alter_eq in Hj. destruct (m !! k) as [x|] eqn:Hx; [|done].
    injection Hj as <-. by apply Hf.
  - rewrite lookup_alter_ne in Hj by done. by apply Hm.
Qed.

Lemma map_Forall_bulkInsert (t : Table R) (items : list R) :
  ∀ m, map_Forall P m → Forall (λ x, P (key t x) x) items →
       map_Forall P (bulkInsert t items m).1.
Proof.
  induction items as [|item rest IH]; intros m Hm Hitems; simpl; [done|].
  apply Forall_cons in Hitems as [Hitem Hrest].
  destruct (m !! key t item); simpl; [by apply IH|].
  apply IH; [|done]. by apply map_Forall_insert_2.
Qed.

Lemma map_Forall_fmap_keep (f : R → R) m :
  map_Forall P m → (∀ k x, m !! k = Some x → P k (f x)) → map_Forall P (f <$> m).
Proof.
  intros Hm Hf j y Hj. rewrite lookup_fmap in Hj.
  destruct (m !! j) as [x|] eqn:Hx; [|done]. injection Hj as <-. by apply Hf.
Qed.

Lemma map_Forall_filter_keep (p : string * R → Prop) `{!∀ x, Decision (p x)} m :
  map_Forall P m → map_Forall P (filter p m).
Proof.
  intros Hm. apply map_Forall_lookup. intros j y Hj.
  apply map_lookup_filter_Some in Hj as [Hj _]. by apply (Hm j y).
Qed.
End MapForall.

Global Instance preserves_refl I : Reflexive (preserves I).
Proof. intros s H. exact H. Qed.

Global Instance preserves_trans I : Transitive (preserves I).
Proof. unfold preserves. intros s1 s2 s3 H1 H2 H. auto. Qed.

Ltac keeps_step :=
  first
    [ apply respects_ret | apply respects_throw | apply respects_read
    | apply toISOString_respects
    | apply respects_transaction | apply respects_forEach
    | apply respects_add_fresh | apply respects_bulkAdd_rows
    | apply respects_write
    | apply respects_bind
    | match goal with |- ∀ _, _ => intros ? end ];
  try solve [ apply _ ].

Ltac keeps := repeat keeps_step.

Ltac unchanged_table :=
  solve [ intros; let H := fresh in intro H; exact H ].

Section Bounds.
Implicit Types (s : Store) (now : Z).

Lemma inBounds_100 : inBounds (100 # 1)%Q.
Proof. split; by vm_compute. Qed.

Lemma inBounds_penalty q :
  inBounds q → inBounds (Math_max (0 # 1) (q * (1 # 2)))%Q.
Proof.
  intros [Hlo Hhi]. unfold Math_max.
  destruct (Qle_bool (0 # 1) (q * (1 # 2))) eqn:Hle; [|split; by vm_compute].
  apply Qle_bool_iff in Hle. split; [done|].
  apply Qle_trans with ((100 # 1) * (1 # 2))%Q; [|by vm_compute].
  by apply Qmult_le_compat_r.
Qed.

Lemma calculateTrustScore_post studentId c c' a :
  calculateTrustScore studentId c = (c', inr a) → inBounds a.
Proof.
  unfold calculateTrustScore, whereToArray, read, bind, call, ret.
  destruct (budget c) as [[|n]|]; simpl; intros [= _ <-];
    apply trustScoreOf_bounds.
Qed.

Lemma rescore_bounded studentId now :
  respects (preserves scoresBounded)
    (let! newTrustScore := calculateTrustScore studentId in
     update db_students studentId (setTrustScore newTrustScore now)).
Proof.
  apply (respects_bind_post _ inBounds); [|apply calculateTrustScore_post|].
  - unfold calculateTrustScore. keeps.
  - intros a Ha. apply respects_write; [apply _..|].
    intros s Hs. apply map_Forall_alter_keep; [done|]. by intros st _.
Qed.

Lemma borrowEach_bounded uuid studentId user now due ids :
  ∀ i, respects (preserves scoresBounded)
         (borrowEach uuid i studentId user now due ids).
Proof.
  induction ids as [|id rest IH]; intros i; simpl; keeps;
    first [apply IH | unchanged_table].
Qed.

Lemma evaluateEach_bounded dismissed studentList :
  respects (preserves scoresBounded) (evaluateEach dismissed studentList).
Proof.
  intros c c' r Hrun. apply evaluateEach_unchanged in Hrun.
  red in Hrun. rewrite Hrun. reflexivity.
Qed.

Lemma invocation_scoresBounded s s' :
  invocation (λ sel, inBounds (trust_score sel)) (λ _ _, True) s s' →
  scoresBounded s → scoresBounded s'.
Proof.
  intros Hinv. destruct Hinv as
    [zone uuid user started now sel ids duration s s' Hout
    | now studentId sel s s' Hout
    | now studentId sel s s' Hout
    | now studentId sel due s s' _ Hout
    | now loanId s s' Hout
    | now studentId s s' Hout
    | uuid now form s s' Hout
    | uuid now data s s' Hout
    | uuid now sel form s s' Hsel Hout
    | confirmed studentId s s' Hout
    | ids s s' Hout
    | uuid now editingItem uploaded form s s' Hout
    | confirmed id s s' Hout
    | dismissed now s s' Hout
    | String_trim now oldName newName s s' Hout
    | confirmDelete s s' Hout];
    refine (respects_outcome (preserves scoresBounded) _ s s' _ Hout).
  - unfold handleConfirm. destruct sel as [student|]; [|keeps].
    destruct ids; [keeps|]. apply borrowEach_bounded.
  - unfold handleMarkReturned. destruct sel as [loanId|]; [|keeps].
    apply respects_bind; [apply _ | keeps; unchanged_table |]. intros _.
    apply respects_bind; [apply _ | keeps |]. intros loan.
    apply respects_bind; [apply _ | | intros _; apply rescore_bounded].
    destruct loan; keeps; unchanged_table.
  - unfold handleDeleteLoan. destruct sel as [loanId|]; [|keeps].
    apply respects_bind; [apply _ | keeps |]. intros loan.
    apply respects_bind; [apply _ | |].
    { destruct loan as [l|]; [destruct (negb (isReturned l))|]; keeps; unchanged_table. }
    intros _. apply respects_bind; [apply _ | keeps; unchanged_table |].
    intros _. apply rescore_bounded.
  - unfold handleEditLoan.
    apply respects_bind; [apply _ | keeps |]. intros newDueAt.
    apply respects_bind; [apply _ | keeps; unchanged_table |].
    intros _. apply rescore_bounded.
  - unfold updateLoanStatus.
    apply respects_bind; [apply _ | keeps |]. intros [l|]; keeps; unchanged_table.
  - apply rescore_bounded.
  - unfold handleManualSubmit. keeps. intro Hs.
    apply map_Forall_insert_2; [apply inBounds_100 | done].
  - unfold handleFileImport. destruct data as [|row rest]; [keeps|].
    keeps. intro Hs. apply map_Forall_bulkInsert; [done|].
    apply Forall_forall. intros st Hst. rewrite (imported_score _ _ _ _ Hst).
    apply inBounds_100.
  - unfold handleBlacklistSubmit.
    apply respects_bind; [apply _ | destruct (form_is_blacklisted form); keeps |].
    intros endDate. apply respects_transaction; [apply _|].
    apply respects_bind; [apply _ | |].
    { apply respects_write; [apply _..|]. intros s0 Hs.
      apply map_Forall_alter_keep; [done|]. intros st Hst. simpl.
      destruct (form_is_blacklisted form && negb (is_blacklisted sel)).
      - by apply inBounds_penalty.
      - by apply Hs in Hst. }
    intros _. destruct (form_is_blacklisted form); [keeps; unchanged_table|].
    destruct (is_blacklisted sel); keeps; unchanged_table.
  - unfold handleDeleteStudent, removeStudent. destruct (negb confirmed); keeps.
    + intro Hs. by apply map_Forall_delete.
    + unchanged_table.
  - unfold handleBulkDelete. destruct ids; keeps. unfold removeStudent. keeps.
    + intro Hs. by apply map_Forall_delete.
    + unchanged_table.
  - unfold handleSubmit. destruct editingItem as [item|]; [keeps; unchanged_table|].
    destruct (nonEmpty _); keeps. intro Hs. exact Hs.
  - unfold handleDelete. destruct (negb confirmed); keeps; unchanged_table.
  - unfold checkAtRiskStudents.
    apply respects_bind; [apply _ | keeps |]. intros studentList.
    apply respects_bind; [apply _ | | intros _; apply evaluateEach_bounded].
    apply respects_forEach; [apply _..|]. intros st. unfold expireOne.
    destruct (isExpired now st); keeps. intro Hs.
    apply map_Forall_alter_keep; [done|]. intros st0 Hst0. simpl.
    by apply Hs in Hst0.
  - unfold handleRenameCategory. destruct (_ || _); [keeps|].
    apply respects_bind; [apply _ | keeps |]. intros items.
    apply respects_promiseAll; [apply _..|]. intros item. keeps. unchanged_table.
  - unfold handleClearAllData, clear. destruct (negb confirmDelete); keeps;
      first [unchanged_table | intros _; apply map_Forall_empty].
Qed.
End Bounds.

(** X12. Whatever handlers are invoked, with whatever arguments, and
    whichever calls the store rejects along the way, every stored trust
    score stays between 0 and 100, provided each suspension dialog was
    opened on a student row whose score was within these bounds. *)
Theorem trust_scores_stay_bounded (s s' : Store) :
  scoresBounded s →
  rtc (invocation (λ sel, inBounds (trust_score sel)) (λ _ _, True)) s s' →
  scoresBounded s'.
Proof.
  intros Hs Hsteps. induction Hsteps as [s|s1 s2 s3 Hstep _ IH]; [done|].
  apply IH. by apply (invocation_scoresBounded s1).
Qed.

Lemma suspended_score_is_bounded : scoresBounded suspendedOnce.
Proof.
  apply (trust_scores_stay_bounded emptyStore).
  - intros k st Hk. vm_compute in Hk. discriminate.
  - eapply rtc_l.
    + apply (inv_new_student _ _ (λ _, "s1") 0
               {| mf_full_name := "Alex"; mf_class_name := "7B" |} emptyStore enrolled).
      apply outcome_exec.
    + eapply rtc_l; [|apply rtc_refl].
      apply (inv_blacklist _ _ (λ _, "b1") 1000
               {| st_id := "s1"; st_student_id := "STU0"; st_full_name := "Alex";
                  st_year_group := "Year 7"; st_class_name := Some "7B";
                  st_house := None; st_email := None; st_avatar_url := None;
                  trust_score := (100 # 1)%Q; is_blacklisted := false;
                  blacklist_end_date := None; blacklist_reason := None;
                  st_created_at := 0; st_updated_at := 0 |}
               (suspension 5000 "late returns") enrolled suspendedOnce).
      * simpl. split; by vm_compute.
      * apply outcome_exec.
Defined.

Section Keys.
Implicit Types (s : Store) (now : Z).

Ltac keyed_table Hs He Hl Hb :=
  unfold keyed;
  cbn [rows with_rows key db_students db_equipment db_loans db_blacklistEntries
       students equipment loans blacklistEntries];
  first
    [ assumption
    | apply map_Forall_empty
    | apply map_Forall_insert_2; [reflexivity | assumption]
    | apply map_Forall_delete; assumption
    | apply map_Forall_filter_keep; assumption
    | apply map_Forall_bulkInsert; [assumption | by apply Forall_forall]
    | apply map_Forall_alter_keep; [assumption|];
      let x := fresh in let Hx := fresh in
      intros x Hx; simpl;
      first [exact (Hs _ _ Hx) | exact (He _ _ Hx) | exact (Hl _ _ Hx) | exact (Hb _ _ Hx)]
    | apply map_Forall_fmap_keep; [assumption|];
      let k := fresh in let x := fresh in let Hx := fresh in
      intros k x Hx; simpl;
      match goal with |- context [if ?b then _ else _] => destruct b end; simpl;
      first [exact (Hs _ _ Hx) | exact (He _ _ Hx) | exact (Hl _ _ Hx) | exact (Hb _ _ Hx)] ].

Ltac keyed_side :=
  intros;
  let Hs := fresh "Hs" in let He := fresh "He" in
  let Hl := fresh "Hl" in let Hb := fresh "Hb" in
  intros (Hs & He & Hl & Hb);
  split; [|split; [|split]]; keyed_table Hs He Hl Hb.

Lemma borrowEach_keyed uuid studentId user now due ids :
  ∀ i, respects (preserves keyedAll) (borrowEach uuid i studentId user now due ids).
Proof.
  induction ids as [|id rest IH]; intros i; simpl; keeps;
    first [apply IH | keyed_side].
Qed.

Lemma rescore_keyed studentId now :
  respects (preserves keyedAll)
    (let! newTrustScore := calculateTrustScore studentId in
     update db_students studentId (setTrustScore newTrustScore now)).
Proof. unfold calculateTrustScore. keeps. keyed_side. Qed.

Lemma invocation_keyedAll s s' :
  invocation (λ _, True) (λ _ _, True) s s' → keyedAll s → keyedAll s'.
Proof.
  intros Hinv. destruct Hinv as
    [zone uuid user started now sel ids duration s s' Hout
    | now studentId sel s s' Hout
    | now studentId sel s s' Hout
    | now studentId sel due s s' _ Hout
    | now loanId s s' Hout
    | now studentId s s' Hout
    | uuid now form s s' Hout
    | uuid now data s s' Hout
    | uuid now sel form s s' _ Hout
    | confirmed studentId s s' Hout
    | ids s s' Hout
    | uuid now editingItem uploaded form s s' Hout
    | confirmed id s s' Hout
    | dismissed now s s' Hout
    | String_trim now oldName newName s s' Hout
    | confirmDelete s s' Hout];
    refine (respects_outcome (preserves keyedAll) _ s s' _ Hout).
  - unfold handleConfirm. destruct sel as [student|]; [|keeps].
    destruct ids; [keeps|]. apply borrowEach_keyed.
  - unfold handleMarkReturned. destruct sel as [loanId|]; [|keeps].
    apply respects_bind; [apply _ | keeps; keyed_side |]. intros _.
    apply respects_bind; [apply _ | keeps |]. intros loan.
    apply respects_bind; [apply _ | | intros _; apply rescore_keyed].
    destruct loan; keeps; keyed_side.
  - unfold handleDeleteLoan. destruct sel as [loanId|]; [|keeps].
    apply respects_bind; [apply _ | keeps |]. intros loan.
    apply respects_bind; [apply _ | |].
    { destruct loan as [l|]; [destruct (negb (isReturned l))|]; keeps; keyed_side. }
    intros _. apply respects_bind; [apply _ | keeps; keyed_side |].
    intros _. apply rescore_keyed.
  - unfold handleEditLoan.
    apply respects_bind; [apply _ | keeps |]. intros newDueAt.
    apply respects_bind; [apply _ | keeps; keyed_side |].
    intros _. apply rescore_keyed.
  - unfold updateLoanStatus.
    apply respects_bind; [apply _ | keeps |]. intros [l|]; keeps; keyed_side.
  - apply rescore_keyed.
  - unfold handleManualSubmit. keeps. keyed_side.
  - unfold handleFileImport. destruct data as [|row rest]; [keeps|].
    keeps. keyed_side.
  - unfold handleBlacklistSubmit.
    apply respects_bind; [apply _ | destruct (form_is_blacklisted form); keeps |].
    intros endDate. apply respects_transaction; [apply _|].
    apply respects_bind; [apply _ | keeps; keyed_side |].
    intros _. destruct (form_is_blacklisted form); [keeps; keyed_side|].
    destruct (is_blacklisted sel); keeps; keyed_side.
  - unfold handleDeleteStudent, removeStudent. destruct (negb confirmed); keeps;
      keyed_side.
  - unfold handleBulkDelete. destruct ids; keeps; keyed_side.
  - unfold handleSubmit. destruct editingItem as [item|]; [keeps; keyed_side|].
    destruct (nonEmpty _); keeps. keyed_side.
  - unfold handleDelete. destruct (negb confirmed); keeps; keyed_side.
  - unfold checkAtRiskStudents.
    apply respects_bind; [apply _ | keeps |]. intros studentList.
    apply respects_bind; [apply _ | |].
    + apply respects_forEach; [apply _..|]. intros st. unfold expireOne.
      destruct (isExpired now st); keeps. keyed_side.
    + intros _ c c' r Hrun. apply evaluateEach_unchanged in Hrun.
      red in Hrun. rewrite Hrun. reflexivity.
  - unfold handleRenameCategory. destruct (_ || _); [keeps|].
    apply respects_bind; [apply _ | keeps |]. intros items.
    apply respects_promiseAll; [apply _..|]. intros item. keeps. keyed_side.
  - unfold handleClearAllData, clear. destruct (negb confirmDelete); keeps;
      keyed_side.
Qed.
End Keys.

(** X13. Whatever handlers are invoked, with whatever arguments, and
    whichever calls the store rejects along the way, every table keeps its
    rows stored under their own [id]: no handler ever rewrites the [id] of a
    row or files a row under another key. *)
Theorem rows_stay_keyed (s s' : Store) :
  keyedAll s → rtc (invocation (λ _, True) (λ _ _, True)) s s' → keyedAll s'.
Proof.
  intros Hs Hsteps. induction Hsteps as [s|s1 s2 s3 Hstep _ IH]; [done|].
  apply IH. by apply (invocation_keyedAll s1).
Qed.

Lemma enrolled_rows_are_keyed : keyedAll enrolled.
Proof.
  apply (rows_stay_keyed emptyStore).
  - repeat split; intros k r Hk; vm_compute in Hk; discriminate.
  - eapply rtc_l; [|apply rtc_refl].
    apply (inv_new_student _ _ (λ _, "s1") 0
             {| mf_full_name := "Alex"; mf_class_name := "7B" |} emptyStore enrolled).
    apply outcome_exec.
Defined.

Section SoundLoans.
Implicit Types (s : Store) (now : Z) (l : Loan).

Lemma statusSound_derived l back due now :
  returned_at l = back →
  is_overdue l = overdueAt now (isSome back) due →
  ln_status l = statusFor (isSome back) (overdueAt now (isSome back) due) →
  statusSound l.
Proof.
  intros Hback Hov Hst. unfold statusSound. rewrite Hst, Hov, Hback.
  unfold statusFor, overdueAt. destruct back as [r|]; simpl.
  - split; [split; [by eexists | done]|]. split; done.
  - destruct (due <? now); simpl.
    + split; [split; [done | by intros [? ?]]|]. split; done.
    + split; [split; [done | by intros [? ?]]|]. split; done.
Qed.

Lemma statusSound_newLoan id studentId equipmentId user now due :
  statusSound (newLoan id studentId equipmentId user now due).
Proof.
  unfold statusSound. simpl. split; [split; [done | by intros [? ?]]|]. split; done.
Qed.

Lemma statusSound_markReturned now l : statusSound (markReturned now l).
Proof.
  unfold statusSound. simpl. split; [split; [by eexists | done]|]. split; done.
Qed.

Ltac sound_side :=
  intros; let H := fresh "Hsound" in intro H;
  first
    [ exact H
    | apply map_Forall_empty
    | apply map_Forall_insert_2; [apply statusSound_newLoan | exact H]
    | apply map_Forall_delete; exact H
    | apply map_Forall_alter_keep; [exact H|];
      intros; apply statusSound_markReturned ].

Lemma borrowEach_sound uuid studentId user now due ids :
  ∀ i, respects (preserves loansSound) (borrowEach uuid i studentId user now due ids).
Proof.
  induction ids as [|id rest IH]; intros i; simpl; keeps;
    first [apply IH | sound_side].
Qed.

Lemma rescore_sound studentId now :
  respects (preserves loansSound)
    (let! newTrustScore := calculateTrustScore studentId in
     update db_students studentId (setTrustScore newTrustScore now)).
Proof. unfold calculateTrustScore. keeps. sound_side. Qed.

Lemma updateLoanStatus_sound now loanId :
  respects (preserves loansSound) (updateLoanStatus now loanId).
Proof.
  intros c c' r. unfold updateLoanStatus, get, update, read, write, bind, call, ret.
  destruct c as [s b]. simpl.
  destruct b as [[|[|n]]|]; simpl.
  - intros [= <- _]. reflexivity.
  - destruct (loans s !! loanId); intros [= <- _]; reflexivity.
  - destruct (loans s !! loanId) as [l|] eqn:Hl; intros [= <- _]; [|reflexivity].
    intros Hs. simpl. apply map_Forall_alter_keep; [done|].
    intros x Hx. assert (x = l) as -> by congruence.
    by eapply (statusSound_derived _ (returned_at l)).
  - destruct (loans s !! loanId) as [l|] eqn:Hl; intros [= <- _]; [|reflexivity].
    intros Hs. simpl. apply map_Forall_alter_keep; [done|].
    intros x Hx. assert (x = l) as -> by congruence.
    by eapply (statusSound_derived _ (returned_at l)).
Qed.

Lemma handleEditLoan_sound now studentId sel due s s' :
  sheetAgrees s sel →
  outcome (handleEditLoan now studentId (Some sel) due) s s' →
  loansSound s → loansSound s'.
Proof.
  intros Hsheet (b & c & r & Hrun & <-) Hs.
  destruct due as [due|]; [|by injection Hrun as <- _].
  revert Hrun. unfold handleEditLoan. simpl. unfold bind at 1. simpl.
  unfold bind at 1.
  destruct (update db_loans (la_id sel) _ {| store := s; budget := b |})
    as [c1 [e|[]]] eqn:Hupd.
  - intros [= <- _]. revert Hupd. unfold update, write, bind, call.
    destruct b as [[|n]|]; simpl; by intros [= <- _].
  - intros Hrest.
    assert (loansSound (store c1)) as Hc1.
    { revert Hupd. unfold update, write, bind, call.
      destruct b as [[|n]|]; simpl; intros [= <-];
        (apply map_Forall_alter_keep; [done|]); intros x Hx;
        eapply (statusSound_derived _ (returned_at x)); simpl;
        try reflexivity; by rewrite (Hsheet x Hx). }
    apply (rescore_sound studentId now _ _ _ Hrest Hc1).
Qed.

Lemma invocation_loansSound s s' :
  invocation (λ _, True) sheetAgrees s s' → loansSound s → loansSound s'.
Proof.
  intros Hinv. destruct Hinv as
    [zone uuid user started now sel ids duration s s' Hout
    | now studentId sel s s' Hout
    | now studentId sel s s' Hout
    | now studentId sel due s s' Hsheet Hout
    | now loanId s s' Hout
    | now studentId s s' Hout
    | uuid now form s s' Hout
    | uuid now data s s' Hout
    | uuid now sel form s s' _ Hout
    | confirmed studentId s s' Hout
    | ids s s' Hout
    | uuid now editingItem uploaded form s s' Hout
    | confirmed id s s' Hout
    | dismissed now s s' Hout
    | String_trim now oldName newName s s' Hout
    | confirmDelete s s' Hout];
    try (by apply (handleEditLoan_sound now studentId sel due));
    refine (respects_outcome (preserves loansSound) _ s s' _ Hout).
  - unfold handleConfirm. destruct sel as [student|]; [|keeps].
    destruct ids; [keeps|]. apply borrowEach_sound.
  - unfold handleMarkReturned. destruct sel as [loanId|]; [|keeps].
    apply respects_bind; [apply _ | keeps; sound_side |]. intros _.
    apply respects_bind; [apply _ | keeps |]. intros loan.
    apply respects_bind; [apply _ | | intros _; apply rescore_sound].
    destruct loan; keeps; sound_side.
  - unfold handleDeleteLoan. destruct sel as [loanId|]; [|keeps].
    apply respects_bind; [apply _ | keeps |]. intros loan.
    apply respects_bind; [apply _ | |].
    { destruct loan as [l|]; [destruct (negb (isReturned l))|]; keeps; sound_side. }
    intros _. apply respects_bind; [apply _ | keeps; sound_side |].
    intros _. apply rescore_sound.
  - apply updateLoanStatus_sound.
  - apply rescore_sound.
  - unfold handleManualSubmit. keeps. sound_side.
  - unfold handleFileImport. destruct data as [|row rest]; [keeps|].
    keeps. sound_side.
  - unfold handleBlacklistSubmit.
    apply respects_bind; [apply _ | destruct (form_is_blacklisted form); keeps |].
    intros endDate. apply respects_transaction; [apply _|].
    apply respects_bind; [apply _ | keeps; sound_side |].
    intros _. destruct (form_is_blacklisted form); [keeps; sound_side|].
    destruct (is_blacklisted sel); keeps; sound_side.
  - unfold handleDeleteStudent, removeStudent. destruct (negb confirmed); keeps;
      sound_side.
  - unfold handleBulkDelete. destruct ids; keeps; sound_side.
  - unfold handleSubmit. destruct editingItem as [item|]; [keeps; sound_side|].
    destruct (nonEmpty _); keeps. sound_side.
  - unfold handleDelete. destruct (negb confirmed); keeps; sound_side.
  - unfold checkAtRiskStudents.
    apply respects_bind; [apply _ | keeps |]. intros studentList.
    apply respects_bind; [apply _ | |].
    + apply respects_forEach; [apply _..|]. intros st. unfold expireOne.
      destruct (isExpired now st); keeps. sound_side.
    + intros _ c c' r Hrun. apply evaluateEach_unchanged in Hrun.
      red in Hrun. rewrite Hrun. reflexivity.
  - unfold handleRenameCategory. destruct (_ || _); [keeps|].
    apply respects_bind; [apply _ | keeps |]. intros items.
    apply respects_promiseAll; [apply _..|]. intros item. keeps. sound_side.
  - unfold handleClearAllData, clear. destruct (negb confirmDelete); keeps;
      sound_side.
Qed.
End SoundLoans.

(** X14. Whatever handlers are invoked and whichever calls the store rejects
    along the way, every loan on file stays sound: its status is [returned]
    exactly when it has a return date, and the overdue flag and the
    [overdue] status are only ever found on an open loan.  The one proviso is
    that a due date is edited from a sheet row that agrees with the stored
    loan on [returned_at]. *)
Theorem loans_stay_sound (s s' : Store) :
  loansSound s → rtc (invocation (λ _, True) sheetAgrees) s s' → loansSound s'.
Proof.
  intros Hs Hsteps. induction Hsteps as [s|s1 s2 s3 Hstep _ IH]; [done|].
  apply IH. by apply (invocation_loansSound s1).
Qed.

Lemma lent_ball_loan_is_sound : loansSound ballLent.
Proof.
  apply (loans_stay_sound oneBall).
  - intros k l Hk. vm_compute in Hk. discriminate.
  - eapply rtc_l; [|apply rtc_refl].
    apply (inv_confirm _ _ utcZone (λ _, "l1") None 1000 1000
             (Some (pupil "s1" (100 # 1)))
             ["e1"] 60 oneBall ballLent).
    apply outcome_exec.
Defined.

(** ** The CSV line parser *)

Section Csv.
Implicit Types (line current field : list N) (result fields : list (list N)).

Lemma splitOn_nonempty sep line : splitOn sep line ≠ [].
Proof. destruct line as [|c rest]; simpl; [done|]. by repeat case_match. Qed.

Lemma parseFrom_unquoted line current result :
  quote ∉ line →
  parseFrom line false current result
  = result ++ match splitOn comma line with
              | field :: fields => trim (current ++ field) :: (trim <$> fields)
              | [] => []
              end.
Proof.
  revert current result.
  induction line as [|c rest IH]; intros current result Hq; simpl.
  { by rewrite app_nil_r. }
  apply not_elem_of_cons in Hq as [Hc Hrest].
  destruct (N.eqb_spec c quote) as [->|_]; [done|].
  destruct (N.eqb_spec c comma) as [->|_]; simpl.
  - rewrite IH by done. rewrite app_nil_r, <- app_assoc. simpl.
    pose proof (splitOn_nonempty comma rest).
    by destruct (splitOn comma rest).
  - rewrite IH by done.
    pose proof (splitOn_nonempty comma rest).
    destruct (splitOn comma rest); [done|].
    by rewrite <- app_assoc.
Qed.

(** X15.  On a line without quotation marks [parseCSVLine] is
    [line.split(',')] with every field trimmed. *)
Theorem parseCSVLine_unquoted line :
  quote ∉ line → parseCSVLine line = trim <$> splitOn comma line.
Proof.
  intros Hq. unfold parseCSVLine. rewrite parseFrom_unquoted by done.
  pose proof (splitOn_nonempty comma line).
  by destruct (splitOn comma line).
Qed.

Lemma parseCSVLine_name_class :
  (quote ∉ codes "Jane Doe, 7B")
  ∧ parseCSVLine (codes "Jane Doe, 7B") = trim <$> splitOn comma (codes "Jane Doe, 7B").
Proof.
  assert (H : quote ∉ codes "Jane Doe, 7B").
  { apply (bool_decide_unpack _). vm_compute. exact I. }
  split; [exact H | exact (parseCSVLine_unquoted _ H)].
Defined.

Lemma parseFrom_open tail current result :
  tail ≠ [] → parseFrom (quote :: tail) false current result
              = parseFrom tail true current result.
Proof. by destruct tail. Qed.

Lemma parseFrom_close tail current result :
  head tail ≠ Some quote →
  parseFrom (quote :: tail) true current result
  = parseFrom tail false current result.
Proof.
  destruct tail as [|c tail]; [done|]. simpl. intros Hc.
  destruct (N.eqb_spec c quote) as [->|_]; [by destruct Hc|done].
Qed.

Lemma parseFrom_doubled field tail current result :
  head tail ≠ Some quote →
  parseFrom (doubled field ++ quote :: tail) true current result
  = parseFrom tail false (current ++ field) result.
Proof.
  intros Htail. revert current.
  induction field as [|c rest IH]; intros current.
  { rewrite app_nil_r. by apply parseFrom_close. }
  cbn [doubled]. destruct (N.eqb_spec c quote) as [->|Hc].
  - simpl. rewrite IH. by rewrite <- app_assoc.
  - cbn [app parseFrom]. apply N.eqb_neq in Hc. rewrite Hc.
    rewrite andb_false_r. rewrite IH. by rewrite <- app_assoc.
Qed.

Lemma parseFrom_quoted field tail current result :
  head tail ≠ Some quote →
  parseFrom (quoted field ++ tail) false current result
  = parseFrom tail false (current ++ field) result.
Proof.
  intros Htail. unfold quoted. cbn [app]. rewrite <- app_assoc.
  rewrite parseFrom_open by (by destruct (doubled field)).
  by apply parseFrom_doubled.
Qed.

Lemma parseFrom_csvLine fields result :
  fields ≠ [] →
  parseFrom (csvLine fields) false [] result = result ++ (trim <$> fields).
Proof.
  revert result. induction fields as [|field rest IH]; intros result; [done|].
  intros _. destruct rest as [|field' rest].
  - cbn [csvLine]. rewrite <- (app_nil_r (quoted field)).
    by rewrite parseFrom_quoted.
  - change (csvLine (field :: field' :: rest))
      with (quoted field ++ comma :: csvLine (field' :: rest)).
    rewrite parseFrom_quoted by done.
    cbn [parseFrom]. change (comma =? quote)%N with false.
    change ((comma =? comma)%N && negb false) with true. cbv iota.
    rewrite IH by done. by rewrite <- app_assoc.
Qed.

(** X16.  Reading back a written line: when every field is written between
    quotation marks with its own quotation marks doubled and the fields are
    joined by commas, [parseCSVLine] returns the fields, trimmed, whatever
    commas and quotation marks they hold. *)
Theorem parseCSVLine_csvLine fields :
  fields ≠ [] → parseCSVLine (csvLine fields) = trim <$> fields.
Proof. intros H. unfold parseCSVLine. by rewrite parseFrom_csvLine. Qed.

Lemma parseCSVLine_reads_quoted_name :
  [codes "Doe, Jane"; codes "7B"] ≠ []
  ∧ parseCSVLine (csvLine [codes "Doe, Jane"; codes "7B"])
    = trim <$> [codes "Doe, Jane"; codes "7B"].
Proof.
  assert (H : [codes "Doe, Jane"; codes "7B"] ≠ []) by discriminate.
  split; [exact H | exact (parseCSVLine_csvLine _ H)].
Defined.

End Csv.

(** ** The profile sheet *)

Section Sorting.
Context {A : Type} (le : A → A → bool).
Hypothesis le_total : ∀ a b, le a b = false → le b a = true.
Hypothesis le_trans : ∀ a b c, le a b = true → le b c = true → le a c = true.

Lemma insertBy_perm x (l : list A) : insertBy le x l ≡ₚ x :: l.
Proof.
  induction l as [|y l IH]; simpl; [done|].
  destruct (le x y); [done|]. rewrite IH. apply Permutation_swap.
Qed.

Lemma sortBy_perm (l : list A) : sortBy le l ≡ₚ l.
Proof.
  induction l as [|x l IH]; simpl; [done|].
  by rewrite insertBy_perm, IH.
Qed.

Lemma insertBy_sorted x (l : list A) :
  StronglySorted (λ a b, le a b = true) l →
  StronglySorted (λ a b, le a b = true) (insertBy le x l).
Proof.
  induction l as [|y l IH]; simpl; intros Hl.
  { by repeat constructor. }
  apply StronglySorted_cons in Hl as [Hy Hl].
  destruct (le x y) eqn:Hxy.
  - apply StronglySorted_cons. split; [|by apply StronglySorted_cons].
    constructor; [done|].
    eapply Forall_impl; [exact Hy|]. intros z Hz. by eapply le_trans.
  - apply StronglySorted_cons. split; [|by apply IH].
    rewrite insertBy_perm. constructor; [by apply le_total|done].
Qed.

Lemma sortBy_sorted (l : list A) :
  StronglySorted (λ a b, le a b = true) (sortBy le l).
Proof.
  induction l as [|x l IH]; simpl; [constructor|by apply insertBy_sorted].
Qed.
End Sorting.

Section LoadSheet.
Implicit Types (s : Store) (student : Student) (l : Loan).

Lemma activityOf_runs (ls : list Loan) s :
  runs (activityOf ls) s s
    ((λ l, activityRow l (equipment s !! equipment_id l)) <$> ls).
Proof.
  induction ls as [|l ls IH]; [done|].
  unfold runs in *. cbn [activityOf fmap list_fmap].
  unfold bind at 1. unfold get, read. unfold bind at 1. unfold call at 1.
  cbn [connect budget store rows db_equipment].
  unfold bind at 1. change {| store := s; budget := None |} with (connect s).
  by rewrite IH.
Qed.

Lemma activityOf_unchanged (ls : list Loan) : respects unchanged (activityOf ls).
Proof.
  induction ls as [|l ls IH]; simpl; [apply (respects_ret unchanged)|].
  apply (respects_bind unchanged); [apply (respects_read unchanged)|]. intros item.
  apply (respects_bind unchanged); [exact IH|]. intros others.
  apply (respects_ret unchanged).
Qed.

Lemma mostRecentFirst_total (a b : Loan) :
  mostRecentFirst a b = false → mostRecentFirst b a = true.
Proof. unfold mostRecentFirst. lia. Qed.

Lemma mostRecentFirst_trans (a b c : Loan) :
  mostRecentFirst a b = true → mostRecentFirst b c = true →
  mostRecentFirst a c = true.
Proof. unfold mostRecentFirst. lia. Qed.

(** X17.  What the profile sheet shows.  For a student with an identifier,
    on a store whose loans are filed under their own identifiers, loading
    the sheet succeeds and leaves the store as it was; the totals count the
    student's loans, the active ones among them, and those returned late or
    flagged overdue while still out; the activity list holds the ten most
    recently borrowed loans of the student (all of them when there are
    fewer), most recent first, each row carrying the stored loan's dates and
    state, so every row agrees with the store as editing a loan requires;
    and the score shown is the student's own, except that a score of 0 is
    shown as 50. *)
Theorem loadStudentData_spec student s :
  keyed db_loans s → st_id student ≠ "" →
  ∃ stats activity,
    runs (loadStudentData (Some student)) s s (Some (stats, activity))
    ∧ totalBorrowed stats
      = countWhere (λ l, eqs (student_id l) (st_id student)) (loans s)
    ∧ activeLoans stats
      = countWhere (λ l, eqs (student_id l) (st_id student) && isActive l) (loans s)
    ∧ overdueCount stats
      = countWhere (λ l, eqs (student_id l) (st_id student) && countsAsOverdue l)
          (loans s)
    ∧ length activity = (10 `min` totalBorrowed stats)%nat
    ∧ StronglySorted (λ a b, la_borrowed_at b ≤ la_borrowed_at a) activity
    ∧ (∀ row, row ∈ activity →
         ∃ l, loans s !! la_id row = Some l ∧ student_id l = st_id student
              ∧ row = activityRow l (equipment s !! equipment_id l))
    ∧ (∀ k l, loans s !! k = Some l → student_id l = st_id student →
         (∃ row, row ∈ activity ∧ la_id row = k)
         ∨ (∀ row, row ∈ activity → borrowed_at l ≤ la_borrowed_at row))
    ∧ Forall (sheetAgrees s) activity
    ∧ ((trust_score student == 0)%Q → trustScore stats = (50 # 1)%Q)
    ∧ (¬ (trust_score student == 0)%Q → trustScore stats = trust_score student).
Proof.
  intros Hkeyed Hid.
  set (mine := λ l, eqs (student_id l) (st_id student)).
  set (sorted := sortBy mostRecentFirst (List.filter mine (values (loans s)))).
  set (row := λ l, activityRow l (equipment s !! equipment_id l)).
  assert (Hperm : sorted ≡ₚ List.filter mine (values (loans s)))
    by apply sortBy_perm.
  assert (Hsorted : StronglySorted (λ a b, mostRecentFirst a b = true) sorted).
  { apply sortBy_sorted; [apply mostRecentFirst_total|apply mostRecentFirst_trans]. }
  assert (Hmine : ∀ l, l ∈ sorted ↔ ∃ k, loans s !! k = Some l ∧ student_id l = st_id student).
  { intros l. rewrite Hperm, list_elem_of_In, filter_In, <- list_elem_of_In.
    rewrite elem_of_values. unfold mine, eqs. rewrite bool_decide_eq_true.
    split.
    - intros [[k Hk] Hst]. by exists k.
    - intros (k & Hk & Hst). split; [by exists k|done]. }
  assert (Hrows : ∀ r, r ∈ row <$> take 10 sorted →
            ∃ l, l ∈ take 10 sorted ∧ loans s !! la_id r = Some l
                 ∧ student_id l = st_id student ∧ r = row l).
  { intros r (l & -> & Hl)%list_elem_of_fmap. exists l. split; [done|].
    destruct (proj1 (Hmine l)) as (k & Hk & Hst).
    { by apply (subseteq_take 10). }
    pose proof (Hkeyed k l Hk) as Hkey. simpl in Hkey. subst k. done. }
  exists {| totalBorrowed := length sorted;
            activeLoans := length (List.filter isActive sorted);
            overdueCount := length (List.filter countsAsOverdue sorted);
            trustScore := shownTrustScore student |},
         (row <$> take 10 sorted).
  cbn [totalBorrowed activeLoans overdueCount trustScore].
  split; [|split; [|split; [|split; [|split; [|split; [|split; [|split;
    [|split; [|split]]]]]]]]].
  - unfold runs, loadStudentData.
    destruct (eqs (st_id student) "") eqn:He.
    { unfold eqs in He. by apply bool_decide_eq_true in He. }
    unfold bind at 1. unfold whereToArray, read. unfold bind at 1.
    unfold call at 1. cbn [connect budget store rows db_loans].
    change {| store := s; budget := None |} with (connect s).
    fold mine. fold sorted. unfold bind at 1.
    by rewrite (activityOf_runs (take 10 sorted) s).
  - unfold countWhere. by rewrite Hperm.
  - unfold countWhere. rewrite (filter_length_perm _ _ _ Hperm).
    by rewrite filter_filter_andb.
  - unfold countWhere. rewrite (filter_length_perm _ _ _ Hperm).
    by rewrite filter_filter_andb.
  - rewrite length_fmap, length_take. done.
  - assert (Htake : StronglySorted (λ a b, mostRecentFirst a b = true) (take 10 sorted)).
    { rewrite <- (take_drop 10 sorted) in Hsorted.
      by apply StronglySorted_app in Hsorted as (_ & ? & _). }
    revert Htake. generalize (take 10 sorted). intros ls.
    induction 1 as [|a ls _ IH Hall]; [constructor|].
    cbn [fmap list_fmap]. constructor; [done|].
    apply Forall_fmap. eapply Forall_impl; [exact Hall|].
    intros b Hab. simpl. unfold mostRecentFirst in Hab. lia.
  - intros r Hr. destruct (Hrows r Hr) as (l & _ & ? & ? & ?). by exists l.
  - intros k l Hk Hst.
    assert (Hin : l ∈ sorted) by (apply Hmine; eauto).
    rewrite <- (take_drop 10 sorted) in Hin, Hsorted.
    apply elem_of_app in Hin as [Hin|Hin].
    + left. exists (row l). split; [by apply list_elem_of_fmap_2|].
      simpl. exact (Hkeyed k l Hk).
    + right. intros r (l' & -> & Hl')%list_elem_of_fmap.
      apply StronglySorted_app in Hsorted as (Hle & _ & _).
      specialize (Hle l' l Hl' Hin). simpl. unfold mostRecentFirst in Hle. lia.
  - apply Forall_forall. intros r Hr.
    destruct (Hrows r Hr) as (l & _ & Hl & _ & ->).
    intros l' Hl'. simpl in *. congruence.
  - intros Hz. unfold shownTrustScore.
    by apply Qeq_bool_iff in Hz as ->.
  - intros Hz. unfold shownTrustScore.
    destruct (Qeq_bool (trust_score student) 0) eqn:He; [|done].
    by apply Qeq_bool_iff in He.
Qed.

(** X18.  Loading the profile sheet never writes: whichever call the store
    rejects, and for any student or none, the store is left as it was. *)
Theorem loadStudentData_reads_only (student : option Student) :
  respects unchanged (loadStudentData student).
Proof.
  destruct student as [student|]; simpl; [|apply (respects_ret unchanged)].
  destruct (eqs (st_id student) ""); [apply (respects_ret unchanged)|].
  apply (respects_bind unchanged); [apply (respects_read unchanged)|]. intros ls.
  apply (respects_bind unchanged); [apply activityOf_unchanged|]. intros activity.
  apply (respects_ret unchanged).
Qed.
End LoadSheet.

Lemma profile_of_the_borrower :
  keyed db_loans ballLent ∧ st_id (pupil "s1" 0) ≠ ""
  ∧ ∃ stats activity,
      runs (loadStudentData (Some (pupil "s1" 0))) ballLent ballLent
           (Some (stats, activity))
      ∧ length activity = (10 `min` totalBorrowed stats)%nat
      ∧ trustScore stats = (50 # 1)%Q.
Proof.
  assert (H1 : keyed db_loans ballLent).
  { apply (bool_decide_unpack _). vm_compute. exact I. }
  assert (H2 : st_id (pupil "s1" 0) ≠ "") by discriminate.
  split; [exact H1|]. split; [exact H2|].
  destruct (loadStudentData_spec (pupil "s1" 0) ballLent H1 H2)
    as (stats & activity & Hrun & _ & _ & _ & Hlen & _ & _ & _ & _ & Hzero & _).
  exists stats, activity. split; [exact Hrun|]. split; [exact Hlen|].
  apply Hzero. reflexivity.
Defined.

(** ** The list of the at-risk pass *)

Section AtRiskList.
Implicit Types (s : Store) (now : Z) (a : AtRiskStudent).

Lemma isExpired_afterExpiry now (st : Student) :
  isExpired now (afterExpiry now st) = false.
Proof.
  unfold afterExpiry. destruct (isExpired now st) eqn:He; [done|exact He].
Qed.

Lemma st_id_afterExpiry now (st : Student) : st_id (afterExpiry now st) = st_id st.
Proof. unfold afterExpiry. by destruct (isExpired now st). Qed.

Lemma elem_of_verdicts dismissed s (l : list Student) a :
  a ∈ flat_map (verdict dismissed s) l →
  ar_student a ∈ l ∧ atRisk a = true
  ∧ dismissed (st_id (ar_student a)) (late_returns_since_suspension a) = false.
Proof.
  rewrite list_elem_of_In, in_flat_map. intros (st & Hst & Ha).
  apply list_elem_of_In in Hst. unfold verdict in Ha.
  destruct (atRisk _ && negb _) eqn:Hc; [|by destruct Ha].
  destruct Ha as [<-|[]]. apply andb_true_iff in Hc as [Hrisk Hd].
  apply negb_true_iff in Hd. done.
Qed.

Lemma length_verdicts dismissed s (l : list Student) :
  (length (flat_map (verdict dismissed s) l) ≤ length l)%nat.
Proof.
  induction l as [|st l IH]; simpl; [done|].
  rewrite length_app. unfold verdict at 1.
  destruct (atRisk _ && negb _); simpl; lia.
Qed.

Lemma verdicts_sublist dismissed s (l : list Student) :
  ar_student <$> flat_map (verdict dismissed s) l `sublist_of` l.
Proof.
  induction l as [|st l IH]; simpl; [done|].
  rewrite fmap_app. unfold verdict at 1.
  destruct (atRisk _ && negb _); simpl; by constructor.
Qed.

Lemma keyed_ids_NoDup s :
  keyed db_students s → NoDup (st_id <$> values (students s)).
Proof.
  intros Hkeyed. unfold values.
  assert ((st_id <$> (map_to_list (students s)).*2) = (map_to_list (students s)).*1)
    as ->; [|apply NoDup_fst_map_to_list].
  assert (Forall (λ kv, st_id kv.2 = kv.1) (map_to_list (students s))) as Hall.
  { apply Forall_forall. intros [k st] Hin%elem_of_map_to_list.
    exact (Hkeyed k st Hin). }
  induction Hall as [|[k st] l Hk _ IH]; [done|].
  cbn [fmap list_fmap fst snd] in *. by f_equal.
Qed.

(** X19.  The list of the at-risk pass.  On a store whose students are filed
    under their own identifiers the pass completes; every listed student
    passed the at-risk test, had no dismissal recorded for the count, and is
    listed with the row that was stored before the pass, and no student is
    listed twice; so a student whose suspension the pass has just lifted
    is listed as suspended although the stored row no longer is.  After the
    pass no stored student is under a suspension that ended before [now],
    and a second pass at the same time leaves the store as the first one
    did. *)
Theorem at_risk_list_spec (dismissed : string → nat → bool) now s :
  keyed db_students s →
  ∃ s' out,
    runs (checkAtRiskStudents dismissed now) s s' out
    ∧ (∀ a, a ∈ out →
         students s !! st_id (ar_student a) = Some (ar_student a)
         ∧ atRisk a = true
         ∧ dismissed (st_id (ar_student a)) (late_returns_since_suspension a) = false)
    ∧ (length out ≤ size (students s))%nat
    ∧ NoDup ((λ a, st_id (ar_student a)) <$> out)
    ∧ (∀ a, a ∈ out → isExpired now (ar_student a) = true →
         is_blacklisted (ar_student a) = true
         ∧ (is_blacklisted <$> students s' !! st_id (ar_student a)) = Some false)
    ∧ (∀ k st, students s' !! k = Some st → isExpired now st = false)
    ∧ ∃ out', runs (checkAtRiskStudents dismissed now) s' s' out'.
Proof.
  intros Hkeyed.
  destruct (checkAtRiskStudents_runs dismissed now s) as (s' & Hrun & Hkept & Hfold).
  assert (Hrows : ∀ k, students s' !! k = afterExpiry now <$> students s !! k).
  { intros k. rewrite Hfold. by apply expire_rows. }
  assert (Hin : ∀ a, a ∈ flat_map (verdict dismissed s) (values (students s)) →
            students s !! st_id (ar_student a) = Some (ar_student a)
            ∧ atRisk a = true
            ∧ dismissed (st_id (ar_student a)) (late_returns_since_suspension a) = false).
  { intros a (Hst & Hrisk & Hd)%elem_of_verdicts. split; [|done].
    apply elem_of_values in Hst as [k Hk].
    pose proof (Hkeyed k _ Hk) as Hid. simpl in Hid. by rewrite Hid. }
  assert (Hfresh : ∀ k st, students s' !! k = Some st → isExpired now st = false).
  { intros k st. rewrite Hrows. destruct (students s !! k) as [st0|]; [|done].
    intros [= <-]. apply isExpired_afterExpiry. }
  exists s', (flat_map (verdict dismissed s) (values (students s))).
  split; [exact Hrun|]. split; [exact Hin|].
  split.
  { etransitivity; [apply length_verdicts|].
    unfold values. by rewrite length_fmap, length_map_to_list. }
  split.
  { rewrite (list_fmap_compose ar_student st_id).
    eapply sublist_NoDup; [by apply keyed_ids_NoDup|].
    apply fmap_sublist, verdicts_sublist. }
  split.
  { intros a Ha Hexp. destruct (Hin a Ha) as (Hst & _).
    split.
    - unfold isExpired in Hexp. by destruct (is_blacklisted (ar_student a)).
    - rewrite Hrows, Hst. simpl. unfold afterExpiry. by rewrite Hexp. }
  split; [exact Hfresh|].
  destruct (checkAtRiskStudents_runs dismissed now s') as (s'' & Hrun' & Hkept' & Hfold').
  assert (s'' = s') as ->; [|by eexists].
  assert (Hkeyed' : ∀ k st, students s' !! k = Some st → st_id st = k).
  { intros k st. rewrite Hrows. destruct (students s !! k) as [st0|] eqn:Hk; [|done].
    intros [= <-]. rewrite st_id_afterExpiry. exact (Hkeyed k st0 Hk). }
  assert (students s'' = students s') as Hst.
  { apply map_eq. intros k. rewrite Hfold', expire_rows by done.
    destruct (students s' !! k) as [st|] eqn:Hk; [|done]. simpl.
    unfold afterExpiry. by rewrite (Hfresh k st Hk). }
  destruct Hkept' as (Hl & He & Hb). destruct s', s''. simpl in *. congruence.
Qed.

Lemma lapsed_suspension_is_lifted_once :
  keyed db_students suspendedOnce
  ∧ ∃ s' out,
      runs (checkAtRiskStudents (λ _ _, false) 6000) suspendedOnce s' out
      ∧ ∃ out', runs (checkAtRiskStudents (λ _ _, false) 6000) s' s' out'.
Proof.
  assert (H : keyed db_students suspendedOnce).
  { apply (bool_decide_unpack _). vm_compute. exact I. }
  split; [exact H|].
  destruct (at_risk_list_spec (λ _ _, false) 6000 suspendedOnce H)
    as (s' & out & Hrun & _ & _ & _ & _ & _ & Hagain).
  exists s', out. split; [exact Hrun|exact Hagain].
Defined.
End AtRiskList.

(** ** Loan history of an item *)

Section History.
Implicit Types (s : Store) (item : EquipmentItem) (l : Loan).

Lemma historyOf_runs (ls : list Loan) s :
  runs (historyOf ls) s s
    ((λ l, historyRow l (students s !! student_id l)) <$> ls).
Proof.
  induction ls as [|l ls IH]; [done|].
  unfold runs in *. cbn [historyOf fmap list_fmap].
  unfold bind at 1. unfold get, read. unfold bind at 1. unfold call at 1.
  cbn [connect budget store rows db_students].
  unfold bind at 1. change {| store := s; budget := None |} with (connect s).
  by rewrite IH.
Qed.

Lemma historyOf_unchanged (ls : list Loan) : respects unchanged (historyOf ls).
Proof.
  induction ls as [|l ls IH]; simpl; [apply (respects_ret unchanged)|].
  apply (respects_bind unchanged); [apply (respects_read unchanged)|]. intros student.
  apply (respects_bind unchanged); [exact IH|]. intros others.
  apply (respects_ret unchanged).
Qed.

(** X20.  The loan history of an item.  Viewing the history always succeeds
    when the store accepts the calls and never writes, whatever fails; the
    history holds every stored loan of the item exactly once, most recently
    borrowed first, each with the name and class of the student stored
    under the loan's [student_id], and [Unknown Student] without a class
    when no such student is stored. *)
Theorem handleViewHistory_spec item s :
  respects unchanged (handleViewHistory item)
  ∧ ∃ history,
      runs (handleViewHistory item) s s history
      ∧ lh_loan <$> history
        ≡ₚ List.filter (λ l, eqs (equipment_id l) (eq_id item)) (values (loans s))
      ∧ length history
        = countWhere (λ l, eqs (equipment_id l) (eq_id item)) (loans s)
      ∧ StronglySorted
          (λ a b, borrowed_at (lh_loan b) ≤ borrowed_at (lh_loan a)) history
      ∧ (∀ row, row ∈ history →
           equipment_id (lh_loan row) = eq_id item
           ∧ (∃ k, loans s !! k = Some (lh_loan row))
           ∧ row = historyRow (lh_loan row) (students s !! student_id (lh_loan row)))
      ∧ (∀ row, row ∈ history → students s !! student_id (lh_loan row) = None →
           student_name row = "Unknown Student" ∧ student_class row = None).
Proof.
  split.
  { apply (respects_bind unchanged); [apply (respects_read unchanged)|].
    intros ls. apply historyOf_unchanged. }
  set (ofItem := λ l, eqs (equipment_id l) (eq_id item)).
  set (sorted := sortBy mostRecentFirst (List.filter ofItem (values (loans s)))).
  set (row := λ l, historyRow l (students s !! student_id l)).
  assert (Hperm : sorted ≡ₚ List.filter ofItem (values (loans s)))
    by apply sortBy_perm.
  assert (Hsorted : StronglySorted (λ a b, mostRecentFirst a b = true) sorted).
  { apply sortBy_sorted; [apply mostRecentFirst_total|apply mostRecentFirst_trans]. }
  assert (Hloans : lh_loan <$> (row <$> sorted) = sorted).
  { rewrite <- list_fmap_compose. apply list_fmap_id. }
  assert (Hrows : ∀ r, r ∈ row <$> sorted →
            equipment_id (lh_loan r) = eq_id item
            ∧ (∃ k, loans s !! k = Some (lh_loan r))
            ∧ r = row (lh_loan r)).
  { intros r (l & -> & Hl)%list_elem_of_fmap. simpl.
    rewrite Hperm, elem_of_filter_bool, elem_of_values in Hl.
    destruct Hl as [Hk Hitem]. unfold ofItem, eqs in Hitem.
    apply bool_decide_eq_true in Hitem. done. }
  exists (row <$> sorted).
  split; [|split; [|split; [|split; [|split]]]].
  - unfold runs, handleViewHistory.
    unfold bind at 1. unfold whereToArray, read. unfold bind at 1.
    unfold call at 1. cbn [connect budget store rows db_loans].
    change {| store := s; budget := None |} with (connect s).
    fold ofItem. fold sorted. apply historyOf_runs.
  - by rewrite Hloans.
  - rewrite length_fmap. unfold countWhere. by rewrite Hperm.
  - revert Hsorted. generalize sorted. intros ls.
    induction 1 as [|a ls _ IH Hall]; [constructor|].
    cbn [fmap list_fmap]. constructor; [done|].
    apply Forall_fmap. eapply Forall_impl; [exact Hall|].
    intros b Hab. simpl. unfold mostRecentFirst in Hab. lia.
  - exact Hrows.
  - intros r Hr Hnone. destruct (Hrows r Hr) as (_ & _ & ->).
    unfold row. simpl. by rewrite Hnone.
Qed.
End History.

(** ** List filters *)

Section Filters.
Variable toLowerCase : string → string.
Implicit Types (items : list EquipmentItem) (s : Store) (now : Z).

Lemma filter_bool_sublist {A} (p : A → bool) (l : list A) :
  List.filter p l `sublist_of` l.
Proof.
  induction l as [|x l IH]; simpl; [done|].
  destruct (p x); by constructor.
Qed.

Lemma pills_partition items :
  items ≡ₚ List.filter (hasStatus available) items
           ++ List.filter (hasStatus borrowed) items
           ++ List.filter (hasStatus reserved) items
           ++ List.filter (λ item, hasStatus lost item || hasStatus damaged item
                                   || hasStatus repair item) items.
Proof.
  induction items as [|item items IH]; [done|].
  assert (Hh : ∀ st, hasStatus st item = bool_decide (status item = st)) by done.
  cbn [List.filter]. rewrite !Hh.
  destruct (status item); repeat (case_bool_decide; try done); cbn [orb app].
  - by apply perm_skip.
  - rewrite <- Permutation_middle. by apply perm_skip.
  - rewrite app_assoc, <- Permutation_middle, <- app_assoc. by apply perm_skip.
  - rewrite !app_assoc, <- Permutation_middle, <- !app_assoc. by apply perm_skip.
  - rewrite !app_assoc, <- Permutation_middle, <- !app_assoc. by apply perm_skip.
  - rewrite !app_assoc, <- Permutation_middle, <- !app_assoc. by apply perm_skip.
Qed.

(** X21.  The status pills of the inventory.  Whatever the search text, the
    items shown under [Available], [Borrowed], [Reserved] and
    [Lost or Damaged] together are the items shown under [All], each shown
    under exactly one of the four; a pill only hides items, keeping the
    order of the list; and with no search text [All] shows every item. *)
Theorem filterItems_pills (searchQuery : string) items :
  filterItems toLowerCase searchQuery All items
  ≡ₚ filterItems toLowerCase searchQuery Available items
     ++ filterItems toLowerCase searchQuery Borrowed items
     ++ filterItems toLowerCase searchQuery Reserved items
     ++ filterItems toLowerCase searchQuery LostOrDamaged items
  ∧ (∀ item f g,
       item ∈ filterItems toLowerCase searchQuery f items →
       item ∈ filterItems toLowerCase searchQuery g items →
       f = g ∨ f = All ∨ g = All)
  ∧ (∀ f, filterItems toLowerCase searchQuery f items `sublist_of` items)
  ∧ filterItems toLowerCase "" All items = items.
Proof.
  split; [apply pills_partition|]. split; [|split; [|done]].
  - intros item f g. unfold filterItems.
    destruct f, g; rewrite ?elem_of_filter_bool; unfold hasStatus;
      rewrite ?orb_true_iff, ?bool_decide_eq_true; intros Hf Hg;
      try (by left); try (by right; left); try (by right; right);
      exfalso; destruct Hf as [_ Hf], Hg as [_ Hg];
      repeat match goal with H : _ ∨ _ |- _ => destruct H end; congruence.
  - intros f. unfold filterItems.
    assert ((if eqs searchQuery "" then items
             else List.filter (itemMatches toLowerCase searchQuery) items)
            `sublist_of` items) as Hsub.
    { destruct (eqs searchQuery ""); [done|apply filter_bool_sublist]. }
    destruct f; [done|..]; (etransitivity; [apply filter_bool_sublist|done]).
Qed.

Lemma openAndDue_spec now (l : Loan) :
  openAndDue now l = true ↔ returned_at l = None ∧ due_at l < now.
Proof.
  unfold openAndDue. rewrite andb_true_iff, negb_true_iff, Z.ltb_lt.
  destruct (returned_at l); simpl; split; intros [? ?]; done.
Qed.

(** X22.  The [Overdue] pill of the student page.  Loading the overdue
    information succeeds and leaves the store as it was; a student is marked
    exactly when the store holds an open loan of theirs that was due before
    [now], whatever the loan's stored overdue flag says; the pill then shows,
    in list order, the students found by the search that are marked; and
    when the stored flags of all loans are current at [now], the marked
    students are those with a loan flagged overdue. *)
Theorem overdue_pill_spec now s (searchQuery : string) (studentList : list Student) :
  ∃ overdueStudents,
    runs (loadOverdueInfo now) s s overdueStudents
    ∧ (∀ id, id ∈ overdueStudents
             ↔ ∃ k l, loans s !! k = Some l ∧ student_id l = id
                      ∧ returned_at l = None ∧ due_at l < now)
    ∧ filterStudents toLowerCase searchQuery Overdue overdueStudents studentList
        `sublist_of` studentList
    ∧ (∀ student,
         student ∈ filterStudents toLowerCase searchQuery Overdue overdueStudents
                     studentList
         ↔ student ∈ filterStudents toLowerCase searchQuery AllStudents
                       overdueStudents studentList
           ∧ ∃ k l, loans s !! k = Some l ∧ student_id l = st_id student
                    ∧ returned_at l = None ∧ due_at l < now)
    ∧ (map_Forall (λ _ l, statusCurrent now l) (loans s) →
       ∀ id, id ∈ overdueStudents
             ↔ ∃ k l, loans s !! k = Some l ∧ student_id l = id
                      ∧ is_overdue l = true).
Proof.
  set (marked := list_to_set (student_id <$> List.filter (openAndDue now)
                                (values (loans s))) : gset string).
  assert (Hmarked : ∀ id, id ∈ marked
            ↔ ∃ k l, loans s !! k = Some l ∧ student_id l = id
                     ∧ returned_at l = None ∧ due_at l < now).
  { intros id. unfold marked. rewrite elem_of_list_to_set, list_elem_of_fmap.
    split.
    - intros (l & -> & Hl). rewrite elem_of_filter_bool, elem_of_values in Hl.
      destruct Hl as [[k Hk] Hdue]. apply openAndDue_spec in Hdue.
      exists k, l. tauto.
    - intros (k & l & Hk & <- & Hopen). exists l. split; [done|].
      rewrite elem_of_filter_bool, elem_of_values. split; [by exists k|].
      by apply openAndDue_spec. }
  exists marked. split; [done|]. split; [exact Hmarked|].
  split.
  { unfold filterStudents. etransitivity; [apply filter_bool_sublist|].
    destruct (eqs searchQuery ""); [done|apply filter_bool_sublist]. }
  split.
  - intros student. unfold filterStudents.
    rewrite elem_of_filter_bool, bool_decide_eq_true, Hmarked. done.
  - intros Hcur id. rewrite Hmarked. split.
    + intros (k & l & Hk & Hid & Hopen). exists k, l.
      split; [done|]. split; [done|].
      destruct (Hcur k l Hk) as (_ & _ & Hflag). by apply Hflag.
    + intros (k & l & Hk & Hid & Hflag). exists k, l.
      split; [done|]. split; [done|].
      destruct (Hcur k l Hk) as (_ & _ & Hf). by apply Hf.
Qed.
End Filters.

(** ** Settings page *)

Section SettingsPage.
Variable String_trim : string → string.
Implicit Types (s : Store) (now : Z).

Lemma foldl_alter_lookup {R} (f : R → R) (key : R → string) (items : list R) :
  (∀ x, f (f x) = f x) →
  ∀ (m : gmap string R) k,
    foldl (λ m item, alter f (key item) m) m items !! k
    = if decide (k ∈ key <$> items) then f <$> m !! k else m !! k.
Proof.
  intros Hidem. induction items as [|x rest IH]; intros m k; [done|].
  cbn [foldl fmap list_fmap]. rewrite IH.
  destruct (decide (k = key x)) as [->|Hne].
  - rewrite lookup_alter_eq.
    rewrite (decide_True (P := key x ∈ key x :: (key <$> rest)))
      by apply list_elem_of_here.
    destruct (decide (key x ∈ key <$> rest)); [|done].
    destruct (m !! key x); simpl; by rewrite ?Hidem.
  - rewrite lookup_alter_ne by done.
    destruct (decide (k ∈ key <$> rest)) as [Hin|Hout].
    + by rewrite decide_True by (by apply list_elem_of_further).
    + rewrite decide_False; [done|]. by intros [?|?]%elem_of_cons.
Qed.

Lemma promiseAll_updates (f : EquipmentItem → EquipmentItem)
    (items : list EquipmentItem) :
  ∀ s, runs (promiseAll items (λ item, update db_equipment (eq_id item) f)) s
         (with_rows db_equipment
            (foldl (λ m item, alter f (eq_id item) m) (equipment s) items) s) tt.
Proof.
  induction items as [|item rest IH]; intros s.
  { by destruct s. }
  unfold runs in *. cbn [promiseAll foldl].
  change (update db_equipment (eq_id item) f (connect s))
    with (connect (with_rows db_equipment (alter f (eq_id item) (equipment s)) s),
          @inr error unit tt).
  cbv iota beta. by rewrite IH.
Qed.

(** X23.  Renaming a category.  Nothing happens when the new name is blank
    or equal to the old one.  Otherwise, on a store whose items are filed
    under their own identifiers, the rename completes: every item of the old
    category gets the trimmed new name and a new [updated_at], every other
    item is left as it was, and no status, loan, student or suspension entry
    changes, so the lending invariant is kept.  The guard compares the
    untrimmed name: a new name that differs from the old one only by
    surrounding blanks rewrites the items with the category they had. *)
Theorem handleRenameCategory_spec now (oldName newName : string) s :
  keyed db_equipment s →
  (String_trim newName = "" ∨ oldName = newName →
   run (handleRenameCategory String_trim now oldName newName) s = (s, inr tt))
  ∧ (String_trim newName ≠ "" → oldName ≠ newName →
     ∃ s',
       run (handleRenameCategory String_trim now oldName newName) s = (s', inr tt)
       ∧ loans s' = loans s ∧ students s' = students s
       ∧ blacklistEntries s' = blacklistEntries s
       ∧ (∀ k, equipment s' !! k
               = (λ e, if eqs (eq_category e) oldName
                       then setCategory (String_trim newName) now e else e)
                 <$> equipment s !! k)
       ∧ (∀ k e', equipment s' !! k = Some e' →
            ∃ e, equipment s !! k = Some e ∧ status e' = status e)
       ∧ (consistent s → consistent s')
       ∧ (String_trim newName = oldName →
          ∀ k e', equipment s' !! k = Some e' →
            ∃ e, equipment s !! k = Some e ∧ eq_category e' = eq_category e)).
Proof.
  intros Hkeyed. split.
  { intros Hskip. unfold handleRenameCategory.
    assert (eqs (String_trim newName) "" || eqs oldName newName = true) as ->; [|done].
    unfold eqs. apply orb_true_iff. rewrite !bool_decide_eq_true. done. }
  intros Hblank Hnew.
  set (f := setCategory (String_trim newName) now).
  set (p := λ e : EquipmentItem, eqs (eq_category e) oldName).
  set (items := List.filter p (values (equipment s))).
  set (m' := foldl (λ m item, alter f (eq_id item) m) (equipment s) items).
  assert (Hrows : ∀ k, m' !! k
            = (λ e, if p e then f e else e) <$> equipment s !! k).
  { intros k. unfold m'. rewrite (foldl_alter_lookup f eq_id) by done.
    destruct (equipment s !! k) as [e|] eqn:He; simpl.
    - destruct (p e) eqn:Hp.
      + rewrite decide_True; [done|]. apply list_elem_of_fmap.
        exists e. split; [symmetry; exact (Hkeyed k e He)|].
        apply elem_of_filter_bool. split; [|done].
        apply elem_of_values. by exists k.
      + rewrite decide_False; [done|].
        intros (e0 & -> & He0)%list_elem_of_fmap.
        apply elem_of_filter_bool in He0 as [[k0 Hk0]%elem_of_values Hp0].
        pose proof (Hkeyed k0 e0 Hk0) as Hid. simpl in Hid. subst k0.
        congruence.
    - by destruct (decide _). }
  assert (Hstatus : ∀ k e', m' !! k = Some e' →
            ∃ e, equipment s !! k = Some e ∧ status e' = status e).
  { intros k e'. rewrite Hrows. destruct (equipment s !! k) as [e|]; [|done].
    simpl. intros [= <-]. exists e. split; [done|]. by destruct (p e). }
  exists (with_rows db_equipment m' s).
  split.
  { unfold handleRenameCategory.
    assert (eqs (String_trim newName) "" || eqs oldName newName = false) as ->.
    { unfold eqs. apply orb_false_iff. by rewrite !bool_decide_eq_false. }
    apply runs_run. eapply runs_bind; [reflexivity|]. apply promiseAll_updates. }
  cbn [with_rows db_equipment loans students blacklistEntries equipment].
  do 3 (split; [done|]). split; [exact Hrows|]. split; [exact Hstatus|].
  split.
  - intros Hs equipmentId e' He'. destruct (Hstatus _ _ He') as (e & He & ->).
    exact (Hs equipmentId e He).
  - intros Hsame k e'. rewrite Hrows.
    destruct (equipment s !! k) as [e|]; [|done]. simpl. intros [= <-].
    exists e. split; [done|]. destruct (p e) eqn:Hp; [|done].
    unfold p, eqs in Hp. apply bool_decide_eq_true in Hp. simpl. congruence.
Qed.

(** X24.  Clearing all data.  Declining the dialog leaves the store alone.
    Otherwise the loans, then the items, then the students are cleared, and
    the suspension entries are never touched: whatever happens, the store is
    left as it was, or without its loans, or without loans and items, or
    without loans, items and students, each time with every suspension entry
    still on file; with every call accepted it is the last of these. *)
Theorem handleClearAllData_spec s :
  run (handleClearAllData false) s = (s, inr tt)
  ∧ run (handleClearAllData true) s
    = ({| students := ∅; equipment := ∅; loans := ∅;
          blacklistEntries := blacklistEntries s |}, inr tt)
  ∧ (∀ s', outcome (handleClearAllData true) s s' →
       blacklistEntries s' = blacklistEntries s
       ∧ loans s' ∈ [loans s; ∅]
       ∧ (equipment s' = equipment s ∨ equipment s' = ∅ ∧ loans s' = ∅)
       ∧ (students s' = students s
          ∨ students s' = ∅ ∧ equipment s' = ∅ ∧ loans s' = ∅)).
Proof.
  split; [done|]. split; [done|].
  intros s' (b & c & r & Hrun & <-).
  unfold handleClearAllData, clear, write, bind, call in Hrun. simpl in Hrun.
  destruct b as [[|[|[|n]]]|]; simpl in Hrun; injection Hrun as <- _; simpl;
    (split; [done|]); (split; [set_solver|]); split; auto.
Qed.
End SettingsPage.

Lemma renaming_the_ball_category :
  keyed db_equipment oneBall
  ∧ ∃ s', run (handleRenameCategory (λ x, x) 5 "Basketball" "Balls") oneBall
          = (s', inr tt)
          ∧ (eq_category <$> equipment s' !! "e1") = Some "Balls".
Proof.
  assert (H : keyed db_equipment oneBall).
  { apply (bool_decide_unpack _). vm_compute. exact I. }
  split; [exact H|].
  destruct (handleRenameCategory_spec (λ x, x) 5 "Basketball" "Balls" oneBall H)
    as (_ & Hrename).
  destruct Hrename as (s' & Hrun & _ & _ & _ & Hrows & _); [discriminate..|].
  exists s'. split; [exact Hrun|]. rewrite Hrows. vm_compute. reflexivity.
Defined.
